(** * PeerTube import engine: youtube-dl runner, format chain, playlist merge,
      quick-transcode decisions and channel synchronisation.

    A shallow embedding of
      - server/helpers/youtube-dl/youtube-dl-cli.ts   (module [CLI])
      - the class YoutubeDLWrapper                    (module [Wrapper])
      - packages/ffmpeg/src/ffmpeg-hwenc.ts, the default encoder profile
                                                      (module [Transcode])
      - server/lib/sync-channel.ts, in its two revisions (modules
        [SyncChannel] and [SyncChannelEntries]).

    Conventions.  A JS string that is scanned character by character is a
    list of UTF-16 code units; identifiers, URLs and command line flags are
    plain [string]s.  A JS [number] is a rational ([Q]) where the code
    compares it or does arithmetic on it, the arithmetic being rounded as
    binary64 rounds it (module [Binary64]), and an integer ([Z]) where it
    only compares or prints it; [undefined], [null] and [NaN] are [None].  A call that may
    throw returns a [result]; code that also mutates the session object or
    talks to the job queue runs in the monad [M] over a [World]. *)

From Stdlib Require PrimFloat SpecFloat FloatOps.
From Stdlib Require Import ZArith QArith Qminmax Qround Qabs Qpower Lqa Lia.
From Stdlib Require Import List String Ascii Bool DecimalString.
Import ListNotations.

Local Open Scope string_scope.
Local Open Scope list_scope.
Local Open Scope Z_scope.

(* ===================================================================== *)
(** ** JavaScript values used by the code *)
(* ===================================================================== *)

Module JS.

(** A string as a sequence of UTF-16 code units. *)
Definition jsstring := list N.

(** An ASCII literal as a JS string. *)
Definition str (s : string) : jsstring :=
  map N_of_ascii (list_ascii_of_string s).

Definition LF : N := 10%N.
Definition CR : N := 13%N.

(** ECMAScript WhiteSpace and LineTerminator code points, the set that
    [String.prototype.trim] strips. *)
Definition isWhiteSpace (c : N) : bool :=
  ((9 <=? c) && (c <=? 13) || (c =? 32) || (c =? 160) || (c =? 5760)
   || (8192 <=? c) && (c <=? 8202) || (c =? 8232) || (c =? 8233)
   || (c =? 8239) || (c =? 8287) || (c =? 12288) || (c =? 65279))%N.

Fixpoint trimStart (s : jsstring) : jsstring :=
  match s with
  | c :: s' => if isWhiteSpace c then trimStart s' else s
  | [] => []
  end.

Definition trimEnd (s : jsstring) : jsstring := rev (trimStart (rev s)).

Definition trim (s : jsstring) : jsstring := trimEnd (trimStart s).

(** [s.split(/\r?\n/)]: [cur] holds, reversed, the piece being read. *)
Fixpoint splitLinesFrom (cur s : jsstring) : list jsstring :=
  match s with
  | [] => [rev cur]
  | c :: rest =>
      if (c =? LF)%N then rev cur :: splitLinesFrom [] rest
      else if (c =? CR)%N then
        match rest with
        | c' :: rest' =>
            if (c' =? LF)%N then rev cur :: splitLinesFrom [] rest'
            else splitLinesFrom (c :: cur) rest
        | [] => splitLinesFrom (c :: cur) rest
        end
      else splitLinesFrom (c :: cur) rest
  end.

Definition splitLines (s : jsstring) : list jsstring := splitLinesFrom [] s.

(** Errors that reach the modelled code.  The first six are the classes of
    youtube-dl-errors.ts with their constructor arguments. *)
Inductive Error : Type :=
| YoutubeDLCLIExecError (url : string)
| YoutubeDLCLIRetCodeError (retcode : Z) (url : string)
| YoutubeDLCLICrashError (err : jsstring) (url : string)
| YoutubeDLNoInfoError (url : string)
| YoutubeDLNoFormatsError (url : string)
| YoutubeDLIsLiveError (url : string)
| TypeError (msg : string)
| SyntaxError (msg : string)
| OtherError (msg : string).

(** Outcome of a call: a value, or a thrown error. *)
Inductive result (A : Type) : Type :=
| Return (a : A)
| Throw (e : Error).
Arguments Return {A} a.
Arguments Throw {A} e.

Definition isThrow {A} (r : result A) : bool :=
  match r with Throw _ => true | Return _ => false end.

(** [`${n}`] for an integer-valued number. *)
Definition numberToString (n : Z) : string :=
  NilZero.string_of_int (Z.to_int n).

End JS.
Import JS.

(* ===================================================================== *)
(** ** youtube-dl-cli.ts *)
(* ===================================================================== *)

Module CLI.

(** What [await subProcess] hands back (execa's return value). *)
Record ExecaReturnValue : Type := {
  command : string;
  exitCode : Z;
  stdout : jsstring;
  stderr : jsstring
}.

(** The awaited promise either rejects (execa throws) or yields a value,
    which the code then tests for falsiness: [None] is [undefined]. *)
Inductive Awaited : Type :=
| Rejected (e : Error)
| Fulfilled (output : option ExecaReturnValue).

(** One record of youtube-dl's JSON output ([Partial<YoutubeDLCLIResult>]),
    with the properties the listing code reads; [json] stands for all the
    others, which that code passes along untouched. *)
Record YoutubeDLCLIResult : Type := {
  webpage_url : option string;
  timestamp : option Z;
  release_timestamp : option Z;
  json : jsstring
}.

(** The value [getInfo] resolves to: [undefined], one record, or an array. *)
Inductive InfoValue : Type :=
| Undefined
| Single (r : YoutubeDLCLIResult)
| Many (l : list YoutubeDLCLIResult).

(** The parts of CONFIG, of the proxy helper and of the environment that
    the runner reads, and the two things it calls outside the repository:
    [execa (file, args, processOptions)], awaited, and [JSON.parse]. *)
Record Env : Type := {
  PYTHON_PATH : string;
  youtubeDLBinaryPath : string;
  YOUTUBE_DL_RELEASE_NAME : string;
  proxy : option string;          (* isProxyEnabled () / getProxy () *)
  FORCE_IPV4 : bool;
  FFMPEG_PATH : option string;    (* process.env.FFMPEG_PATH *)
  execa : string -> list string -> Awaited;
  JSON_parse : jsstring -> result YoutubeDLCLIResult
}.

Definition YoutubeDLCLIRetCode_OKAY : Z := 0.

(** Modelled from the spec: the member [H_1080P] of the enumeration
    [VideoResolution] of @shared/models, the fixed default (1080p) of
    section 4.1; a resolution is its height in pixels. *)
Definition H_1080P : Z := 1080.

(** *** getYoutubeDLVideoFormat *)

(** [Math.max (...enabledResolutions)] on a non-empty array, else 1080p. *)
Definition targetResolution (enabledResolutions : list Z) : Z :=
  match enabledResolutions with
  | [] => H_1080P
  | r :: rs => fold_left Z.max rs r
  end.

(** Cases #1 to #3 of the source. *)
Definition resolutionTiers (resolution : Z) : list string :=
  let r := numberToString resolution in
  [ ("bestvideo[vcodec^=avc1][height=" ++ r ++ "]+bestaudio[ext=m4a]")%string;
    ("bestvideo[vcodec!*=av01][vcodec!*=vp9.2][height=" ++ r
       ++ "]+bestaudio")%string;
    ("bestvideo[vcodec^=avc1][height<=" ++ r ++ "]+bestaudio[ext=m4a]")%string ].

Definition fallbackTiers : list string :=
  [ "bestvideo[vcodec!*=av01][vcodec!*=vp9.2]+bestaudio";
    "best[vcodec!*=av01][vcodec!*=vp9.2]";
    "bestvideo[ext=mp4]+bestaudio[ext=m4a]";
    "best" ].

(** The array that the source joins. *)
Definition formatTiers (enabledResolutions : list Z) (useBestFormat : bool)
  : list string :=
  let result :=
    if negb useBestFormat
    then resolutionTiers (targetResolution enabledResolutions)
    else [] in
  result ++ fallbackTiers.

Definition getYoutubeDLVideoFormat (enabledResolutions : list Z)
    (useBestFormat : bool) : string :=
  String.concat "/" (formatTiers enabledResolutions useBestFormat).

(** *** The merge of getListInfo *)

(** [a == b] on two possibly absent strings. *)
Definition looseEq (a b : option string) : bool :=
  match a, b with
  | Some x, Some y => (x =? y)%string
  | None, None => true
  | _, _ => false
  end.

(** [v > 0] on a possibly absent number. *)
Definition positive (v : option Z) : bool :=
  match v with
  | Some t => 0 <? t
  | None => false
  end.

Definition setTimestamp (item : YoutubeDLCLIResult) (v : option Z) :=
  {| webpage_url := webpage_url item; timestamp := v;
     release_timestamp := release_timestamp item; json := json item |}.

Definition setReleaseTimestamp (item : YoutubeDLCLIResult) (v : option Z) :=
  {| webpage_url := webpage_url item; timestamp := timestamp item;
     release_timestamp := v; json := json item |}.

(** [flatItem?.timestamp], [flatItem?.release_timestamp]. *)
Definition optTimestamp (flatItem : option YoutubeDLCLIResult) : option Z :=
  match flatItem with Some f => timestamp f | None => None end.

Definition optReleaseTimestamp (flatItem : option YoutubeDLCLIResult)
  : option Z :=
  match flatItem with Some f => release_timestamp f | None => None end.

(** The callback given to [list.map]. *)
Definition mergeItem (flatList : list YoutubeDLCLIResult)
    (item : YoutubeDLCLIResult) : YoutubeDLCLIResult :=
  let flatItem :=
    find (fun o => looseEq (webpage_url o) (webpage_url item)) flatList in
  let item :=
    if positive (optTimestamp flatItem)
    then setTimestamp item (optTimestamp flatItem) else item in
  let item :=
    if positive (optReleaseTimestamp flatItem)
    then setReleaseTimestamp item (optReleaseTimestamp flatItem)
    else item in
  item.

(** Lines 294 to 314: [flatList] and [list] are what the two [getInfo]
    calls resolved to, whatever their declared type. *)
Definition mergeLists (flatList list : InfoValue) : result InfoValue :=
  match flatList with
  | Undefined =>
      Throw (TypeError
               "Cannot read properties of undefined (reading 'length')")
  | Single _ => Return list               (* undefined > 0 is false *)
  | Many fl =>
      if (0 <? List.length fl)%nat then
        match list with
        | Many l => Return (Many (map (mergeItem fl) l))
        | Single _ => Throw (TypeError "list.map is not a function")
        | Undefined =>
            Throw (TypeError
                     "Cannot read properties of undefined (reading 'map')")
        end
      else Return list
  end.

(** [output.command], where [output] may be [undefined]. *)
Definition readCommand (output : option ExecaReturnValue) : result string :=
  match output with
  | Some o => Return (command o)
  | None =>
      Throw (TypeError
               "Cannot read properties of undefined (reading 'command')")
  end.

Section Runner.

Variable env : Env.

Definition wrapWithProxyOptions (args : list string) : list string :=
  match proxy env with
  | Some p => ["--proxy"; p] ++ args
  | None => args
  end.

Definition wrapWithIPOptions (args : list string) : list string :=
  if FORCE_IPV4 env then ["--force-ipv4"] ++ args else args.

Definition wrapWithFFmpegOptions (args : list string) : list string :=
  match FFMPEG_PATH env with
  | Some p => if (p =? "")%string then args
              else ["--ffmpeg-location"; p] ++ args
  | None => args
  end.

(** [YoutubeDLCLI.run].  The optional timeout only schedules a
    [subProcess.cancel ()]; its effect is a rejected promise, which is
    one of the outcomes of [execa]. *)
Definition run (url : string) (args : list string)
  : result (option (list jsstring)) :=
  let completeArgs := wrapWithProxyOptions args in
  let completeArgs := wrapWithIPOptions completeArgs in
  let completeArgs := wrapWithFFmpegOptions completeArgs in
  match execa env (PYTHON_PATH env)
              ([youtubeDLBinaryPath env] ++ completeArgs ++ [url]) with
  | Rejected e => Throw e
  | Fulfilled output =>
      (* logger.debug ('Run youtube-dl command.', { command: output.command }) *)
      match readCommand output with
      | Throw e => Throw e
      | Return _ =>
          match output with
          | None => Throw (YoutubeDLCLIExecError url)
          | Some output =>
              if negb (exitCode output =? YoutubeDLCLIRetCode_OKAY) then
                Throw (YoutubeDLCLIRetCodeError (exitCode output) url)
              else if (0 <? List.length (stderr output))%nat then
                Throw (YoutubeDLCLICrashError (stderr output) url)
              else
                Return (match stdout output with
                        | [] => None
                        | _ :: _ => Some (splitLines (trim (stdout output)))
                        end)
          end
      end
  end.

(** [data.map (d => JSON.parse (d))]: stops at the first line that does
    not parse. *)
Fixpoint parseLines (data : list jsstring)
  : result (list YoutubeDLCLIResult) :=
  match data with
  | [] => Return []
  | d :: data' =>
      match JSON_parse env d with
      | Throw e => Throw e
      | Return r =>
          match parseLines data' with
          | Throw e => Throw e
          | Return rs => Return (r :: rs)
          end
      end
  end.

Definition isYtDlp : bool :=
  (YOUTUBE_DL_RELEASE_NAME env =? "yt-dlp")%string.

Definition fieldsToInclude : list string :=
  [ "title"; "description"; "subtitles"; "webpage_url"; "live_status";
    "upload_date"; "thumbnail"; "language"; "age_limit"; "license";
    "categories"; "tags"; "ext" ].

Definition formatFields : list string :=
  [ "height"; "audio_channels"; "url"; "ext"; "vcodec"; "acodec" ].

(** The flags pushed for yt-dlp only. *)
Definition ytDlpInfoArgs : list string :=
  [ "--compat-options"; "no-live-chat";
    "--extractor-args"; "youtube:skip=dash,hls";
    "-S res,br,fps";
    "-O"; ("%(.{" ++ String.concat "," fieldsToInclude ++ "})j")%string;
    "-O"; ("%(requested_formats.:.{" ++ String.concat "," formatFields
             ++ "})j")%string ].

(** [completeArgs] of [getInfo]: the caller's flags, those pushed for
    yt-dlp, and the format. *)
Definition getInfoArgs (format : string)
    (additionalYoutubeDLArgs : list string) : list string :=
  let additionalYoutubeDLArgs :=
    if isYtDlp then additionalYoutubeDLArgs ++ ytDlpInfoArgs
    else additionalYoutubeDLArgs in
  additionalYoutubeDLArgs ++ [ "-f"; format ].

(** [YoutubeDLCLI.getInfo]; the two [logger.error] calls are not kept. *)
Definition getInfo (url format : string)
    (additionalYoutubeDLArgs : list string) : result InfoValue :=
  let completeArgs := getInfoArgs format additionalYoutubeDLArgs in
  match run url completeArgs with
  | Throw _ => Return Undefined
  | Return None => Return Undefined
  | Return (Some data) =>
      match parseLines data with
      | Throw e => Throw e
      | Return info =>
          Return (match info with
                  | [ r ] => Single r
                  | _ => Many info
                  end)
      end
  end.

(** [YoutubeDLCLI.getListInfo]. *)
Definition getListInfo (url : string) (latestVideosCount : option Z)
  : result InfoValue :=
  let additionalYoutubeDLArgs :=
    [ "--skip-download"; "--playlist-reverse" ]
    ++ match latestVideosCount with
       | Some n => [ "--playlist-end"; numberToString n ]
       | None => []
       end in
  let format := getYoutubeDLVideoFormat [] false in
  if isYtDlp then
    let additionalYoutubeDLArgs :=
      additionalYoutubeDLArgs
      ++ [ "--compat-options"; "no-youtube-unavailable-videos";
           "--match-filters";
           "!is_live & live_status != is_upcoming & live_status != post_live" ] in
    let flatYoutubeDLArgs :=
      additionalYoutubeDLArgs
      ++ [ "--flat-playlist";
           "--extractor-args"; "youtubetab:approximate-date" ]
      ++ [ "-O"; "%(.{webpage_url,timestamp,release_timestamp})j" ] in
    match getInfo url format flatYoutubeDLArgs with
    | Throw e => Throw e
    | Return flatList =>
        let additionalYoutubeDLArgs :=
          additionalYoutubeDLArgs
          ++ [ "-O"; "%(.{webpage_url,live_status})j" ] in
        match getInfo url format additionalYoutubeDLArgs with
        | Throw e => Throw e
        | Return list => mergeLists flatList list
        end
    end
  else
    match getInfo url format additionalYoutubeDLArgs with
    | Throw e => Throw e
    | Return list => mergeLists (Many []) list
    end.

End Runner.

End CLI.

(* ===================================================================== *)
(** ** youtube-dl-cli.ts: download, getSubs and the binary updater *)
(* ===================================================================== *)

Module CLIMethods.

(** [s.indexOf (needle) === 0] is read through [indexOf] itself. *)
Fixpoint startsWith (needle s : jsstring) : bool :=
  match needle, s with
  | [], _ => true
  | p :: needle', c :: s' => (p =? c)%N && startsWith needle' s'
  | _ :: _, [] => false
  end.

(** [hay.indexOf (needle)], counting from [i]; -1 when there is none. *)
Fixpoint indexOfFrom (i : Z) (needle hay : jsstring) : Z :=
  if startsWith needle hay then i
  else match hay with
       | [] => -1
       | _ :: rest => indexOfFrom (i + 1) needle rest
       end.

Definition indexOf (needle hay : jsstring) : Z := indexOfFrom 0 needle hay.

(** [line.slice (n)]. *)
Definition slice (n : nat) (line : jsstring) : jsstring := skipn n line.

Definition skipString : jsstring := str "[info] Writing video subtitles to: ".

(** The [for] loop of [getSubs]. *)
Fixpoint subtitleFiles (data : list jsstring) : list jsstring :=
  match data with
  | [] => []
  | line :: rest =>
      if indexOf skipString line =? 0
      then slice (List.length skipString) line :: subtitleFiles rest
      else subtitleFiles rest
  end.

Section Methods.

Variable env : CLI.Env.


(** [YoutubeDLCLI.getSubs]. *)
Definition getSubs (url format : string) : result (list jsstring) :=
  let args :=
    [ "--skip-download"; "--all-subs"; ("--sub-format=" ++ format)%string ] in
  match CLI.run env url args with
  | Throw e => Throw e
  | Return None =>
      Throw (TypeError
               "Cannot read properties of undefined (reading 'length')")
  | Return (Some data) => Return (subtitleFiles data)
  end.

End Methods.

End CLIMethods.

Module Updater.

(** A response of [peertubeGot]: whether [isBinaryResponse] holds of it,
    and its body. *)
Record GotResponse : Type := {
  binary : bool;
  body : list N
}.

(** The release feed, once parsed. *)
Record Asset : Type := {
  asset_name : string;
  browser_download_url : string
}.

Record Release : Type := {
  prerelease : option bool;
  assets : list Asset
}.

(** The runner's configuration, the release URL, and what the updater
    calls: the HTTP client, [JSON.parse] on the feed, and fs-extra. *)
Record Env : Type := {
  cli : CLI.Env;
  YOUTUBE_DL_RELEASE_URL : string;
  peertubeGot : string -> result GotResponse;
  parseReleases : list N -> result (list Release);
  writeFile : string -> list N -> result unit;
  pathExists : string -> result bool;
  ensureDir : string -> result unit;
  dirname : string -> string
}.

(** What the updater does to the outside, in order. *)
Inductive Effect : Type :=
| Requested (url : string)
| Written (path : string) (content : list N)
| EnsuredDir (path : string)
| LoggedInfo (msg : string)
| LoggedError (err : Error).

Definition U (A : Type) : Type := list Effect -> result A * list Effect.

Definition ret {A} (a : A) : U A := fun es => (Return a, es).

Definition bind {A B} (m : U A) (f : A -> U B) : U B :=
  fun es =>
    match m es with
    | (Return a, es') => f a es'
    | (Throw e, es') => (Throw e, es')
    end.

Definition throw {A} (e : Error) : U A := fun es => (Throw e, es).

Definition tryCatch {A} (m : U A) (h : Error -> U A) : U A :=
  fun es =>
    match m es with
    | (Throw e, es') => h e es'
    | r => r
    end.

Definition emit (e : Effect) : U unit := fun es => (Return tt, es ++ [e]).

Declare Scope updater_scope.
Delimit Scope updater_scope with updater.
Notation "x <- m ;; k" := (bind m (fun x => k))
  (at level 61, m at next level, right associativity) : updater_scope.
Notation "m ;;; k" := (bind m (fun _ => k))
  (at level 61, right associativity) : updater_scope.

Local Open Scope updater_scope.

Section Update.

Variable env : Env.

(** [await peertubeGot (url, gotOptions)]. *)
Definition got (url : string) : U GotResponse :=
  fun es => (peertubeGot env url, es ++ [Requested url]).

(** [await writeFile (path, body)]. *)
Definition write (path : string) (content : list N) : U unit :=
  fun es =>
    match writeFile env path content with
    | Return _ => (Return tt, es ++ [Written path content])
    | Throw e => (Throw e, es)
    end.

(** The asset to fetch when the feed answered with JSON. *)
Definition releaseAsset (gotResult : GotResponse) : U Asset :=
  fun es =>
    match parseReleases env (body gotResult) with
    | Throw e => (Throw e, es)
    | Return json =>
        match find (fun release =>
                      match prerelease release with
                      | Some false => true
                      | _ => false
                      end) json with
        | None => (Throw (OtherError "Cannot find latest release"), es)
        | Some latest =>
            let releaseName := CLI.YOUTUBE_DL_RELEASE_NAME (cli env) in
            match find (fun a => (asset_name a =? releaseName)%string)
                       (assets latest) with
            | None =>
                (Throw (OtherError
                          ("Cannot find appropriate release with name "
                             ++ releaseName ++ " in release assets")%string),
                 es)
            | Some asset => (Return asset, es)
            end
        end
    end.

(** The body of the [try] block of [updateYoutubeDLBinary]. *)
Definition tryUpdate : U unit :=
  gotResult <- got (YOUTUBE_DL_RELEASE_URL env) ;;
  gotResult <-
    (if negb (binary gotResult) then
       asset <- releaseAsset gotResult ;;
       got (browser_download_url asset)
     else ret gotResult) ;;
  if negb (binary gotResult) then throw (OtherError "Not a binary response")
  else
    write (CLI.youtubeDLBinaryPath (cli env)) (body gotResult) ;;;
    emit (LoggedInfo "youtube-dl updated").

(** [YoutubeDLCLI.updateYoutubeDLBinary]. *)
Definition updateYoutubeDLBinary : U unit :=
  emit (LoggedInfo "Updating youtubeDL binary") ;;;
  tryCatch tryUpdate (fun err => emit (LoggedError err)).

(** [YoutubeDLCLI.safeGet], up to the [new YoutubeDLCLI ()] it returns. *)
Definition safeGet : U unit :=
  let youtubeDLBinaryPath := CLI.youtubeDLBinaryPath (cli env) in
  found <- (fun es => (pathExists env youtubeDLBinaryPath, es)) ;;
  if negb found then
    (fun es =>
       match ensureDir env (dirname env youtubeDLBinaryPath) with
       | Return _ =>
           (Return tt, es ++ [EnsuredDir (dirname env youtubeDLBinaryPath)])
       | Throw e => (Throw e, es)
       end) ;;;
    updateYoutubeDLBinary
  else ret tt.

End Update.

End Updater.

(* ===================================================================== *)
(** ** youtube-dl-info-builder.ts *)
(* ===================================================================== *)

Module InfoBuilder.

(** An element of [formats], [thumbnails] or of a subtitle track. *)
Record WithUrl : Type := { item_url : option jsstring }.

(** [urls?: string[] | string]. *)
Inductive Urls : Type :=
| urlsArray (l : list jsstring)
| urlsString (s : jsstring).

(** The normalised youtube-dl record, as [buildVideoInfo] reads it.  A
    property that is not an array where the code tests [Array.isArray] is
    [None]; a subtitle track that is not an array is [None] too. *)
Record YoutubeDLCLIResult : Type := {
  title : option jsstring;
  description : option jsstring;
  categories : option (list jsstring);
  license : option jsstring;
  language : option jsstring;
  age_limit : option Z;
  tags : option (list jsstring);
  thumbnail : option jsstring;
  url : option jsstring;
  urls : option Urls;
  formats : option (list WithUrl);
  thumbnails : option (list WithUrl);
  subtitles : option (list (jsstring * option (list WithUrl)));
  upload_date : option jsstring;
  ext : option jsstring;
  webpage_url : option string
}.

(** [YoutubeDLInfo], as the builder fills it. *)
Record YoutubeDLInfo : Type := {
  name : jsstring;
  info_description : option jsstring;
  category : option Z;
  licence : option Z;
  info_language : option jsstring;
  nsfw : bool;
  info_tags : list jsstring;
  thumbnailUrl : option jsstring;
  info_urls : list jsstring;
  info_formats : list WithUrl;
  originallyPublishedAtWithoutTime : option Z;
  info_ext : option jsstring;
  webpageUrl : option string
}.

(** CONSTRAINTS_FIELDS and the three tables of the constants (each table in
    the order of [Object.keys]), and the helpers from outside the file:
    [normalizeObject] of the base builder, [peertubeTruncate] with its
    length, [isUrlValid], [String.prototype.normalize] and [toLowerCase],
    and a date set to local midnight of a year, month index and day. *)
Record Env : Type := {
  NAME_min : Z;
  NAME_max : Z;
  DESCRIPTION_min : Z;
  DESCRIPTION_max : Z;
  TAG_min : Z;
  TAG_max : Z;
  VIDEO_LICENCES : list (Z * jsstring);
  VIDEO_CATEGORIES : list (Z * jsstring);
  VIDEO_LANGUAGES : jsstring -> bool;
  normalizeObject : YoutubeDLCLIResult -> YoutubeDLCLIResult;
  peertubeTruncate : option jsstring -> Z -> jsstring;
  isUrlValid : jsstring -> bool;
  normalize : jsstring -> jsstring;
  toLowerCase : jsstring -> jsstring;
  localMidnight : Z -> Z -> Z -> Z
}.

(** [a === b] on strings. *)
Fixpoint jsEqb (a b : jsstring) : bool :=
  match a, b with
  | [], [] => true
  | x :: a', y :: b' => (x =? y)%N && jsEqb a' b'
  | _, _ => false
  end.

(** [hay.includes (needle)]. *)
Fixpoint includes (needle hay : jsstring) : bool :=
  CLIMethods.startsWith needle hay
  || match hay with
     | _ :: rest => includes needle rest
     | [] => false
     end.

(** [s.length]. *)
Definition len (s : jsstring) : Z := Z.of_nat (List.length s).

(** [!s] on a possibly absent string. *)
Definition falsy (s : option jsstring) : bool :=
  match s with
  | Some (_ :: _) => false
  | _ => true
  end.

Definition isDigit (c : N) : bool := ((48 <=? c) && (c <=? 57))%N.

(** [parseInt (s, 10)] on a string of digits. *)
Definition parseInt10 (s : jsstring) : Z :=
  fold_left (fun acc c => 10 * acc + (Z.of_N c - 48)) s 0.

(** The three groups of [/^(\d{4})(\d{2})(\d{2})$/.exec (upload_date)]. *)
Definition uploadDateMatcher (upload_date : option jsstring)
  : option (jsstring * jsstring * jsstring) :=
  match upload_date with
  | Some [ y1; y2; y3; y4; m1; m2; d1; d2 ] =>
      if forallb isDigit [ y1; y2; y3; y4; m1; m2; d1; d2 ]
      then Some ([ y1; y2; y3; y4 ], [ m1; m2 ], [ d1; d2 ])
      else None
  | _ => None
  end.

(** Items whose [url] is truthy, as the loops push them. *)
Definition truthyUrls (items : list WithUrl) : list jsstring :=
  flat_map (fun item =>
              match item_url item with
              | Some (c :: u) => [ c :: u ]
              | _ => []
              end) items.

Section Builder.

Variable env : Env.

Definition buildOriginallyPublishedAt (obj : YoutubeDLCLIResult) : option Z :=
  match uploadDateMatcher (upload_date obj) with
  | Some (y, m, d) =>
      let year := parseInt10 y in
      (* Month starts from 0 *)
      let month := parseInt10 m - 1 in
      let day := parseInt10 d in
      Some (localMidnight env year month day)
  | None => None
  end.

Definition buildAvailableUrl (obj : YoutubeDLCLIResult) : list jsstring :=
  let urls0 :=
    match url obj with
    | Some (c :: u) => [ c :: u ]
    | _ => []
    end in
  let urls1 :=
    match urls obj with
    | Some (urlsArray l) => urls0 ++ l
    | Some (urlsString (c :: u)) => urls0 ++ [ c :: u ]
    | _ => urls0
    end in
  let urls2 :=
    urls1 ++ truthyUrls (match formats obj with Some l => l | None => [] end) in
  let urls3 :=
    urls2
    ++ truthyUrls (match thumbnails obj with Some l => l | None => [] end) in
  let urls4 :=
    match thumbnail obj with
    | Some (c :: u) => urls3 ++ [ c :: u ]
    | _ => urls3
    end in
  let urls5 :=
    urls4
    ++ flat_map (fun track =>
                   match snd track with
                   | Some subs => truthyUrls subs
                   | None => []
                   end)
                (match subtitles obj with Some l => l | None => [] end) in
  filter (fun u => negb (falsy (Some u)) && isUrlValid env u) urls5.

Definition titleTruncation (title : option jsstring) : jsstring :=
  peertubeTruncate env title (NAME_max env).

Definition descriptionTruncation (description : option jsstring)
  : option jsstring :=
  match description with
  | Some (c :: d) =>
      if len (c :: d) <? DESCRIPTION_min env then None
      else Some (peertubeTruncate env description (DESCRIPTION_max env))
  | _ => None
  end.

Definition isNSFW (info : YoutubeDLCLIResult) : bool :=
  match age_limit info with
  | Some a => 16 <=? a
  | None => false
  end.

Definition getTags (tags : option (list jsstring)) : list jsstring :=
  match tags with
  | None => []
  | Some tags =>
      firstn 5
        (map (normalize env)
           (filter (fun t => (len t <? TAG_max env) && (TAG_min env <? len t))
                   tags))
  end.

(** The [for] loop over the keys of a table of names. *)
Definition lookupName (table : list (Z * jsstring)) (wanted : jsstring)
  : option Z :=
  option_map fst
    (find (fun entry =>
             jsEqb (toLowerCase env (snd entry)) (toLowerCase env wanted))
          table).

Definition getLicence (licence : option jsstring) : option Z :=
  match licence with
  | Some (c :: l) =>
      if includes (str "Creative Commons Attribution") (c :: l) then Some 1
      else lookupName (VIDEO_LICENCES env) (c :: l)
  | _ => None
  end.

Definition getCategory (categories : option (list jsstring)) : option Z :=
  match categories with
  | Some ((c :: s) :: _) =>
      let categoryString := c :: s in
      if jsEqb categoryString (str "News & Politics") then Some 11
      else lookupName (VIDEO_CATEGORIES env) categoryString
  | _ => None
  end.

Definition getLanguage (language : option jsstring) : option jsstring :=
  match language with
  | Some l => if VIDEO_LANGUAGES env l then Some l else None
  | None => None        (* [language] itself or [undefined]: the same *)
  end.

Definition buildVideoInfo (obj : YoutubeDLCLIResult) : YoutubeDLInfo :=
  {| name := titleTruncation (title obj);
     info_description := descriptionTruncation (description obj);
     category := getCategory (categories obj);
     licence := getLicence (license obj);
     info_language := getLanguage (language obj);
     nsfw := isNSFW obj;
     info_tags := getTags (tags obj);
     thumbnailUrl :=
       match thumbnail obj with
       | Some (c :: u) => Some (c :: u)
       | _ => None
       end;
     info_urls := buildAvailableUrl obj;
     info_formats := match formats obj with Some l => l | None => [] end;
     originallyPublishedAtWithoutTime := buildOriginallyPublishedAt obj;
     info_ext := ext obj;
     webpageUrl := webpage_url obj |}.

(** [YoutubeDLInfoBuilder.getInfo], on the record given to the
    constructor. *)
Definition getInfo (info : YoutubeDLCLIResult) : YoutubeDLInfo :=
  let obj := buildVideoInfo (normalizeObject env info) in
  match name obj with
  | _ :: _ =>
      if len (name obj) <? NAME_min env then
        {| name := name obj ++ str " video";
           info_description := info_description obj;
           category := category obj;
           licence := licence obj;
           info_language := info_language obj;
           nsfw := nsfw obj;
           info_tags := info_tags obj;
           thumbnailUrl := thumbnailUrl obj;
           info_urls := info_urls obj;
           info_formats := info_formats obj;
           originallyPublishedAtWithoutTime :=
             originallyPublishedAtWithoutTime obj;
           info_ext := info_ext obj;
           webpageUrl := webpageUrl obj |}
      else obj
  | [] => obj
  end.

End Builder.

End InfoBuilder.

(* ===================================================================== *)
(** ** youtube-dl-wrapper.ts *)
(* ===================================================================== *)

Module Wrapper.

(** An item of what the list builder returns, with the properties that
    [filterUnavailable] and [getInfoForListImport] read. *)
Record YoutubeDLInfo : Type := {
  webpageUrl : string;
  release_timestamp : option Z
}.

(** The environment of the updater, which holds the runner's; the clock;
    the environment of the information builder, and the properties that
    the builder reads of the object given to its constructor ([{ ...info }],
    whatever [getInfo] returned); and the list builder, which is outside
    the modelled files. *)
Record Env : Type := {
  updater : Updater.Env;
  Date_now : Z;
  builder : InfoBuilder.Env;
  properties : CLI.InfoValue -> InfoBuilder.YoutubeDLCLIResult;
  listBuilder_getList : list CLI.YoutubeDLCLIResult -> list YoutubeDLInfo;
  (** [inspect] of node:util, on what [getListInfo] returned. *)
  inspect : CLI.InfoValue -> string
}.

(** The runner's environment. *)
Definition cli (env : Env) : CLI.Env := Updater.cli (updater env).

(** The outcome of [await YoutubeDLCLI.safeGet ()]; what it does to the
    disk and the network is left to [Updater.safeGet]. *)
Definition safeGet (env : Env) : result unit :=
  fst (Updater.safeGet (updater env) []).

(** [serializedInfo.isLive]: [buildVideoInfo] builds its object without such
    a property and [getInfo] adds none, so the read gives [undefined]. *)
Definition isLive (serializedInfo : InfoBuilder.YoutubeDLInfo)
  : option bool := None.

(** A possibly absent URL inside a template literal. *)
Definition urlText (u : option string) : string :=
  match u with
  | Some u => u
  | None => "undefined"
  end.

(** The constructor's three private fields. *)
Record YoutubeDLWrapper : Type := {
  url : string;
  enabledResolutions : list Z;
  useBestFormat : bool
}.

Section Methods.

Variable env : Env.

(** [getInfoForDownload]. *)
Definition getInfoForDownload (this : YoutubeDLWrapper)
    (youtubeDLArgs : list string) : result InfoBuilder.YoutubeDLInfo :=
  match safeGet env with
  | Throw e => Throw e
  | Return _ =>
      match CLI.getInfo (cli env) (url this)
              (CLI.getYoutubeDLVideoFormat (enabledResolutions this)
                 (useBestFormat this))
              youtubeDLArgs with
      | Throw e => Throw e
      | Return CLI.Undefined => Throw (YoutubeDLNoInfoError (url this))
      | Return info =>
          let serializedInfo :=
            InfoBuilder.getInfo (builder env) (properties env info) in
          match isLive serializedInfo with
          | Some true =>
              Throw (YoutubeDLIsLiveError
                       (urlText (InfoBuilder.webpageUrl serializedInfo)))
          | _ =>
              if (List.length (InfoBuilder.info_formats serializedInfo)
                  =? 0)%nat then
                Throw (YoutubeDLNoFormatsError
                         (urlText (InfoBuilder.webpageUrl serializedInfo)))
              else Return serializedInfo
          end
      end
  end.

(** [filterUnavailable]: drops what has not premiered yet. *)
Definition filterUnavailable (lst : list YoutubeDLInfo)
  : list YoutubeDLInfo :=
  let now := Date_now env / 1000 in
  filter (fun item =>
            let toBePremiered :=
              match release_timestamp item with
              | Some t => now <? t
              | None => false
              end in
            if toBePremiered then false else true)
         lst.

(** [getInfoForListImport], in the revision that returns URLs. *)
Definition getInfoForListImport (this : YoutubeDLWrapper)
    (latestVideosCount : option Z) : result (list string) :=
  match safeGet env with
  | Throw e => Throw e
  | Return _ =>
      match CLI.getListInfo (cli env) (url this) latestVideosCount with
      | Throw e => Throw e
      | Return CLI.Undefined =>
          Throw (TypeError
                   "Cannot read properties of undefined (reading 'length')")
      | Return (CLI.Single r) =>
          Throw (OtherError
                   ("YoutubeDL could not get list info from " ++ url this
                    ++ ": " ++ inspect env (CLI.Single r)))
      | Return (CLI.Many lst) =>
          if (List.length lst =? 0)%nat then
            Throw (OtherError
                     ("YoutubeDL could not get info from " ++ url this))
          else
            let serializedList := listBuilder_getList env lst in
            let filteredList := filterUnavailable serializedList in
            Return (map webpageUrl filteredList)
      end
  end.

End Methods.

End Wrapper.

(* ===================================================================== *)
(** ** Double-precision arithmetic *)
(* ===================================================================== *)

(** The numbers of JavaScript are binary64 floating-point numbers: a sum or
    a product is the exact result rounded to the nearest number with a
    53-bit significand, ties going to the even significand, the exponent
    of the last bit being at least -1074.  A finite double is the rational
    it denotes, and the operations are written out on rationals.  A result
    of magnitude 2^1024 or more, which binary64 gives as an infinity, is
    here its rounding with the exponent left unbounded above. *)
Module Binary64.
Local Open Scope Q_scope.

Definition pow2 (k : Z) : Q := 2 ^ k.

(** The binary exponent of a positive number: the integer part of its
    logarithm to base 2. *)
Definition binaryExponent (a : Q) : Z :=
  let k := (Z.log2 (Qnum a) - Z.log2 (Z.pos (Qden a)))%Z in
  if Qle_bool (pow2 k) a then k else (k - 1)%Z.

(** The exponent of the unit in the last place: 52 below the binary
    exponent, and never below that of the subnormal numbers. *)
Definition exponent (x : Q) : Z :=
  Z.max (-1074) (binaryExponent (Qabs x) - 52).

(** The nearest integer, a tie going to the even one. *)
Definition roundHalfEven (m : Q) : Z :=
  let f := Qfloor m in
  match Qcompare (m - inject_Z f) (1 # 2) with
  | Lt => f
  | Gt => (f + 1)%Z
  | Eq => if Z.even f then f else (f + 1)%Z
  end.

(** The double nearest to [x]. *)
Definition round (x : Q) : Q :=
  let e := exponent x in
  Qred (inject_Z (roundHalfEven (x / pow2 e)) * pow2 e).

(** [x + y] and [x * y] on doubles. *)
Definition add (x y : Q) : Q := round (x + y).
Definition mul (x y : Q) : Q := round (x * y).

(** The rational a finite double of the machine denotes, and the double
    of an integer: the bridge to the primitive floats of the proof
    assistant, which are the doubles of the processor. *)
Definition ofFloat (f : PrimFloat.float) : option Q :=
  match FloatOps.Prim2SF f with
  | SpecFloat.S754_zero _ => Some 0
  | SpecFloat.S754_finite s m e =>
      Some ((if s then -1 else 1) * inject_Z (Z.pos m) * pow2 e)
  | _ => None
  end.

Definition toFloat (z : Z) : PrimFloat.float :=
  match z with
  | Z0 => PrimFloat.zero
  | Zpos p => FloatOps.SF2Prim (SpecFloat.S754_finite false p 0)
  | Zneg p => FloatOps.SF2Prim (SpecFloat.S754_finite true p 0)
  end.

End Binary64.

(* ===================================================================== *)
(** ** The default transcoding profile *)
(* ===================================================================== *)

Module Transcode.

(** A stream of the ffprobe output, with the two properties tested. *)
Record AudioStream : Type := {
  audio_codec_name : option string;
  channel_layout : option string
}.

Record VideoStream : Type := {
  codec_name : option string;
  pix_fmt : option string
}.

(** What [getAudioStream] resolves to. *)
Record ParsedAudio : Type := {
  audioStream : option AudioStream;
  bitrate : option Q
}.

(** [!n] on a possibly absent number: [undefined], [NaN] and 0 are falsy. *)
Definition falsyNumber (n : option Q) : bool :=
  match n with
  | Some q => Qeq_bool q 0
  | None => true
  end.

(** [!s] on a possibly absent string. *)
Definition falsyString (s : option string) : bool :=
  match s with
  | Some x => (x =? "")%string
  | None => true
  end.

(** [s !== lit]. *)
Definition differs (s : option string) (lit : string) : bool :=
  match s with
  | Some x => negb (x =? lit)%string
  | None => true
  end.

Definition Qgtb (a b : Q) : bool := negb (Qle_bool a b).
Definition Qltb (a b : Q) : bool := negb (Qle_bool b a).

(** [Math.max] and [Math.min] on two numbers. *)
Definition Math_max (a b : Q) : Q := Qmax a b.
Definition Math_min (a b : Q) : Q := Qmin a b.

Section Probe.

(** The ffprobe helpers of @peertube/peertube-ffmpeg and the bitrate
    tables of @peertube/peertube-core-utils, on a path and an optional
    probe. *)
Variable FfprobeData : Type.
Variable ResolutionData : Type.
Variable getAudioStream : string -> option FfprobeData -> ParsedAudio.
Variable getMaxAudioBitrate : string -> Q -> Q.
Variable getVideoStream : string -> option FfprobeData -> option VideoStream.
Variable getVideoStreamFPS : string -> option FfprobeData -> Q.
Variable getVideoStreamBitrate : string -> option FfprobeData -> option Q.
Variable getVideoStreamDimensionsInfo :
  string -> option FfprobeData -> ResolutionData.
Variable getMaxTheoreticalBitrate : ResolutionData -> Q -> Q.

Definition canDoQuickAudioTranscode (path : string)
    (probe : option FfprobeData) : bool :=
  let parsedAudio := getAudioStream path probe in
  match audioStream parsedAudio with
  | None => true
  | Some stream =>
      if differs (audio_codec_name stream) "aac" then false
      else
        let audioBitrate := bitrate parsedAudio in
        match audioBitrate with
        | None => false
        | Some audioBitrate =>
            if Qeq_bool audioBitrate 0 then false
            else
              let maxAudioBitrate :=
                getMaxAudioBitrate "aac" audioBitrate in
              if negb (Qeq_bool maxAudioBitrate (-1))
                 && Qgtb audioBitrate maxAudioBitrate
              then false
              else
                let channelLayout := channel_layout stream in
                if falsyString channelLayout
                   || negb (differs channelLayout "unknown")
                   || negb (differs channelLayout "quad")
                then false
                else true
        end
  end.

Definition canDoQuickVideoTranscode (path : string)
    (probe : option FfprobeData) : bool :=
  let videoStream := getVideoStream path probe in
  let fps := getVideoStreamFPS path probe in
  let bitRate := getVideoStreamBitrate path probe in
  let resolutionData := getVideoStreamDimensionsInfo path probe in
  match bitRate with
  | None => false
  | Some bitRate =>
      if Qeq_bool bitRate 0 then false
      else
        match videoStream with
        | None => false
        | Some videoStream =>
            if differs (codec_name videoStream) "h264" then false
            else if differs (pix_fmt videoStream) "yuv420p" then false
            else if Qltb fps 2 || Qgtb fps 65 then false
            else if Qgtb bitRate
                      (getMaxTheoreticalBitrate resolutionData fps)
            then false
            else true
        end
  end.

(** What the audio verdict asks of a stream that is present: the aac
    codec, a non-zero bitrate within the AAC maximum (-1 standing for no
    maximum), and a usable channel layout. *)
Definition audioAcceptable (parsed : ParsedAudio) (stream : AudioStream)
  : Prop :=
  audio_codec_name stream = Some "aac"
  /\ (exists b,
        bitrate parsed = Some b /\ ~ (b == 0)%Q
        /\ ((getMaxAudioBitrate "aac" b == -1)%Q
            \/ (b <= getMaxAudioBitrate "aac" b)%Q))
  /\ (exists layout,
        channel_layout stream = Some layout
        /\ layout <> "" /\ layout <> "unknown" /\ layout <> "quad").

(** What the video verdict asks of the probe: a non-zero bitrate within
    the maximum theoretical one, an h264 stream in yuv420p, and a frame
    rate from 2 to 65. *)
Definition videoAcceptable (path : string) (probe : option FfprobeData)
  : Prop :=
  (exists b,
     getVideoStreamBitrate path probe = Some b /\ ~ (b == 0)%Q
     /\ (b <= getMaxTheoreticalBitrate
                (getVideoStreamDimensionsInfo path probe)
                (getVideoStreamFPS path probe))%Q)
  /\ (exists stream,
        getVideoStream path probe = Some stream
        /\ codec_name stream = Some "h264"
        /\ pix_fmt stream = Some "yuv420p")
  /\ (2 <= getVideoStreamFPS path probe)%Q
  /\ (getVideoStreamFPS path probe <= 65)%Q.

End Probe.

Section TargetBitrate.

(** [getAverageTheoreticalBitrate] and [getMinTheoreticalBitrate], on
    resolution, fps and ratio. *)
Variable getAverageTheoreticalBitrate : Q -> Q -> Q -> Q.
Variable getMinTheoreticalBitrate : Q -> Q -> Q -> Q.

(** [inputBitrate + (inputBitrate * 0.3)], the literal being the double
    nearest to 3/10.  Where JavaScript's sum is an infinity, for an input
    beyond 1.38e308 in magnitude, the value here is 2^1024 or more in
    magnitude, and [Math.min] and [Math.max] against a finite double choose
    as they do against the infinity. *)
Definition inputBitrateWithMargin (inputBitrate : Q) : Q :=
  Binary64.add inputBitrate
    (Binary64.mul inputBitrate (Binary64.round (3 # 10))).

Definition capBitrate (inputBitrate : option Q) (targetBitrate : Q) : Q :=
  match inputBitrate with
  | None => targetBitrate
  | Some inputBitrate =>
      if Qeq_bool inputBitrate 0 then targetBitrate
      else
        (* Add 30% margin to input bitrate *)
        Math_min targetBitrate (inputBitrateWithMargin inputBitrate)
  end.

Definition getTargetBitrate (inputBitrate : option Q)
    (resolution ratio fps : Q) : Q :=
  let capped :=
    capBitrate inputBitrate
      (getAverageTheoreticalBitrate resolution fps ratio) in
  let limit := getMinTheoreticalBitrate resolution fps ratio in
  Math_max limit capped.

End TargetBitrate.

(** The sum [inputBitrate + (inputBitrate * 0.3)] on the doubles of the
    machine, for an integer input; 0.3 is had as 3 / 10, a division being
    rounded to the nearest double as a literal is. *)
Definition machineMargin (inputBitrate : Z) : option Q :=
  let f := Binary64.toFloat inputBitrate in
  let c := PrimFloat.div (Binary64.toFloat 3) (Binary64.toFloat 10) in
  Binary64.ofFloat (PrimFloat.add f (PrimFloat.mul f c)).

End Transcode.

(* ===================================================================== *)
(** ** Channel synchronisation: shared state and effects *)
(* ===================================================================== *)

Module Sync.

(** Modelled from the spec: the enumeration [VideoChannelSyncState] of
    @shared/models, which section 3 gives as PENDING, PROCESSING, SYNCED
    and FAILED. *)
Inductive VideoChannelSyncState : Type :=
| PENDING
| PROCESSING
| SYNCED
| FAILED.

(** [VideoPrivacy] of @shared/models: the code names its member PUBLIC
    only, the others are told apart by their number. *)
Inductive VideoPrivacy : Type :=
| PUBLIC
| notPublic (code : Z).

(** The session object ([MChannelSync]). *)
Record MChannelSync : Type := {
  id : Z;
  state : VideoChannelSyncState;
  lastSyncAt : option Z
}.

Record MChannel : Type := {
  channel_id : Z;
  actorId : Z;
  name : string;
  preferredUsername : string
}.

Record MUser : Type := { user_id : Z }.

Record ImportDataOverride : Type := {
  privacy : VideoPrivacy;
  originallyPublishedAt : option Z
}.

(** The argument of [buildYoutubeDLImport]. *)
Record ImportOptions : Type := {
  user : MUser;
  channel : MChannel;
  targetUrl : string;
  channelSync : option MChannelSync;
  importDataOverride : ImportDataOverride
}.

(** [CreateJobArgument]: a child import job, as [buildYoutubeDLImport]
    made it, or the parent that finalises the synchronisation. *)
Inductive CreateJobArgument : Type :=
| video_import (payload : ImportOptions)
| after_video_channel_import (channelSyncId : option Z).

Inductive LogLevel : Type := debug | info | warning | error.

(** What a run leaves behind, in order. *)
Inductive Event : Type :=
| Saved (s : MChannelSync)
| Submitted (parent : CreateJobArgument) (children : list CreateJobArgument)
| Logged (level : LogLevel) (msg : string).

(** The session object as it is in memory ([None]: no session was
    supplied), and the trace of effects. *)
Record World : Type := {
  session : option MChannelSync;
  events : list Event
}.

(** State and exceptions: an effect that throws keeps the changes made
    before it. *)
Definition M (A : Type) : Type := World -> result A * World.

Definition ret {A} (a : A) : M A := fun w => (Return a, w).

Definition bind {A B} (m : M A) (f : A -> M B) : M B :=
  fun w =>
    match m w with
    | (Return a, w') => f a w'
    | (Throw e, w') => (Throw e, w')
    end.

Definition throw {A} (e : Error) : M A := fun w => (Throw e, w).

Definition lift {A} (r : result A) : M A := fun w => (r, w).

(** [try { m } catch (err) { h err }]. *)
Definition tryCatch {A} (m : M A) (h : Error -> M A) : M A :=
  fun w =>
    match m w with
    | (Throw e, w') => h e w'
    | r => r
    end.

Declare Scope sync_scope.
Delimit Scope sync_scope with sync.
Notation "x <- m ;; k" := (bind m (fun x => k))
  (at level 61, m at next level, right associativity) : sync_scope.
Notation "m ;;; k" := (bind m (fun _ => k))
  (at level 61, right associativity) : sync_scope.

Definition emit (e : Event) : M unit :=
  fun w => (Return tt, {| session := session w; events := events w ++ [e] |}).

Definition log (level : LogLevel) (msg : string) : M unit :=
  emit (Logged level msg).

(** Reads the variable [channelSync]. *)
Definition getSession : M (option MChannelSync) :=
  fun w => (Return (session w), w).

(** [channelSync.state = st]. *)
Definition setState (st : VideoChannelSyncState) : M unit :=
  fun w =>
    match session w with
    | Some s =>
        (Return tt,
         {| session := Some {| id := id s; state := st;
                               lastSyncAt := lastSyncAt s |};
            events := events w |})
    | None =>
        (Throw (TypeError
                  "Cannot set properties of undefined (setting 'state')"),
         w)
    end.

(** [channelSync.lastSyncAt = new Date ()]. *)
Definition setLastSyncAt (date : Z) : M unit :=
  fun w =>
    match session w with
    | Some s =>
        (Return tt,
         {| session := Some {| id := id s; state := state s;
                               lastSyncAt := Some date |};
            events := events w |})
    | None =>
        (Throw (TypeError
                  "Cannot set properties of undefined (setting 'lastSyncAt')"),
         w)
    end.

Section Store.

(** Whether the store accepts a [save] of the session. *)
Variable save : MChannelSync -> result unit.

(** Whether the queue accepts the job graph. *)
Variable createJobWithChildren_result :
  CreateJobArgument -> list CreateJobArgument -> result unit.

(** [await channelSync.save ()]. *)
Definition saveSession : M unit :=
  fun w =>
    match session w with
    | Some s =>
        match save s with
        | Return _ =>
            (Return tt,
             {| session := session w; events := events w ++ [Saved s] |})
        | Throw e => (Throw e, w)
        end
    | None =>
        (Throw (TypeError
                  "Cannot read properties of undefined (reading 'save')"),
         w)
    end.

(** [await JobQueue.Instance.createJobWithChildren (parent, children)]. *)
Definition createJobWithChildren (parent : CreateJobArgument)
    (children : list CreateJobArgument) : M unit :=
  fun w =>
    match createJobWithChildren_result parent children with
    | Return _ =>
        (Return tt,
         {| session := session w;
            events := events w ++ [Submitted parent children] |})
    | Throw e => (Throw e, w)
    end.

End Store.

(** The events of a trace that are job submissions. *)
Definition submissions (evs : list Event)
  : list (CreateJobArgument * list CreateJobArgument) :=
  flat_map (fun e => match e with
                     | Submitted p c => [(p, c)]
                     | _ => []
                     end) evs.

(** The persisted snapshots of the session, oldest first. *)
Definition saves (evs : list Event) : list MChannelSync :=
  flat_map (fun e => match e with
                     | Saved s => [s]
                     | _ => []
                     end) evs.

(** The session object with its state overwritten. *)
Definition withState (s : MChannelSync) (st : VideoChannelSyncState)
  : MChannelSync :=
  {| id := id s; state := st; lastSyncAt := lastSyncAt s |}.

(** Whether a session is there, and which. *)
Definition sessionId (w : World) : option Z := option_map id (session w).

(** A computation that leaves the session object, the store and the
    queue alone: all it may do is log. *)
Definition quiet {A} (m : M A) : Prop :=
  forall w,
    session (snd (m w)) = session w
    /\ saves (events (snd (m w))) = saves (events w)
    /\ submissions (events (snd (m w))) = submissions (events w).

(** A run on a session [s] that went from PROCESSING straight to SYNCED:
    it returns, both snapshots are saved, stamped with [date], and nothing
    is handed to the queue. *)
Definition syncedDirectly (date : Z) (run : M unit) (w : World)
    (s : MChannelSync) : Prop :=
  fst (run w) = Return tt
  /\ session (snd (run w))
     = Some {| id := id s; state := SYNCED; lastSyncAt := Some date |}
  /\ saves (events (snd (run w)))
     = saves (events w)
       ++ [ {| id := id s; state := PROCESSING; lastSyncAt := Some date |};
            {| id := id s; state := SYNCED; lastSyncAt := Some date |} ]
  /\ submissions (events (snd (run w))) = submissions (events w).

(** A computation that neither drops nor swaps the session object. *)
Definition keepsSession {A} (m : M A) : Prop :=
  forall w, sessionId (snd (m w)) = sessionId w.

(** What a run owes its caller when the [try] block throws: [mark] is the
    step before the [try], [body] the [try] block, [run] the whole
    function and [save] the store.  With a session, the run ends with the
    session object in state FAILED, and, the store accepting it, returns
    with that snapshot saved last; without one, the run throws the
    TypeError of the handler's write to the missing object. *)
Definition failureMarksSession (save : MChannelSync -> result unit)
    (mark body run : M unit) : Prop :=
  forall (w w1 w2 : World) (e : Error),
    mark w = (Return tt, w1) ->
    body w1 = (Throw e, w2) ->
    (forall s, session w = Some s ->
       exists s2,
         session w2 = Some s2 /\ id s2 = id s
         /\ session (snd (run w)) = Some (withState s2 FAILED)
         /\ (save (withState s2 FAILED) = Return tt ->
               fst (run w) = Return tt
               /\ exists before,
                    events (snd (run w))
                    = before ++ [Saved (withState s2 FAILED)]))
    /\ (session w = None ->
          fst (run w)
          = Throw (TypeError
                     "Cannot set properties of undefined (setting 'state')")).

End Sync.

(* ===================================================================== *)
(** ** server/lib/sync-channel.ts *)
(* ===================================================================== *)

Module SyncChannel.
Import Sync.
Local Open Scope sync_scope.

(** Configuration and collaborators: the enabled VOD resolutions, the
    transcoding flag, [new Date ()], [setHours (0, 0, 0, 0)] on a date, the
    two models, the import builder, the store and the queue; and whether
    the logger of ../helpers/logger, which is not among the modelled
    files, has a method [warning] (PeerTube's logger is a winston logger,
    whose levels are named error, warn, info, verbose, debug, silly). *)
Record Env : Type := {
  wrapper : Wrapper.Env;
  logger_has_warning : bool;
  getEnabledResolutions_vod : list Z;
  ALWAYS_TRANSCODE_ORIGINAL_RESOLUTION : bool;
  newDate : Z;
  withoutTime : Z -> Z;
  loadByChannelActorId : Z -> result MUser;
  urlAlreadyImported : Z -> string -> result bool;
  buildYoutubeDLImport : ImportOptions -> result CreateJobArgument;
  save : MChannelSync -> result unit;
  createJobWithChildren_result :
    CreateJobArgument -> list CreateJobArgument -> result unit
}.

(** The options of [synchronizeChannel] other than the session, which is
    the [session] of the world. *)
Record Options : Type := {
  opt_channel : MChannel;
  externalChannelUrl : string;
  videosCountLimit : option Z;
  onlyAfter : option Z
}.

Section Run.

Variable env : Env.

Definition newWrapper (url : string) : Wrapper.YoutubeDLWrapper :=
  {| Wrapper.url := url;
     Wrapper.enabledResolutions := getEnabledResolutions_vod env;
     Wrapper.useBestFormat := ALWAYS_TRANSCODE_ORIGINAL_RESOLUTION env |}.

Definition skipImport (channel : MChannel) (targetUrl : string)
    (onlyAfter : option Z) : M bool :=
  already <- lift (urlAlreadyImported env (channel_id channel) targetUrl) ;;
  if (already : bool) then
    log debug "already imported, skipping video channel synchronization" ;;;
    ret true
  else
    match onlyAfter with
    | Some onlyAfter =>
        let youtubeDL := newWrapper targetUrl in
        videoInfo <-
          lift (Wrapper.getInfoForDownload (wrapper env) youtubeDL []) ;;
        let onlyAfterWithoutTime := withoutTime env onlyAfter in
        match InfoBuilder.originallyPublishedAtWithoutTime videoInfo with
        | None =>
            throw (TypeError
                     "Cannot read properties of null (reading 'getTime')")
        | Some publishedAt =>
            if publishedAt <? onlyAfterWithoutTime then ret true
            else ret false
        end
    | None => ret false
    end.

(** The [for] loop over the target URLs; [jobs] is the array filled so
    far. *)
Fixpoint buildJobs (user : MUser) (channel : MChannel)
    (onlyAfter : option Z) (targetUrls : list string)
    (jobs : list CreateJobArgument) : M (list CreateJobArgument) :=
  match targetUrls with
  | [] => ret jobs
  | targetUrl :: rest =>
      shouldSkip <-
        tryCatch
          (b <- skipImport channel targetUrl onlyAfter ;; ret (Some b))
          (fun err =>
             log error "Failed fetching info from URL" ;;; ret None) ;;
      match shouldSkip with
      | None => buildJobs user channel onlyAfter rest jobs
      | Some true => buildJobs user channel onlyAfter rest jobs
      | Some false =>
          channelSync <- getSession ;;
          job <- lift (buildYoutubeDLImport env
                         {| user := user;
                            channel := channel;
                            targetUrl := targetUrl;
                            channelSync := channelSync;
                            importDataOverride :=
                              {| privacy := PUBLIC;
                                 originallyPublishedAt := None |} |}) ;;
          buildJobs user channel onlyAfter rest (jobs ++ [job])
      end
  end.

(** [logger.warning (...)]: a call of a method that the logger may not
    have. *)
Definition logger_warning (msg : string) : M unit :=
  if logger_has_warning env then log warning msg
  else throw (TypeError "logger.warning is not a function").

(** What follows the listing, once [targetUrls] is known. *)
Definition importTargets (options : Options) (user : MUser)
    (targetUrls : list string) : M unit :=
  log info "Fetched candidate URLs for sync channel" ;;;
  if (List.length targetUrls =? 0)%nat then
    channelSync <- getSession ;;
    match channelSync with
    | Some _ => setState SYNCED ;;; saveSession (save env)
    | None => ret tt
    end
  else
    jobs <- buildJobs user (opt_channel options) (onlyAfter options)
              targetUrls [] ;;
    if (List.length jobs =? 0)%nat then
      logger_warning "Failed fetching target URLs, skipping import jobs"
    else
      channelSync <- getSession ;;
      (* Will update the channel sync status *)
      let parent := after_video_channel_import (option_map id channelSync) in
      createJobWithChildren (createJobWithChildren_result env) parent jobs.

(** The body of the [try] block. *)
Definition tryBlock (options : Options) : M unit :=
  user <- lift (loadByChannelActorId env (actorId (opt_channel options))) ;;
  let youtubeDL := newWrapper (externalChannelUrl options) in
  targetUrls <-
    lift (Wrapper.getInfoForListImport (wrapper env) youtubeDL
            (videosCountLimit options)) ;;
  importTargets options user targetUrls.

(** The [catch] block. *)
Definition catchBlock (err : Error) : M unit :=
  log error "Failed to import channel" ;;;
  setState FAILED ;;;
  saveSession (save env).

(** The [if (channelSync)] block before the [try]. *)
Definition markProcessing : M unit :=
  channelSync <- getSession ;;
  match channelSync with
  | Some _ =>
      setState PROCESSING ;;;
      setLastSyncAt (newDate env) ;;;
      saveSession (save env)
  | None => ret tt
  end.

Definition synchronizeChannel (options : Options) : M unit :=
  markProcessing ;;;
  tryCatch (tryBlock options) catchBlock.

End Run.

End SyncChannel.

(* ===================================================================== *)
(** ** sync-channel.ts, the revision that works on playlist entries *)
(* ===================================================================== *)

Module SyncChannelEntries.
Import Sync.
Local Open Scope sync_scope.

(** An element of what this revision's [getInfoForListImport] returns. *)
Record Entry : Type := {
  webpageUrl : string;
  entry_originallyPublishedAt : option Z
}.

(** What this revision reads of [getInfoForDownload]'s result. *)
Record VideoInfo : Type := {
  info_originallyPublishedAt : option Z
}.

(** As in [SyncChannel.Env]; the wrapper of this revision is not among the
    modelled files, so its two methods are collaborators, called with the
    wrapper's URL. *)
Record Env : Type := {
  newDate : Z;
  withoutTime : Z -> Z;
  loadByChannelActorId : Z -> result MUser;
  getInfoForListImport : string -> option Z -> result (list Entry);
  getInfoForDownload : string -> result VideoInfo;
  urlAlreadyImported : Z -> string -> result bool;
  buildYoutubeDLImport : ImportOptions -> result CreateJobArgument;
  save : MChannelSync -> result unit;
  createJobWithChildren_result :
    CreateJobArgument -> list CreateJobArgument -> result unit
}.

Record Options : Type := {
  opt_channel : MChannel;
  externalChannelUrl : string;
  videosCountLimit : option Z;
  onlyAfter : option Z
}.

Section Run.

Variable env : Env.

Definition skipImport (channel : MChannel) (targetUrl : string)
    (onlyAfter : option Z) : M bool :=
  already <- lift (urlAlreadyImported env (channel_id channel) targetUrl) ;;
  if (already : bool) then
    log debug "already imported, skipping video channel synchronization" ;;;
    ret true
  else
    fetched <-
      tryCatch
        (videoInfo <- lift (getInfoForDownload env targetUrl) ;;
         ret (Some videoInfo))
        (fun err =>
           log error "Cannot fetch information from import, skipping import" ;;;
           ret None) ;;
    match fetched with
    | None => ret true
    | Some videoInfo =>
        match onlyAfter with
        | Some onlyAfter =>
            let onlyAfterWithoutTime := withoutTime env onlyAfter in
            match info_originallyPublishedAt videoInfo with
            | None =>
                throw (TypeError
                         "Cannot read properties of undefined (reading 'getTime')")
            | Some publishedAt =>
                if publishedAt <? onlyAfterWithoutTime then ret true
                else ret false
            end
        | None => ret false
        end
    end.

(** The [for] loop over the entries. *)
Fixpoint buildChildren (user : MUser) (channel : MChannel)
    (onlyAfter : option Z) (entries : list Entry)
    (children : list CreateJobArgument) : M (list CreateJobArgument) :=
  match entries with
  | [] => ret children
  | entry :: rest =>
      skip <- skipImport channel (webpageUrl entry) onlyAfter ;;
      if (skip : bool) then buildChildren user channel onlyAfter rest children
      else
        let importDataOverride :=
          {| privacy := PUBLIC;
             (* only override if available *)
             originallyPublishedAt := entry_originallyPublishedAt entry |} in
        channelSync <- getSession ;;
        job <- lift (buildYoutubeDLImport env
                       {| user := user;
                          channel := channel;
                          targetUrl := webpageUrl entry;
                          channelSync := channelSync;
                          importDataOverride := importDataOverride |}) ;;
        buildChildren user channel onlyAfter rest (children ++ [job])
  end.

Definition importEntries (options : Options) (user : MUser)
    (entries : list Entry) : M unit :=
  if (List.length entries =? 0)%nat then
    channelSync <- getSession ;;
    match channelSync with
    | Some _ => setState SYNCED ;;; saveSession (save env)
    | None => ret tt
    end
  else
    log info "Fetched candidate URLs for sync channel" ;;;
    children <- buildChildren user (opt_channel options) (onlyAfter options)
                  entries [] ;;
    channelSync <- getSession ;;
    (* Will update the channel sync status *)
    let parent := after_video_channel_import (option_map id channelSync) in
    createJobWithChildren (createJobWithChildren_result env) parent children.

Definition tryBlock (options : Options) : M unit :=
  user <- lift (loadByChannelActorId env (actorId (opt_channel options))) ;;
  entries <-
    lift (getInfoForListImport env (externalChannelUrl options)
            (videosCountLimit options)) ;;
  importEntries options user entries.

Definition catchBlock (err : Error) : M unit :=
  log error "Failed to import channel" ;;;
  setState FAILED ;;;
  saveSession (save env).

(** The [if (channelSync)] block before the [try]. *)
Definition markProcessing : M unit :=
  channelSync <- getSession ;;
  match channelSync with
  | Some _ =>
      setState PROCESSING ;;;
      setLastSyncAt (newDate env) ;;;
      saveSession (save env)
  | None => ret tt
  end.

Definition synchronizeChannel (options : Options) : M unit :=
  markProcessing ;;;
  tryCatch (tryBlock options) catchBlock.

End Run.

End SyncChannelEntries.

(* ===================================================================== *)
(** ** Reading a format selector *)
(* ===================================================================== *)

Module Selector.

(** [hay.includes (needle)]. *)
Fixpoint contains (needle hay : string) : bool :=
  String.prefix needle hay
  || match hay with
     | String _ rest => contains needle rest
     | EmptyString => false
     end.

Fixpoint countChar (c : ascii) (s : string) : nat :=
  match s with
  | String a rest => (if Ascii.eqb a c then 1 else 0) + countChar c rest
  | EmptyString => 0
  end.

(** The number of tiers of a chain: youtube-dl cuts it at every slash. *)
Definition tierCount (chain : string) : nat := S (countChar "/" chain).

(** The tier filters out both codecs by name. *)
Definition excludesCodecs (tier : string) : bool :=
  contains "[vcodec!*=av01]" tier && contains "[vcodec!*=vp9.2]" tier.

(** The tier asks for H.264, which rules the two codecs out as well. *)
Definition requiresAvc1 (tier : string) : bool :=
  contains "[vcodec^=avc1]" tier.

Definition codecRestricted (tier : string) : bool :=
  excludesCodecs tier || requiresAvc1 tier.

End Selector.

(* ===================================================================== *)
(** ** Sample inputs *)
(* ===================================================================== *)

Module Samples.

(** A runner whose subprocess always ends with [outcome] and whose output
    lines are read by [parse]. *)
Definition cliEnv (releaseName : string) (outcome : CLI.Awaited)
    (parse : jsstring -> result CLI.YoutubeDLCLIResult) : CLI.Env :=
  {| CLI.PYTHON_PATH := "python3";
     CLI.youtubeDLBinaryPath := "bin/youtube-dl";
     CLI.YOUTUBE_DL_RELEASE_NAME := releaseName;
     CLI.proxy := None;
     CLI.FORCE_IPV4 := false;
     CLI.FFMPEG_PATH := None;
     CLI.execa := fun _ _ => outcome;
     CLI.JSON_parse := parse |}.

Definition noParse : jsstring -> result CLI.YoutubeDLCLIResult :=
  fun _ => Throw (SyntaxError "Unexpected token").

Definition exited (code : Z) (out err : jsstring) : CLI.Awaited :=
  CLI.Fulfilled
    (Some {| CLI.command := "python3 bin/youtube-dl";
             CLI.exitCode := code;
             CLI.stdout := out;
             CLI.stderr := err |}).

Definition videoUrl : string := "https://example.com/watch?v=1".

(** Two lines of output with a blank line between them. *)
Definition twoLinesAndABlank : jsstring :=
  str "a" ++ [LF; LF] ++ str "b".

Definition entry (u : string) (ts rts : option Z) : CLI.YoutubeDLCLIResult :=
  {| CLI.webpage_url := Some u; CLI.timestamp := ts;
     CLI.release_timestamp := rts; CLI.json := [] |}.

(** A flat pass with a zero timestamp for [a] and a positive one for [b],
    and a detailed pass that knows a timestamp for [a] only. *)
Definition flatPass : list CLI.YoutubeDLCLIResult :=
  [ entry "a" (Some 0) None; entry "b" (Some 1700000000) (Some 1700000500) ].

Definition detailedPass : list CLI.YoutubeDLCLIResult :=
  [ entry "a" (Some 1600000000) None; entry "b" None None ].

(** An updater whose binary is in place and whose network is down. *)
Definition updaterEnv (cliEnv : CLI.Env) : Updater.Env :=
  {| Updater.cli := cliEnv;
     Updater.YOUTUBE_DL_RELEASE_URL := "https://example.com/releases";
     Updater.peertubeGot := fun _ => Throw (OtherError "offline");
     Updater.parseReleases := fun _ => Return [];
     Updater.writeFile := fun _ _ => Return tt;
     Updater.pathExists := fun _ => Return true;
     Updater.ensureDir := fun _ => Return tt;
     Updater.dirname := fun _ => "bin" |}.

(** Constraints as the server ships them, tables of two entries, and
    helpers that leave strings as they are. *)
Definition builderEnv : InfoBuilder.Env :=
  {| InfoBuilder.NAME_min := 3;
     InfoBuilder.NAME_max := 120;
     InfoBuilder.DESCRIPTION_min := 3;
     InfoBuilder.DESCRIPTION_max := 10000;
     InfoBuilder.TAG_min := 2;
     InfoBuilder.TAG_max := 30;
     InfoBuilder.VIDEO_LICENCES :=
       [ (1, str "Attribution"); (7, str "Public Domain Dedication") ];
     InfoBuilder.VIDEO_CATEGORIES := [ (1, str "Music"); (2, str "Films") ];
     InfoBuilder.VIDEO_LANGUAGES := fun l => InfoBuilder.jsEqb l (str "en");
     InfoBuilder.normalizeObject := fun obj => obj;
     InfoBuilder.peertubeTruncate :=
       fun s n => firstn (Z.to_nat n) (match s with Some t => t | None => [] end);
     InfoBuilder.isUrlValid := CLIMethods.startsWith (str "https://");
     InfoBuilder.normalize := fun t => t;
     InfoBuilder.toLowerCase := fun t => t;
     InfoBuilder.localMidnight :=
       fun year month day => ((year * 12 + month) * 31 + day) * 86400000 |}.

(** What the information builder reads of a parsed record: a title, an
    upload date and one format, with the record's own page URL; and of
    anything else, nothing. *)
Definition recordOf (r : CLI.YoutubeDLCLIResult)
  : InfoBuilder.YoutubeDLCLIResult :=
  {| InfoBuilder.title := Some (str "A video");
     InfoBuilder.description := None;
     InfoBuilder.categories := None;
     InfoBuilder.license := None;
     InfoBuilder.language := None;
     InfoBuilder.age_limit := None;
     InfoBuilder.tags := None;
     InfoBuilder.thumbnail := None;
     InfoBuilder.url := None;
     InfoBuilder.urls := None;
     InfoBuilder.formats :=
       Some [ {| InfoBuilder.item_url :=
                   Some (str "https://example.com/v.mp4") |} ];
     InfoBuilder.thumbnails := None;
     InfoBuilder.subtitles := None;
     InfoBuilder.upload_date := Some (str "20230115");
     InfoBuilder.ext := Some (str "mp4");
     InfoBuilder.webpage_url := CLI.webpage_url r |}.

Definition noProperties : InfoBuilder.YoutubeDLCLIResult :=
  {| InfoBuilder.title := None;
     InfoBuilder.description := None;
     InfoBuilder.categories := None;
     InfoBuilder.license := None;
     InfoBuilder.language := None;
     InfoBuilder.age_limit := None;
     InfoBuilder.tags := None;
     InfoBuilder.thumbnail := None;
     InfoBuilder.url := None;
     InfoBuilder.urls := None;
     InfoBuilder.formats := None;
     InfoBuilder.thumbnails := None;
     InfoBuilder.subtitles := None;
     InfoBuilder.upload_date := None;
     InfoBuilder.ext := None;
     InfoBuilder.webpage_url := None |}.

(** A list builder that copies the URL and the release timestamp. *)
Definition listedInfo (r : CLI.YoutubeDLCLIResult) : Wrapper.YoutubeDLInfo :=
  {| Wrapper.webpageUrl :=
       match CLI.webpage_url r with Some u => u | None => "" end;
     Wrapper.release_timestamp := CLI.release_timestamp r |}.

Definition wrapperEnv (cliEnv : CLI.Env) : Wrapper.Env :=
  {| Wrapper.updater := updaterEnv cliEnv;
     Wrapper.Date_now := 1700000000000;
     Wrapper.builder := builderEnv;
     Wrapper.properties :=
       fun info =>
         match info with
         | CLI.Single r => recordOf r
         | _ => noProperties
         end;
     Wrapper.listBuilder_getList := map listedInfo;
     Wrapper.inspect := fun _ => "[Object]" |}.

Definition videoWrapper : Wrapper.YoutubeDLWrapper :=
  {| Wrapper.url := videoUrl;
     Wrapper.enabledResolutions := [ 720; 1080 ];
     Wrapper.useBestFormat := false |}.

(** Bitrate tables that answer with one value each, whatever the
    resolution, frame rate and ratio. *)
Definition averageBitrate : Q -> Q -> Q -> Q := fun _ _ _ => 11819520%Q.
Definition minBitrate : Q -> Q -> Q -> Q := fun _ _ _ => 1244160%Q.

(** Probes: an aac stereo stream at 128000 whose AAC maximum is its own
    bitrate, and an h264/yuv420p stream at 70 fps. *)
Definition stereoAac : string -> option unit -> Transcode.ParsedAudio :=
  fun _ _ =>
    {| Transcode.audioStream :=
         Some {| Transcode.audio_codec_name := Some "aac";
                 Transcode.channel_layout := Some "stereo" |};
       Transcode.bitrate := Some 128000%Q |}.

Definition sameBitrate : string -> Q -> Q := fun _ b => b.

Definition h264Stream : string -> option unit -> option Transcode.VideoStream :=
  fun _ _ => Some {| Transcode.codec_name := Some "h264";
                     Transcode.pix_fmt := Some "yuv420p" |}.

(** Output lines stand for playlist entries: a line that starts with [1]
    for the first video, any other for the second; [rts] is the release
    timestamp given to both. *)
Definition parseEntry (rts : option Z) (d : jsstring)
  : result CLI.YoutubeDLCLIResult :=
  match d with
  | [] => Throw (SyntaxError "Unexpected end of JSON input")
  | c :: _ =>
      Return {| CLI.webpage_url :=
                  Some (if (c =? 49)%N then "https://example.com/v1"
                        else "https://example.com/v2");
                CLI.timestamp := None;
                CLI.release_timestamp := rts;
                CLI.json := d |}
  end.

(** A listing of two entries. *)
Definition listing (rts : option Z) : CLI.Env :=
  cliEnv "yt-dlp" (exited 0 (str "1" ++ [LF] ++ str "2") []) (parseEntry rts).

(** A listing whose subprocess exits with code 1. *)
Definition brokenListing : CLI.Env :=
  cliEnv "yt-dlp" (exited 1 [] []) noParse.

Definition channel : Sync.MChannel :=
  {| Sync.channel_id := 3; Sync.actorId := 30;
     Sync.name := "music"; Sync.preferredUsername := "music" |}.

(** Collaborators that all succeed; [already] is the answer of
    [urlAlreadyImported]. *)
Definition syncEnv (cliEnv : CLI.Env) (already : bool) : SyncChannel.Env :=
  {| SyncChannel.wrapper := wrapperEnv cliEnv;
     SyncChannel.logger_has_warning := false;
     SyncChannel.getEnabledResolutions_vod := [ 720; 1080 ];
     SyncChannel.ALWAYS_TRANSCODE_ORIGINAL_RESOLUTION := false;
     SyncChannel.newDate := 1700000000000;
     SyncChannel.withoutTime := fun d => d - d mod 86400000;
     SyncChannel.loadByChannelActorId :=
       fun _ => Return {| Sync.user_id := 1 |};
     SyncChannel.urlAlreadyImported := fun _ _ => Return already;
     SyncChannel.buildYoutubeDLImport := fun o => Return (Sync.video_import o);
     SyncChannel.save := fun _ => Return tt;
     SyncChannel.createJobWithChildren_result := fun _ _ => Return tt |}.

Definition syncOptions : SyncChannel.Options :=
  {| SyncChannel.opt_channel := channel;
     SyncChannel.externalChannelUrl := "https://example.com/c/music";
     SyncChannel.videosCountLimit := Some 10;
     SyncChannel.onlyAfter := None |}.

(** The same for the revision on entries; [entries] is what the listing
    gives. *)
Definition entriesEnv
    (entries : result (list SyncChannelEntries.Entry)) (already : bool)
  : SyncChannelEntries.Env :=
  {| SyncChannelEntries.newDate := 1700000000000;
     SyncChannelEntries.withoutTime := fun d => d - d mod 86400000;
     SyncChannelEntries.loadByChannelActorId :=
       fun _ => Return {| Sync.user_id := 1 |};
     SyncChannelEntries.getInfoForListImport := fun _ _ => entries;
     SyncChannelEntries.getInfoForDownload :=
       fun _ => Return {| SyncChannelEntries.info_originallyPublishedAt :=
                            Some 1690000000000 |};
     SyncChannelEntries.urlAlreadyImported := fun _ _ => Return already;
     SyncChannelEntries.buildYoutubeDLImport :=
       fun o => Return (Sync.video_import o);
     SyncChannelEntries.save := fun _ => Return tt;
     SyncChannelEntries.createJobWithChildren_result := fun _ _ => Return tt |}.

Definition entriesOptions : SyncChannelEntries.Options :=
  {| SyncChannelEntries.opt_channel := channel;
     SyncChannelEntries.externalChannelUrl := "https://example.com/c/music";
     SyncChannelEntries.videosCountLimit := Some 10;
     SyncChannelEntries.onlyAfter := None |}.

Definition twoEntries : list SyncChannelEntries.Entry :=
  [ {| SyncChannelEntries.webpageUrl := "https://example.com/v1";
       SyncChannelEntries.entry_originallyPublishedAt := None |};
    {| SyncChannelEntries.webpageUrl := "https://example.com/v2";
       SyncChannelEntries.entry_originallyPublishedAt := None |} ].

(** A session that waits for its first run, and the two initial worlds. *)
Definition pendingSession : Sync.MChannelSync :=
  {| Sync.id := 7; Sync.state := Sync.PENDING; Sync.lastSyncAt := None |}.

Definition withSession : Sync.World :=
  {| Sync.session := Some pendingSession; Sync.events := [] |}.

Definition withoutSession : Sync.World :=
  {| Sync.session := None; Sync.events := [] |}.

End Samples.

(* ===================================================================== *)
(** ** The wrapper: subtitles and the downloaded file's path *)
(* ===================================================================== *)

Module WrapperFiles.

Definition DOT : N := 46%N.
Definition DASH : N := 45%N.

(** A member of [[a-z]] under the [i] flag: an ASCII letter. *)
Definition isLetter (c : N) : bool :=
  ((65 <=? c) && (c <=? 90) || (97 <=? c) && (c <=? 122))%N.

(** [c] is the lower-case pattern letter [p], in either case. *)
Definition sameLetter (p c : N) : bool := ((c =? p) || (c =? p - 32))%N.

(** The literal [word] (lower case) at the head of [s], under [i]. *)
Fixpoint matchWord (word s : jsstring) : bool :=
  match word, s with
  | [], _ => true
  | p :: word', c :: s' => sameLetter p c && matchWord word' s'
  | _ :: _, [] => false
  end.

(** [\.(vtt|ttml)] at the head of [s]. *)
Definition matchExtension (s : jsstring) : bool :=
  match s with
  | d :: e => (d =? DOT)%N && (matchWord (str "vtt") e || matchWord (str "ttml") e)
  | [] => false
  end.

Fixpoint skipLetters (s : jsstring) : jsstring :=
  match s with
  | c :: s' => if isLetter c then skipLetters s' else s
  | [] => []
  end.

(** [(-[a-z]+)?\.(vtt|ttml)] at the head of [s]: the greedy run of letters
    is the only length after which a dot can follow. *)
Definition matchTail (s : jsstring) : bool :=
  match s with
  | c :: l :: s' =>
      ((c =? DASH)%N && isLetter l && matchExtension (skipLetters s'))
      || matchExtension s
  | _ => matchExtension s
  end.

(** The first group when [/\.([a-z]{2})(-[a-z]+)?\.(vtt|ttml)/i] matches at
    the head of [s]. *)
Definition matchHere (s : jsstring) : option jsstring :=
  match s with
  | d :: l1 :: l2 :: s' =>
      if (d =? DOT)%N && isLetter l1 && isLetter l2 && matchTail s'
      then Some [l1; l2] else None
  | _ => None
  end.

(** [filename.match (...)[1]]: the leftmost match. *)
Fixpoint matchLanguage (filename : jsstring) : option jsstring :=
  match matchHere filename with
  | Some language => Some language
  | None =>
      match filename with
      | [] => None
      | _ :: rest => matchLanguage rest
      end
  end.

Record Subtitle : Type := {
  language : jsstring;
  path : jsstring;
  filename : jsstring
}.

(** The wrapper's environment and the file system helpers: the extension
    validator, [pathExists], [readdir], [dirname], and [join (cwd, .)] for
    the temporary directory. *)
Record Env : Type := {
  wrapper : Wrapper.Env;
  isVideoFileExtnameValid : string -> bool;
  pathExists : string -> bool;
  readdir : string -> result (list string);
  dirname : string -> string;
  joinTmpDir : jsstring -> jsstring
}.

Section Files.

Variable env : Env.

(** The callback of [files.reduce]. *)
Definition addSubtitle (acc : list Subtitle) (filename : jsstring)
  : list Subtitle :=
  match matchLanguage filename with
  | None => acc
  | Some matched =>
      acc ++ [ {| language := matched;
                  path := joinTmpDir env filename;
                  filename := filename |} ]
  end.

(** [getSubtitles]. *)
Definition getSubtitles (this : Wrapper.YoutubeDLWrapper)
  : result (list Subtitle) :=
  match Wrapper.safeGet (wrapper env) with
  | Throw e => Throw e
  | Return _ =>
      match CLIMethods.getSubs (Wrapper.cli (wrapper env))
              (Wrapper.url this) "vtt" with
      | Throw e => Throw e
      | Return files => Return (fold_left addSubtitle files [])
      end
  end.

(** The [for] loop of [guessVideoPathWithExtension]. *)
Fixpoint firstExisting (tmpPath : string) (extensions : list string)
  : option string :=
  match extensions with
  | [] => None
  | extension :: rest =>
      let path := (tmpPath ++ extension)%string in
      if pathExists env path then Some path else firstExisting tmpPath rest
  end.

Definition guessVideoPathWithExtension (tmpPath sourceExt : string)
  : result string :=
  if negb (isVideoFileExtnameValid env sourceExt) then
    Throw (OtherError ("Invalid video extension " ++ sourceExt)%string)
  else
    let extensions := [ sourceExt; ".mp4"; ".mkv"; ".webm" ] in
    match firstExisting tmpPath extensions with
    | Some path => Return path
    | None =>
        match readdir env (dirname env tmpPath) with
        | Throw e => Throw e
        | Return directoryContent =>
            Throw (OtherError
                     ("Cannot guess path of " ++ tmpPath
                        ++ ". Directory content: "
                        ++ String.concat ", " directoryContent)%string)
        end
    end.

End Files.

End WrapperFiles.

(* ===================================================================== *)
(** ** The validation error and the accelerator probe *)
(* ===================================================================== *)

Module ValidationError.

Inductive YoutubeDLErrorOp : Type :=
| VIDEO_AVAILABILITY_ERROR
| NO_FORMATS_AVAILABLE
| NOT_POST_PROCESSED
| IS_LIVE
| TO_BE_PUBLISHED.

Definition reasonFromStatus (status : YoutubeDLErrorOp) (url : string)
  : string :=
  match status with
  | IS_LIVE => "Video " ++ url ++ " is currently livestreaming"
  | TO_BE_PUBLISHED => "Video " ++ url ++ " has not been published yet"
  | NOT_POST_PROCESSED => "Video " ++ url ++ " is currently post processing"
  | NO_FORMATS_AVAILABLE =>
      "Video " ++ url ++ " has no downloadable video formats available"
  | VIDEO_AVAILABILITY_ERROR => "Video " ++ url ++ " not available for import"
  end%string.

(** [YoutubeDLValidationError]: the message given to [super], and the
    three properties. *)
Record YoutubeDLValidationError : Type := {
  message : string;
  status : YoutubeDLErrorOp;
  url : option string;
  cause : option Error
}.

(** [new YoutubeDLValidationError ({ op, url })]. *)
Definition construct (op : YoutubeDLErrorOp) (u : string)
  : YoutubeDLValidationError :=
  {| message := reasonFromStatus op u; status := op; url := Some u;
     cause := None |}.

Definition fromError (err : Error) (op : YoutubeDLErrorOp) (u : string)
  : YoutubeDLValidationError :=
  let ytDlErr := construct op u in
  {| message := message ytDlErr; status := status ytDlErr;
     url := url ytDlErr; cause := Some err |}.

End ValidationError.

Module Accel.

(** [FFmpegAccelKind]; [None_] is its member [None]. *)
Inductive FFmpegAccelKind : Type :=
| Intel
| AMD
| NVIDIA
| None_.

(** The value of a member, a string. *)
Definition kindValue (k : FFmpegAccelKind) : string :=
  match k with
  | Intel => "Intel"
  | AMD => "AMD"
  | NVIDIA => "NVIDIA"
  | None_ => "None"
  end.

(** [Object.values (FFmpegAccelKind)]. *)
Definition kinds : list FFmpegAccelKind := [ Intel; AMD; NVIDIA; None_ ].

Record FFmpegAccelDevice : Type := {
  kind : FFmpegAccelKind;
  busAddress : string
}.

(** What the probe reads of a graphics controller. *)
Record GraphicsControllerData : Type := {
  vendor : string;
  controller_busAddress : string
}.

(** [deviceFromController]: the [forEach] assigns on every match, and
    [None] is the [undefined] that the variable starts with. *)
Definition deviceFromController (gfxController : GraphicsControllerData)
  : option FFmpegAccelDevice :=
  fold_left
    (fun accelDevice accelKind =>
       let matches :=
         Selector.contains (kindValue accelKind) (vendor gfxController) in
       if negb matches then accelDevice
       else Some {| kind := accelKind;
                    busAddress := controller_busAddress gfxController |})
    kinds None.

(** [getFFmpegAccelerators], on the controllers that [graphics ()] found. *)
Definition getFFmpegAccelerators (controllers : list GraphicsControllerData)
  : list (option FFmpegAccelDevice) :=
  map deviceFromController controllers.

End Accel.

(* ===================================================================== *)
(** ** Words for the statements about the runner and the listing *)
(* ===================================================================== *)

Module CLIWords.




(** The format that [getListInfo] asks for. *)
Definition listFormat : string := CLI.getYoutubeDLVideoFormat [] false.

(** [additionalYoutubeDLArgs] of [getListInfo] before any yt-dlp flag. *)
Definition baseListArgs (latestVideosCount : option Z) : list string :=
  [ "--skip-download"; "--playlist-reverse" ]
  ++ match latestVideosCount with
     | Some n => [ "--playlist-end"; numberToString n ]
     | None => []
     end.

(** The same with the yt-dlp filter on unavailable videos. *)
Definition filteredListArgs (latestVideosCount : option Z) : list string :=
  baseListArgs latestVideosCount
  ++ [ "--compat-options"; "no-youtube-unavailable-videos";
       "--match-filters";
       "!is_live & live_status != is_upcoming & live_status != post_live" ].

(** [flatYoutubeDLArgs] of [getListInfo]. *)
Definition flatPassArgs (latestVideosCount : option Z) : list string :=
  filteredListArgs latestVideosCount
  ++ [ "--flat-playlist"; "--extractor-args"; "youtubetab:approximate-date" ]
  ++ [ "-O"; "%(.{webpage_url,timestamp,release_timestamp})j" ].

(** The arguments of the second [getInfo] of [getListInfo] under yt-dlp. *)
Definition detailedPassArgs (latestVideosCount : option Z) : list string :=
  filteredListArgs latestVideosCount
  ++ [ "-O"; "%(.{webpage_url,live_status})j" ].

End CLIWords.

(* ===================================================================== *)
(** ** Words for the statements about a synchronisation run *)
(* ===================================================================== *)

Module SyncWords.
Import Sync.

(** A property of the world that a computation keeps. *)
Definition preserves {A} (P : World -> Prop) (m : M A) : Prop :=
  forall w, P w -> P (snd (m w)).

(** The session as the block before the [try] leaves it. *)
Definition stamp (date : Z) (s : MChannelSync) : MChannelSync :=
  {| id := id s; state := PROCESSING; lastSyncAt := Some date |}.

(** A snapshot of session [sid] that has left PENDING and carries the
    stamp [date]. *)
Definition stampedSnapshot (date sid : Z) (s : MChannelSync) : Prop :=
  id s = sid /\ state s <> PENDING /\ lastSyncAt s = Some date.

(** The session object is such a snapshot, and so is everything that was
    saved after [stored]. *)
Definition stampedFrom (date sid : Z) (stored : list MChannelSync)
    (w : World) : Prop :=
  (exists s, session w = Some s /\ stampedSnapshot date sid s)
  /\ exists new,
       saves (events w) = stored ++ new
       /\ Forall (stampedSnapshot date sid) new.

(** No session, and the store holds exactly [stored]. *)
Definition unsaved (stored : list MChannelSync) (w : World) : Prop :=
  session w = None /\ saves (events w) = stored.

(** A world to ask [skipImport] for its verdict, which does not depend on
    the world. *)
Definition blank : World := {| session := None; events := [] |}.

(** The verdict of [skipImport] in sync-channel.ts on a URL. *)
Definition verdict (env : SyncChannel.Env) (channel : MChannel)
    (onlyAfter : option Z) (targetUrl : string) : result bool :=
  fst (SyncChannel.skipImport env channel targetUrl onlyAfter blank).

(** The URLs that the loop keeps: those on which [skipImport] returns
    [false]. *)
Definition keptUrls (env : SyncChannel.Env) (channel : MChannel)
    (onlyAfter : option Z) (targetUrls : list string) : list string :=
  filter (fun targetUrl =>
            match verdict env channel onlyAfter targetUrl with
            | Return false => true
            | _ => false
            end) targetUrls.

(** The options given to [buildYoutubeDLImport] for a kept URL. *)
Definition importOptions (user : MUser) (channel : MChannel)
    (channelSync : option MChannelSync) (targetUrl : string) : ImportOptions :=
  {| user := user;
     channel := channel;
     targetUrl := targetUrl;
     channelSync := channelSync;
     importDataOverride :=
       {| privacy := PUBLIC; originallyPublishedAt := None |} |}.

End SyncWords.

(* ===================================================================== *)
(** ** More sample inputs *)
(* ===================================================================== *)

Module MoreSamples.

(** A listing of exactly one entry. *)
Definition oneEntryListing : CLI.Env :=
  Samples.cliEnv "yt-dlp" (Samples.exited 0 (str "1") [])
    (Samples.parseEntry None).

(** A yt-dlp whose flat pass exits with code 1 while the other pass lists
    two entries. *)
Definition flatPassBroken : CLI.Env :=
  {| CLI.PYTHON_PATH := "python3";
     CLI.youtubeDLBinaryPath := "bin/yt-dlp";
     CLI.YOUTUBE_DL_RELEASE_NAME := "yt-dlp";
     CLI.proxy := None;
     CLI.FORCE_IPV4 := false;
     CLI.FFMPEG_PATH := None;
     CLI.execa :=
       fun _ args =>
         if existsb (String.eqb "--flat-playlist") args
         then Samples.exited 1 [] []
         else Samples.exited 0 (str "1" ++ [LF] ++ str "2") [];
     CLI.JSON_parse := Samples.parseEntry None |}.

(** A file system that holds exactly [existing], and a validator that
    knows four extensions. *)
Definition filesEnv (existing : list string) : WrapperFiles.Env :=
  {| WrapperFiles.wrapper := Samples.wrapperEnv oneEntryListing;
     WrapperFiles.isVideoFileExtnameValid :=
       fun e => existsb (String.eqb e) [ ".mp4"; ".mkv"; ".webm"; ".mov" ];
     WrapperFiles.pathExists := fun p => existsb (String.eqb p) existing;
     WrapperFiles.readdir := fun _ => Return existing;
     WrapperFiles.dirname := fun _ => "/tmp";
     WrapperFiles.joinTmpDir := fun f => str "/tmp/" ++ f |}.

(** Collaborators of sync-channel.ts that all succeed but for the lookup
    of the user. *)
Definition lookupFails : SyncChannel.Env :=
  {| SyncChannel.wrapper := Samples.wrapperEnv (Samples.listing None);
     SyncChannel.logger_has_warning := false;
     SyncChannel.getEnabledResolutions_vod := [ 720; 1080 ];
     SyncChannel.ALWAYS_TRANSCODE_ORIGINAL_RESOLUTION := false;
     SyncChannel.newDate := 1700000000000;
     SyncChannel.withoutTime := fun d => d - d mod 86400000;
     SyncChannel.loadByChannelActorId :=
       fun _ => Throw (OtherError "user lookup failed");
     SyncChannel.urlAlreadyImported := fun _ _ => Return false;
     SyncChannel.buildYoutubeDLImport :=
       fun o => Return (Sync.video_import o);
     SyncChannel.save := fun _ => Return tt;
     SyncChannel.createJobWithChildren_result := fun _ _ => Return tt |}.

End MoreSamples.

Module FileWords.
Import WrapperFiles.

(** What [/\.([a-z]{2})(-[a-z]+)?\.(vtt|ttml)/i] matches: a dot, two
    letters, possibly a dash and a non-empty run of letters, a dot, and
    [vtt] or [ttml] in either case. *)
Definition subtitleShape (l1 l2 : N) (s : jsstring) : Prop :=
  exists mid post,
    s = DOT :: l1 :: l2 :: mid ++ DOT :: post
    /\ isLetter l1 = true /\ isLetter l2 = true
    /\ (mid = []
        \/ exists l region,
             mid = DASH :: l :: region
             /\ forallb isLetter (l :: region) = true)
    /\ (matchWord (str "vtt") post = true
        \/ matchWord (str "ttml") post = true).

End FileWords.

Module UpdaterWords.
Import Updater.

(** Where the body written by the updater comes from: the release URL
    itself, or the asset named after the release in the first release of
    the feed that is not a prerelease. *)
Definition provenance (env : Env) (requests : list string) : Prop :=
  requests = [ YOUTUBE_DL_RELEASE_URL env ]
  \/ exists feed json latest asset,
       requests = [ YOUTUBE_DL_RELEASE_URL env; browser_download_url asset ]
       /\ peertubeGot env (YOUTUBE_DL_RELEASE_URL env) = Return feed
       /\ binary feed = false
       /\ parseReleases env (body feed) = Return json
       /\ find (fun release =>
                  match prerelease release with
                  | Some false => true
                  | _ => false
                  end) json = Some latest
       /\ find (fun a => (asset_name a
                          =? CLI.YOUTUBE_DL_RELEASE_NAME (cli env))%string)
               (assets latest) = Some asset.

(** The requests among the effects, and the files written. *)
Definition requests (es : list Effect) : list string :=
  flat_map (fun e => match e with Requested u => [ u ] | _ => [] end) es.

Definition writes (es : list Effect) : list (string * list N) :=
  flat_map (fun e => match e with Written p c => [ (p, c) ] | _ => [] end) es.

End UpdaterWords.

Module InfoWords.
Import InfoBuilder.

(** [u] is one of the URLs the record carries: its [url], one of its
    [urls], the URL of a format, of a thumbnail or of a subtitle of a
    track that is an array, or its [thumbnail]. *)
Definition candidateUrl (obj : YoutubeDLCLIResult) (u : jsstring) : Prop :=
  url obj = Some u
  \/ (exists l, urls obj = Some (urlsArray l) /\ In u l)
  \/ urls obj = Some (urlsString u)
  \/ (exists l item,
        formats obj = Some l /\ In item l /\ item_url item = Some u)
  \/ (exists l item,
        thumbnails obj = Some l /\ In item l /\ item_url item = Some u)
  \/ thumbnail obj = Some u
  \/ (exists tracks key subs item,
        subtitles obj = Some tracks /\ In (key, Some subs) tracks
        /\ In item subs /\ item_url item = Some u).

(** The decimal digit [k] as a code unit, and numbers padded with zeros to
    two and to four digits. *)
Definition digit (k : Z) : N := Z.to_N (48 + k).

Definition pad2 (n : Z) : jsstring := [ digit (n / 10); digit (n mod 10) ].

Definition pad4 (n : Z) : jsstring :=
  [ digit (n / 1000); digit (n / 100 mod 10);
    digit (n / 10 mod 10); digit (n mod 10) ].

(** A record that carries an upload date and nothing else. *)
Definition uploadedOn (upload_date : option jsstring) : YoutubeDLCLIResult :=
  {| title := None; description := None; categories := None;
     license := None; language := None; age_limit := None; tags := None;
     thumbnail := None; url := None; urls := None; formats := None;
     thumbnails := None; subtitles := None; upload_date := upload_date;
     ext := None; webpage_url := None |}.

End InfoWords.

Module EntriesWords.
Import Sync SyncWords.

(** The verdict of [skipImport] of the revision on entries, which does not
    depend on the world either. *)
Definition entryVerdict (env : SyncChannelEntries.Env) (channel : MChannel)
    (onlyAfter : option Z) (entry : SyncChannelEntries.Entry) : result bool :=
  fst (SyncChannelEntries.skipImport env channel
         (SyncChannelEntries.webpageUrl entry) onlyAfter blank).

(** The entries that the loop keeps. *)
Definition keptEntries (env : SyncChannelEntries.Env) (channel : MChannel)
    (onlyAfter : option Z) (entries : list SyncChannelEntries.Entry)
  : list SyncChannelEntries.Entry :=
  filter (fun entry =>
            match entryVerdict env channel onlyAfter entry with
            | Return false => true
            | _ => false
            end) entries.

(** The options given to [buildYoutubeDLImport] for a kept entry. *)
Definition entryImportOptions (user : MUser) (channel : MChannel)
    (channelSync : option MChannelSync) (entry : SyncChannelEntries.Entry)
  : ImportOptions :=
  {| user := user;
     channel := channel;
     targetUrl := SyncChannelEntries.webpageUrl entry;
     channelSync := channelSync;
     importDataOverride :=
       {| privacy := PUBLIC;
          originallyPublishedAt :=
            SyncChannelEntries.entry_originallyPublishedAt entry |} |}.

End EntriesWords.

(* ===================================================================== *)
(** ** The subprocess runner *)
(* ===================================================================== *)

Section RunFacts.

Variable env : CLI.Env.

(** The command line that [run] hands to [execa]. *)
Let argv (url : string) (args : list string) : list string :=
  [CLI.youtubeDLBinaryPath env]
  ++ CLI.wrapWithFFmpegOptions env
       (CLI.wrapWithIPOptions env (CLI.wrapWithProxyOptions env args))
  ++ [url].

Lemma splitLinesFrom_no_LF (s cur : jsstring) :
  ~ In LF cur ->
  Forall (fun line => ~ In LF line) (splitLinesFrom cur s).
Proof.
  revert cur.
  induction s as [s IH] using (well_founded_induction
                                 (Wf_nat.well_founded_ltof _ (@List.length N))).
  intros cur Hcur. destruct s as [|c rest]; simpl.
  - constructor; [|constructor]. now rewrite <- in_rev.
  - assert (Hrev : ~ In LF (rev cur)) by now rewrite <- in_rev.
    assert (Hrest : (Wf_nat.ltof _ (@List.length N)) rest (c :: rest))
      by (unfold Wf_nat.ltof; simpl; lia).
    destruct (N.eqb_spec c LF) as [->|Hc].
    + constructor; [exact Hrev|]. apply IH; [exact Hrest|]. intros [].
    + assert (Hcons : ~ In LF (c :: cur)).
      { intros [E|E]; [now apply Hc|now apply Hcur]. }
      destruct (N.eqb_spec c CR) as [->|_].
      * destruct rest as [|c' rest'].
        -- now apply IH.
        -- destruct (N.eqb_spec c' LF) as [->|_].
           ++ constructor; [exact Hrev|]. apply IH; [|intros []].
              unfold Wf_nat.ltof; simpl; lia.
           ++ now apply IH.
      * now apply IH.
Qed.

(** The only way for [run] to throw an exec error is to be handed one by
    the rejected promise: its own [throw] sits behind the read of
    [output.command]. *)
Lemma run_exec_error_only_rejected (url u : string) (args : list string) :
  CLI.run env url args = Throw (YoutubeDLCLIExecError u) ->
  CLI.execa env (CLI.PYTHON_PATH env) (argv url args)
  = CLI.Rejected (YoutubeDLCLIExecError u).
Proof.
  unfold CLI.run. subst argv. cbv beta.
  destruct (CLI.execa env _ _) as [e|[output|]]; simpl.
  - now intros [= ->].
  - destruct (negb _); [discriminate|].
    destruct (0 <? _)%nat; discriminate.
  - discriminate.
Qed.

Lemma splitLines_no_LF (s : jsstring) :
  Forall (fun line => ~ In LF line) (splitLines s).
Proof. apply splitLinesFrom_no_LF. intros []. Qed.

(** C1, as amended.  When the subprocess yields a result: exit code 0 and
    an empty stderr make the call return, with [undefined] for an empty
    stdout and otherwise the trimmed stdout cut at every line break, none
    of the pieces holding a line feed (a piece may be empty); a non-zero
    exit code throws the retcode error with that code and the URL; exit
    code 0 with a non-empty stderr throws the crash error with the stderr
    text and the URL. *)
Theorem run_exit_classification
    (url : string) (args : list string) (output : CLI.ExecaReturnValue) :
  CLI.execa env (CLI.PYTHON_PATH env) (argv url args)
    = CLI.Fulfilled (Some output) ->
  (CLI.exitCode output = 0 -> CLI.stderr output = [] ->
     (CLI.stdout output = [] -> CLI.run env url args = Return None)
     /\ (CLI.stdout output <> [] ->
           CLI.run env url args
             = Return (Some (splitLines (trim (CLI.stdout output))))
           /\ Forall (fun line => ~ In LF line)
                     (splitLines (trim (CLI.stdout output)))))
  /\ (CLI.exitCode output <> 0 ->
        CLI.run env url args
          = Throw (YoutubeDLCLIRetCodeError (CLI.exitCode output) url))
  /\ (CLI.exitCode output = 0 -> CLI.stderr output <> [] ->
        CLI.run env url args
          = Throw (YoutubeDLCLICrashError (CLI.stderr output) url)).
Proof.
  intros Hexec. unfold CLI.run. subst argv. cbv beta in Hexec.
  rewrite Hexec. unfold CLI.YoutubeDLCLIRetCode_OKAY.
  split; [|split].
  - intros Hcode Herr. rewrite Hcode, Herr. simpl. split.
    + intros Hout. now rewrite Hout.
    + intros Hout. split; [|apply splitLines_no_LF].
      destruct (CLI.stdout output); [contradiction|reflexivity].
  - intros Hcode.
    destruct (Z.eqb_spec (CLI.exitCode output) 0); [contradiction|].
    reflexivity.
  - intros Hcode Herr. rewrite Hcode. simpl.
    destruct (CLI.stderr output); [contradiction|]. reflexivity.
Qed.

End RunFacts.

(** The theorem at a clean exit with two lines of output. *)
Lemma run_exit_classification_witness :
  CLI.run (Samples.cliEnv "youtube-dl"
             (Samples.exited 0 (str "a" ++ [CR; LF] ++ str "b" ++ [LF]) [])
             Samples.noParse)
          Samples.videoUrl []
  = Return (Some [str "a"; str "b"]).
Proof.
  pose proof (run_exit_classification
                (Samples.cliEnv "youtube-dl"
                   (Samples.exited 0 (str "a" ++ [CR; LF] ++ str "b" ++ [LF]) [])
                   Samples.noParse)
                Samples.videoUrl []
                {| CLI.command := "python3 bin/youtube-dl";
                   CLI.exitCode := 0;
                   CLI.stdout := str "a" ++ [CR; LF] ++ str "b" ++ [LF];
                   CLI.stderr := [] |}
                eq_refl) as [Hok _].
  destruct (Hok eq_refl eq_refl) as [_ Hlines].
  destruct Hlines as [Hrun _]; [discriminate|].
  exact Hrun.
Defined.

(** C1 as stated fails twice.  A clean exit whose stdout has a blank line
    returns an empty line among the lines; and when the awaited subprocess
    yields no result, the debug log reads [output.command] before the
    [!output] test is reached, so a TypeError is thrown, not the exec
    error, while a promise that rejects because the process could not be
    spawned passes its own error on. *)
Lemma run_claim_counterexample :
  (exists lines,
      CLI.run (Samples.cliEnv "youtube-dl"
                 (Samples.exited 0 Samples.twoLinesAndABlank [])
                 Samples.noParse)
              Samples.videoUrl []
      = Return (Some lines)
      /\ In [] lines)
  /\ CLI.run (Samples.cliEnv "youtube-dl" (CLI.Fulfilled None)
                Samples.noParse)
             Samples.videoUrl []
     = Throw (TypeError
                "Cannot read properties of undefined (reading 'command')")
  /\ CLI.run (Samples.cliEnv "youtube-dl"
                (CLI.Rejected (OtherError "spawn python3 ENOENT"))
                Samples.noParse)
             Samples.videoUrl []
     = Throw (OtherError "spawn python3 ENOENT").
Proof.
  split; [|split; reflexivity].
  exists [str "a"; []; str "b"]. split; [reflexivity|].
  right; left; reflexivity.
Qed.

(* ===================================================================== *)
(** ** The format selector chain *)
(* ===================================================================== *)

Section FormatFacts.

Import Selector.

Lemma countChar_append (c : ascii) (a b : string) :
  countChar c (a ++ b)%string = (countChar c a + countChar c b)%nat.
Proof. induction a as [|x a IH]; simpl; [reflexivity|]. rewrite IH. lia. Qed.

Lemma countChar_slash_uint (d : Decimal.uint) :
  countChar "/" (NilEmpty.string_of_uint d) = 0%nat.
Proof. induction d; simpl; auto. Qed.

Lemma countChar_slash_number (n : Z) :
  countChar "/" (numberToString n) = 0%nat.
Proof.
  unfold numberToString, NilZero.string_of_int, NilZero.string_of_uint.
  destruct (Z.to_int n) as [d|d]; destruct d; simpl;
    try reflexivity; apply countChar_slash_uint.
Qed.

Lemma fold_left_max_ge (l : list Z) (a : Z) :
  a <= fold_left Z.max l a /\ Forall (fun x => x <= fold_left Z.max l a) l.
Proof.
  revert a. induction l as [|x l IH]; intros a; simpl.
  - split; [lia|constructor].
  - destruct (IH (Z.max a x)) as [Hge Hall]. split; [lia|].
    constructor; [lia|exact Hall].
Qed.

Lemma fold_left_max_in (l : list Z) (a : Z) :
  fold_left Z.max l a = a \/ In (fold_left Z.max l a) l.
Proof.
  revert a. induction l as [|x l IH]; intros a; simpl; [now left|].
  destruct (IH (Z.max a x)) as [E|Hin]; [|now right; right].
  rewrite E. destruct (Z.max_spec a x) as [[_ ->]|[_ ->]]; auto.
Qed.

(** The resolution asked for is 1080 for an empty set and otherwise the
    greatest member of the set. *)
Lemma targetResolution_max (enabledResolutions : list Z) :
  match enabledResolutions with
  | [] => CLI.targetResolution enabledResolutions = 1080
  | _ :: _ =>
      In (CLI.targetResolution enabledResolutions) enabledResolutions
      /\ Forall (fun r => r <= CLI.targetResolution enabledResolutions)
                enabledResolutions
  end.
Proof.
  destruct enabledResolutions as [|r rs]; [reflexivity|].
  unfold CLI.targetResolution.
  destruct (fold_left_max_ge rs r) as [Hge Hall].
  destruct (fold_left_max_in rs r) as [E|Hin].
  - split; [left; now rewrite E|]. constructor; assumption.
  - split; [now right|]. constructor; assumption.
Qed.

Lemma resolutionTiers_restricted (resolution : Z) :
  Forall (fun tier => codecRestricted tier = true)
         (CLI.resolutionTiers resolution).
Proof.
  unfold CLI.resolutionTiers.
  constructor; [|constructor; [|constructor; [|constructor]]];
    unfold codecRestricted.
  - match goal with |- _ || requiresAvc1 ?t = true =>
      assert (E : requiresAvc1 t = true) by reflexivity end.
    rewrite E. apply orb_true_r.
  - match goal with |- excludesCodecs ?t || _ = true =>
      assert (E : excludesCodecs t = true) by reflexivity end.
    rewrite E. reflexivity.
  - match goal with |- _ || requiresAvc1 ?t = true =>
      assert (E : requiresAvc1 t = true) by reflexivity end.
    rewrite E. apply orb_true_r.
Qed.

Lemma chain_tierCount (enabledResolutions : list Z) (useBestFormat : bool) :
  tierCount (CLI.getYoutubeDLVideoFormat enabledResolutions useBestFormat)
  = List.length (CLI.formatTiers enabledResolutions useBestFormat).
Proof.
  unfold tierCount, CLI.getYoutubeDLVideoFormat, CLI.formatTiers.
  destruct useBestFormat; [reflexivity|].
  generalize (CLI.targetResolution enabledResolutions) as r. intros r.
  unfold CLI.resolutionTiers. cbn.
  repeat (rewrite ?countChar_append, ?countChar_slash_number; cbn).
  reflexivity.
Qed.

(** C8, as amended.  The chain is the tiers joined by slashes, in the
    order of the array: the three tiers for the target resolution unless
    the best format is asked for, then the four fallback tiers, so 3 + 4
    or 4 of them; the target resolution is the greatest enabled one, or
    1080 when none is enabled; every tier but the last two either filters
    out av01 and vp9.2 by name or asks for avc1; the last two tiers,
    [bestvideo[ext=mp4]+bestaudio[ext=m4a]] and [best], have no codec
    filter. *)
Theorem format_chain_tiers
    (enabledResolutions : list Z) (useBestFormat : bool) :
  let tiers := CLI.formatTiers enabledResolutions useBestFormat in
  let chain := CLI.getYoutubeDLVideoFormat enabledResolutions useBestFormat in
  chain = String.concat "/" tiers
  /\ List.length tiers = ((if useBestFormat then 0 else 3) + 4)%nat
  /\ tierCount chain = List.length tiers
  /\ tiers
     = (if useBestFormat then []
        else CLI.resolutionTiers (CLI.targetResolution enabledResolutions))
       ++ CLI.fallbackTiers
  /\ match enabledResolutions with
     | [] => CLI.targetResolution enabledResolutions = 1080
     | _ :: _ =>
         In (CLI.targetResolution enabledResolutions) enabledResolutions
         /\ Forall (fun r => r <= CLI.targetResolution enabledResolutions)
                   enabledResolutions
     end
  /\ exists restricted,
       tiers = restricted ++ [ "bestvideo[ext=mp4]+bestaudio[ext=m4a]"; "best" ]
       /\ Forall (fun tier => codecRestricted tier = true) restricted
       /\ contains "vcodec" "bestvideo[ext=mp4]+bestaudio[ext=m4a]" = false
       /\ contains "vcodec" "best" = false.
Proof.
  cbv zeta. split; [reflexivity|]. split.
  { unfold CLI.formatTiers. now destruct useBestFormat. }
  split; [apply chain_tierCount|]. split.
  { unfold CLI.formatTiers. now destruct useBestFormat. }
  split; [apply targetResolution_max|].
  exists ((if useBestFormat then []
           else CLI.resolutionTiers (CLI.targetResolution enabledResolutions))
          ++ [ "bestvideo[vcodec!*=av01][vcodec!*=vp9.2]+bestaudio";
               "best[vcodec!*=av01][vcodec!*=vp9.2]" ]).
  split.
  { unfold CLI.formatTiers. destruct useBestFormat; reflexivity. }
  split; [|split; reflexivity].
  apply Forall_app. split.
  - destruct useBestFormat; [constructor|apply resolutionTiers_restricted].
  - repeat constructor.
Qed.

End FormatFacts.

(** C8 as stated fails on the last tier of every chain: [best] names no
    codec at all, so nothing keeps av01 or vp9.2 out of it. *)
Lemma format_chain_claim_counterexample :
  In "best" (CLI.formatTiers [720; 1080] false)
  /\ Selector.contains "av01" "best" = false
  /\ Selector.contains "vp9.2" "best" = false
  /\ Selector.codecRestricted "best" = false
  /\ ~ Forall (fun tier => Selector.codecRestricted tier = true)
             (CLI.formatTiers [720; 1080] false).
Proof.
  split; [cbn; tauto|]. repeat (split; [reflexivity|]).
  rewrite Forall_forall. intros H.
  specialize (H "best"). cbn in H.
  assert (E : Selector.codecRestricted "best" = true) by (apply H; tauto).
  discriminate E.
Qed.

(* ===================================================================== *)
(** ** The playlist merge *)
(* ===================================================================== *)

Section MergeFacts.

Variable flatList : list CLI.YoutubeDLCLIResult.

(** The flat-pass record that [find] picks for an item. *)
Let flatItemOf (item : CLI.YoutubeDLCLIResult) :=
  find (fun o => CLI.looseEq (CLI.webpage_url o) (CLI.webpage_url item))
       flatList.

Lemma mergeItem_timestamp (item : CLI.YoutubeDLCLIResult) :
  CLI.timestamp (CLI.mergeItem flatList item)
  = if CLI.positive (CLI.optTimestamp (flatItemOf item))
    then CLI.optTimestamp (flatItemOf item)
    else CLI.timestamp item.
Proof.
  unfold CLI.mergeItem. fold (flatItemOf item).
  destruct (CLI.positive (CLI.optTimestamp (flatItemOf item)));
    destruct (CLI.positive (CLI.optReleaseTimestamp (flatItemOf item)));
    reflexivity.
Qed.

Lemma mergeItem_release_timestamp (item : CLI.YoutubeDLCLIResult) :
  CLI.release_timestamp (CLI.mergeItem flatList item)
  = if CLI.positive (CLI.optReleaseTimestamp (flatItemOf item))
    then CLI.optReleaseTimestamp (flatItemOf item)
    else CLI.release_timestamp item.
Proof.
  unfold CLI.mergeItem. fold (flatItemOf item).
  destruct (CLI.positive (CLI.optTimestamp (flatItemOf item)));
    destruct (CLI.positive (CLI.optReleaseTimestamp (flatItemOf item)));
    reflexivity.
Qed.

Lemma mergeItem_webpage_url (item : CLI.YoutubeDLCLIResult) :
  CLI.webpage_url (CLI.mergeItem flatList item) = CLI.webpage_url item.
Proof.
  unfold CLI.mergeItem. fold (flatItemOf item).
  destruct (CLI.positive (CLI.optTimestamp (flatItemOf item)));
    destruct (CLI.positive (CLI.optReleaseTimestamp (flatItemOf item)));
    reflexivity.
Qed.

Lemma positive_spec (v : option Z) :
  CLI.positive v = true <-> exists t, v = Some t /\ 0 < t.
Proof.
  destruct v as [t|]; simpl.
  - rewrite Z.ltb_lt. split; [intros H; now exists t|].
    intros [t' [[= <-] H]]. exact H.
  - split; [discriminate|]. intros [t [[=] _]].
Qed.

Lemma not_positive (v : option Z) :
  (forall t, v = Some t -> t <= 0) -> CLI.positive v = false.
Proof.
  destruct v as [t|]; simpl; [|reflexivity].
  intros H. apply Z.ltb_ge. now apply H.
Qed.

(** The merged array when both passes gave arrays: the detailed one,
    entry by entry through [mergeItem], or untouched when the flat one is
    empty. *)
Lemma mergeLists_arrays (lst : list CLI.YoutubeDLCLIResult) :
  CLI.mergeLists (CLI.Many flatList) (CLI.Many lst)
  = Return (CLI.Many (map (CLI.mergeItem flatList) lst)).
Proof.
  unfold CLI.mergeLists. destruct flatList as [|f fl] eqn:E; simpl.
  - f_equal. f_equal. unfold CLI.mergeItem. simpl.
    induction lst as [|x l IH]; simpl; [reflexivity|]. now rewrite <- IH.
  - reflexivity.
Qed.

(** C9.  Merging a detailed listing with a flat one returns an array of
    the same length in which every entry keeps its URL, and whose
    timestamp (and likewise release timestamp) is the detailed value
    unless the flat record found for that URL has a strictly positive
    one, which then replaces it; so a change of value implies a positive
    flat value, and a flat value that is absent or not positive leaves
    the detailed value as it was. *)
Theorem merge_overrides_only_when_positive
    (lst : list CLI.YoutubeDLCLIResult) :
  exists merged,
    CLI.mergeLists (CLI.Many flatList) (CLI.Many lst)
      = Return (CLI.Many merged)
    /\ List.length merged = List.length lst
    /\ forall i item,
         nth_error lst i = Some item ->
         exists item',
           nth_error merged i = Some item'
           /\ CLI.webpage_url item' = CLI.webpage_url item
           /\ (CLI.timestamp item' <> CLI.timestamp item ->
                 exists t, CLI.optTimestamp (flatItemOf item) = Some t
                           /\ 0 < t /\ CLI.timestamp item' = Some t)
           /\ ((forall t, CLI.optTimestamp (flatItemOf item) = Some t ->
                            t <= 0) ->
                 CLI.timestamp item' = CLI.timestamp item)
           /\ (CLI.release_timestamp item' <> CLI.release_timestamp item ->
                 exists t, CLI.optReleaseTimestamp (flatItemOf item) = Some t
                           /\ 0 < t /\ CLI.release_timestamp item' = Some t)
           /\ ((forall t, CLI.optReleaseTimestamp (flatItemOf item) = Some t ->
                            t <= 0) ->
                 CLI.release_timestamp item' = CLI.release_timestamp item).
Proof.
  exists (map (CLI.mergeItem flatList) lst).
  split; [apply mergeLists_arrays|]. split; [apply length_map|].
  intros i item Hi. exists (CLI.mergeItem flatList item).
  split; [now apply map_nth_error|].
  split; [apply mergeItem_webpage_url|].
  rewrite mergeItem_timestamp, mergeItem_release_timestamp.
  split; [|split; [|split]].
  - destruct (CLI.positive _) eqn:P; [|congruence]. intros _.
    apply positive_spec in P. destruct P as [t [E Ht]].
    exists t. now rewrite E.
  - intros Hle. now rewrite (not_positive _ Hle).
  - destruct (CLI.positive (CLI.optReleaseTimestamp _)) eqn:P; [|congruence].
    intros _. apply positive_spec in P. destruct P as [t [E Ht]].
    exists t. now rewrite E.
  - intros Hle. now rewrite (not_positive _ Hle).
Qed.

End MergeFacts.

(** The theorem on two entries: the zero flat timestamp of [a] leaves the
    detailed one; the positive flat values of [b] are adopted. *)
Lemma merge_overrides_only_when_positive_witness :
  exists merged,
    CLI.mergeLists (CLI.Many Samples.flatPass) (CLI.Many Samples.detailedPass)
      = Return (CLI.Many merged)
    /\ nth_error merged 0 = Some (Samples.entry "a" (Some 1600000000) None)
    /\ nth_error merged 1
       = Some (Samples.entry "b" (Some 1700000000) (Some 1700000500)).
Proof.
  destruct (merge_overrides_only_when_positive
              Samples.flatPass Samples.detailedPass) as [merged [E [_ Hall]]].
  exists merged. split; [exact E|].
  destruct (Hall 0%nat (Samples.entry "a" (Some 1600000000) None) eq_refl)
    as [a' [Ha [_ [_ [Hkeep _]]]]].
  assert (Hzero : forall t, Some 0 = Some t -> t <= 0)
    by (intros t [= <-]; lia).
  specialize (Hkeep Hzero).
  injection E as E. subst merged. split; reflexivity.
Defined.

(* ===================================================================== *)
(** ** getInfo and getInfoForDownload *)
(* ===================================================================== *)

Section InfoFacts.

Lemma getInfo_run_failure (env : CLI.Env) (url format : string)
    (args : list string) :
  (exists e, CLI.run env url (CLI.getInfoArgs env format args) = Throw e)
  \/ CLI.run env url (CLI.getInfoArgs env format args) = Return None ->
  CLI.getInfo env url format args = Return CLI.Undefined.
Proof.
  unfold CLI.getInfo. intros [[e ->]| ->]; reflexivity.
Qed.

Lemma parseLines_throw (env : CLI.Env) (data : list jsstring) (e : Error) :
  CLI.parseLines env data = Throw e ->
  exists d, In d data /\ CLI.JSON_parse env d = Throw e.
Proof.
  induction data as [|d data IH]; simpl; [discriminate|].
  destruct (CLI.JSON_parse env d) as [r|e'] eqn:P.
  - destruct (CLI.parseLines env data) as [rs|e'']; [discriminate|].
    intros [= <-]. destruct (IH eq_refl) as [d' [Hin Hd']].
    exists d'. split; [now right|exact Hd'].
  - intros [= <-]. exists d. split; [now left|exact P].
Qed.

(** Whatever [getInfo] throws was thrown by [JSON.parse] on a line that
    [run] returned. *)
Lemma getInfo_throw_is_parse_error (env : CLI.Env) (url format : string)
    (args : list string) (e : Error) :
  CLI.getInfo env url format args = Throw e ->
  exists data d,
    CLI.run env url (CLI.getInfoArgs env format args) = Return (Some data)
    /\ In d data /\ CLI.JSON_parse env d = Throw e.
Proof.
  unfold CLI.getInfo.
  destruct (CLI.run env url (CLI.getInfoArgs env format args)) as [[data|]|e'];
    try discriminate.
  destruct (CLI.parseLines env data) as [info|e''] eqn:P; [discriminate|].
  intros [= <-]. destruct (parseLines_throw env data e'' P) as [d [Hin Hd]].
  exists data, d. auto.
Qed.

(** C10.  For every URL, format and argument list: when [run] throws,
    whatever the error, or returns no data, [getInfo] does not throw but
    returns [undefined]; the only errors that leave [getInfo] are those of
    [JSON.parse]; and [getInfoForDownload], once [safeGet] has handed out
    the runner, turns the [undefined] into a NoInfoError for the wrapper's
    URL. *)
Theorem getInfo_swallows_run_errors
    (env : Wrapper.Env) (this : Wrapper.YoutubeDLWrapper)
    (youtubeDLArgs : list string) :
  (forall url format args,
      (exists e,
          CLI.run (Wrapper.cli env) url
            (CLI.getInfoArgs (Wrapper.cli env) format args) = Throw e)
      \/ CLI.run (Wrapper.cli env) url
           (CLI.getInfoArgs (Wrapper.cli env) format args) = Return None ->
      CLI.getInfo (Wrapper.cli env) url format args = Return CLI.Undefined)
  /\ (forall url format args e,
        CLI.getInfo (Wrapper.cli env) url format args = Throw e ->
        exists data d,
          CLI.run (Wrapper.cli env) url
            (CLI.getInfoArgs (Wrapper.cli env) format args)
          = Return (Some data)
          /\ In d data /\ CLI.JSON_parse (Wrapper.cli env) d = Throw e)
  /\ (CLI.getInfo (Wrapper.cli env) (Wrapper.url this)
        (CLI.getYoutubeDLVideoFormat (Wrapper.enabledResolutions this)
           (Wrapper.useBestFormat this))
        youtubeDLArgs = Return CLI.Undefined ->
      Wrapper.getInfoForDownload env this youtubeDLArgs
      = match Wrapper.safeGet env with
        | Throw e => Throw e
        | Return _ => Throw (YoutubeDLNoInfoError (Wrapper.url this))
        end).
Proof.
  split; [|split].
  - intros url format args. apply getInfo_run_failure.
  - intros url format args e. apply getInfo_throw_is_parse_error.
  - intros H. unfold Wrapper.getInfoForDownload. now rewrite H.
Qed.

(** A listing that comes back empty is an error; the wrapper returns an
    empty list of candidates only when every listed entry is still to be
    released. *)
Lemma getInfoForListImport_empty_listing
    (env : Wrapper.Env) (this : Wrapper.YoutubeDLWrapper)
    (latestVideosCount : option Z) :
  CLI.getListInfo (Wrapper.cli env) (Wrapper.url this) latestVideosCount
  = Return (CLI.Many []) ->
  Wrapper.getInfoForListImport env this latestVideosCount
  = match Wrapper.safeGet env with
    | Throw e => Throw e
    | Return _ =>
        Throw (OtherError
                 ("YoutubeDL could not get info from " ++ Wrapper.url this))
    end.
Proof.
  intros H. unfold Wrapper.getInfoForListImport. now rewrite H.
Qed.

End InfoFacts.

(** The theorem on a subprocess that exits with code 1. *)
Lemma getInfo_swallows_run_errors_witness :
  CLI.run (Samples.cliEnv "yt-dlp" (Samples.exited 1 [] []) Samples.noParse)
          Samples.videoUrl
          (CLI.getInfoArgs
             (Samples.cliEnv "yt-dlp" (Samples.exited 1 [] []) Samples.noParse)
             (CLI.getYoutubeDLVideoFormat [ 720; 1080 ] false) [])
  = Throw (YoutubeDLCLIRetCodeError 1 Samples.videoUrl)
  /\ Wrapper.getInfoForDownload
       (Samples.wrapperEnv
          (Samples.cliEnv "yt-dlp" (Samples.exited 1 [] [])
             Samples.noParse))
       Samples.videoWrapper []
     = Throw (YoutubeDLNoInfoError Samples.videoUrl).
Proof.
  split; [reflexivity|].
  destruct (getInfo_swallows_run_errors
              (Samples.wrapperEnv
                 (Samples.cliEnv "yt-dlp" (Samples.exited 1 [] [])
                    Samples.noParse))
              Samples.videoWrapper []) as [Hswallow [_ Hsurface]].
  rewrite Hsurface; [reflexivity|]. apply Hswallow.
  left. eexists. reflexivity.
Defined.

(* ===================================================================== *)
(** ** Double-precision rounding *)
(* ===================================================================== *)

Module Binary64Facts.
Import Binary64.
Local Open Scope Q_scope.

Lemma pow2_pos (k : Z) : 0 < pow2 k.
Proof. unfold pow2. apply Qpower_0_lt. reflexivity. Qed.

Lemma pow2_add (a b : Z) : pow2 (a + b) == pow2 a * pow2 b.
Proof. unfold pow2. apply Qpower_plus. discriminate. Qed.

Lemma pow2_int_52 : pow2 52 = inject_Z 4503599627370496.
Proof. reflexivity. Qed.

Lemma pow2_int_53 : pow2 53 = inject_Z 9007199254740992.
Proof. reflexivity. Qed.

Lemma pow2_le (a b : Z) : (a <= b)%Z -> pow2 a <= pow2 b.
Proof.
  intros H. unfold pow2. apply Qpower_le_compat_l; [exact H|discriminate].
Qed.

(** The rounded integer is the floor or the one above. *)
Lemma roundHalfEven_floor (m : Q) :
  (Qfloor m <= roundHalfEven m <= Qfloor m + 1)%Z.
Proof.
  unfold roundHalfEven.
  destruct (Qcompare (m - inject_Z (Qfloor m)) (1 # 2)); [|lia|lia].
  destruct (Z.even (Qfloor m)); lia.
Qed.

(** Rounding to the nearest integer keeps the order. *)
Lemma roundHalfEven_le (m1 m2 : Q) :
  m1 <= m2 -> (roundHalfEven m1 <= roundHalfEven m2)%Z.
Proof.
  intros Hle.
  pose proof (Qfloor_resp_le _ _ Hle) as Hf.
  pose proof (roundHalfEven_floor m1) as H1.
  pose proof (roundHalfEven_floor m2) as H2.
  destruct (Z.eq_dec (Qfloor m1) (Qfloor m2)) as [E|NE]; [|lia].
  clear H1 H2. unfold roundHalfEven. rewrite E.
  destruct (Qcompare_spec (m1 - inject_Z (Qfloor m2)) (1 # 2)) as [C1|C1|C1];
    destruct (Qcompare_spec (m2 - inject_Z (Qfloor m2)) (1 # 2)) as [C2|C2|C2];
    try lra; try lia; destruct (Z.even (Qfloor m2)); lia.
Qed.

Lemma roundHalfEven_Z (k : Z) : roundHalfEven (inject_Z k) = k.
Proof.
  unfold roundHalfEven. rewrite Qfloor_Z.
  destruct (Qcompare_spec (inject_Z k - inject_Z k) (1 # 2)) as [C|C|C];
    [lra|reflexivity|lra].
Qed.

(** It moves a number by at most one half. *)
Lemma roundHalfEven_error (m : Q) :
  m - (1 # 2) <= inject_Z (roundHalfEven m) <= m + (1 # 2).
Proof.
  pose proof (Qfloor_le m) as Hlo. pose proof (Qlt_floor m) as Hhi.
  rewrite inject_Z_plus in Hhi. change (inject_Z 1) with 1 in Hhi.
  unfold roundHalfEven.
  destruct (Qcompare_spec (m - inject_Z (Qfloor m)) (1 # 2)) as [C|C|C].
  - destruct (Z.even (Qfloor m)); [lra|].
    rewrite inject_Z_plus. change (inject_Z 1) with 1. lra.
  - lra.
  - rewrite inject_Z_plus. change (inject_Z 1) with 1. lra.
Qed.

Lemma pow2_Z (k : Z) : (0 <= k)%Z -> pow2 k == inject_Z (2 ^ k).
Proof. intros H. unfold pow2. now rewrite Zpower_Qpower. Qed.

(** [binaryExponent] brackets a positive number between two powers of 2. *)
Lemma binaryExponent_spec (a : Q) :
  0 < a ->
  pow2 (binaryExponent a) <= a /\ a < pow2 (binaryExponent a + 1).
Proof.
  intros Ha. unfold binaryExponent. cbv zeta.
  destruct a as [n d]. cbn [Qnum Qden].
  assert (Hn : (0 < n)%Z).
  { unfold Qlt in Ha. cbn in Ha. lia. }
  pose proof (Z.log2_spec n Hn) as [Nlo Nhi].
  pose proof (Z.log2_spec (Z.pos d) eq_refl) as [Dlo Dhi].
  pose proof (Z.log2_nonneg n) as An.
  pose proof (Z.log2_nonneg (Z.pos d)) as Ad.
  set (A := Z.log2 n) in *. set (B := Z.log2 (Z.pos d)) in *.
  rewrite Z.pow_succ_r in Nhi, Dhi by assumption.
  rewrite Zle_Qle in Nlo, Dlo. rewrite Zlt_Qlt in Nhi, Dhi.
  rewrite inject_Z_mult in Nhi, Dhi.
  rewrite <- !pow2_Z in * by assumption.
  change (inject_Z 2) with 2 in *.
  assert (Hk : pow2 (A - B) * pow2 B == pow2 A).
  { rewrite <- pow2_add. now replace (A - B + B)%Z with A by lia. }
  assert (Hk1 : pow2 (A - B + 1) == 2 * pow2 (A - B)).
  { rewrite pow2_add. change (pow2 1) with 2. ring. }
  assert (Hk0 : 2 * pow2 (A - B - 1) == pow2 (A - B)).
  { change 2 with (pow2 1) at 1. rewrite <- pow2_add.
    now replace (1 + (A - B - 1))%Z with (A - B)%Z by lia. }
  pose proof (pow2_pos A) as PA. pose proof (pow2_pos B) as PB.
  pose proof (pow2_pos (A - B)) as PK.
  pose proof (pow2_pos (A - B - 1)) as PK0.
  assert (Hx : (n # d) * inject_Z (Z.pos d) == inject_Z n).
  { rewrite (Qmake_Qdiv n d). field. discriminate. }
  assert (PD : 0 < inject_Z (Z.pos d)) by reflexivity.
  set (x := n # d) in *. set (N := inject_Z n) in *.
  set (D := inject_Z (Z.pos d)) in *.
  set (pa := pow2 A) in *. set (pb := pow2 B) in *.
  assert (Hup : x < 2 * pow2 (A - B)).
  { apply Qnot_le_lt. intros C.
    assert (2 * pow2 (A - B) * pb <= x * D).
    { apply Qle_trans with (x * pb).
      - apply Qmult_le_compat_r; lra.
      - rewrite !(Qmult_comm x). apply Qmult_le_compat_r; lra. }
    assert (2 * pow2 (A - B) * pb == 2 * pa) by (rewrite <- Hk; ring).
    lra. }
  assert (Hdown : pow2 (A - B - 1) <= x).
  { apply Qnot_lt_le. intros C.
    assert (x * D < pow2 (A - B - 1) * (2 * pb)).
    { apply Qmult_lt_compat_nonneg; split; lra. }
    assert (pow2 (A - B - 1) * (2 * pb) == pa) by (rewrite <- Hk, <- Hk0; ring).
    lra. }
  destruct (Qle_bool (pow2 (A - B)) x) eqn:C.
  - apply Qle_bool_iff in C. split; [exact C|]. now rewrite Hk1.
  - split; [exact Hdown|].
    replace (A - B - 1 + 1)%Z with (A - B)%Z by lia.
    apply Qnot_le_lt. intros H. apply Qle_bool_iff in H. congruence.
Qed.

Lemma pow2_lt_inv (a b : Z) : pow2 a < pow2 b -> (a < b)%Z.
Proof.
  intros H. unfold pow2 in H.
  apply Qpower_lt_compat_l_inv in H; [exact H|reflexivity].
Qed.

Lemma binaryExponent_le (a b : Q) :
  0 < a -> a <= b -> (binaryExponent a <= binaryExponent b)%Z.
Proof.
  intros Ha Hab.
  destruct (binaryExponent_spec a Ha) as [La _].
  destruct (binaryExponent_spec b) as [_ Ub]; [lra|].
  assert (H : pow2 (binaryExponent a) < pow2 (binaryExponent b + 1)) by lra.
  apply pow2_lt_inv in H. lia.
Qed.

Lemma exponent_le (x y : Q) :
  0 < x -> x <= y -> (exponent x <= exponent y)%Z.
Proof.
  intros Hx Hxy. unfold exponent.
  assert (H : (binaryExponent (Qabs x) <= binaryExponent (Qabs y))%Z).
  { apply binaryExponent_le; rewrite !Qabs_pos by lra; lra. }
  lia.
Qed.

Lemma exponent_min (x : Q) : (-1074 <= exponent x)%Z.
Proof. unfold exponent. lia. Qed.

(** A number in a binade above the lowest is at least 2^52 units of it. *)
Lemma exponent_low (x : Q) :
  0 < x -> (-1074 < exponent x)%Z -> pow2 (exponent x + 52) <= x.
Proof.
  intros Hx H. unfold exponent in *.
  destruct (binaryExponent_spec (Qabs x)) as [L _];
    [rewrite Qabs_pos; lra|].
  rewrite Qabs_pos in L at 2 by lra.
  replace (Z.max (-1074) (binaryExponent (Qabs x) - 52) + 52)%Z
    with (binaryExponent (Qabs x)) by lia.
  exact L.
Qed.

(** A positive number is less than 2^53 units of its binade. *)
Lemma exponent_high (x : Q) : 0 < x -> x < pow2 (exponent x + 53).
Proof.
  intros Hx. unfold exponent.
  destruct (binaryExponent_spec (Qabs x)) as [_ U];
    [rewrite Qabs_pos; lra|].
  rewrite Qabs_pos in U at 1 by lra.
  apply Qlt_le_trans with (1 := U). apply pow2_le. lia.
Qed.

Lemma round_eq (x : Q) :
  round x == inject_Z (roundHalfEven (x / pow2 (exponent x))) * pow2 (exponent x).
Proof. unfold round. cbv zeta. apply Qred_correct. Qed.

Lemma scaled_le (x y : Q) (e : Z) : x <= y -> x / pow2 e <= y / pow2 e.
Proof.
  intros H. unfold Qdiv. apply Qmult_le_compat_r; [exact H|].
  apply Qinv_le_0_compat. apply Qlt_le_weak, pow2_pos.
Qed.

Lemma roundHalfEven_zero (m : Q) : m == 0 -> roundHalfEven m = 0%Z.
Proof.
  intros H. apply Z.le_antisymm.
  - rewrite <- (roundHalfEven_Z 0). apply roundHalfEven_le.
    change (inject_Z 0) with 0. lra.
  - rewrite <- (roundHalfEven_Z 0) at 1. apply roundHalfEven_le.
    change (inject_Z 0) with 0. lra.
Qed.

Lemma round_zero (x : Q) : x == 0 -> round x == 0.
Proof.
  intros H. rewrite round_eq, roundHalfEven_zero; [reflexivity|].
  unfold Qdiv. set (q := / pow2 (exponent x)). clearbody q.
  rewrite H. ring.
Qed.

Lemma round_nonneg (x : Q) : 0 <= x -> 0 <= round x.
Proof.
  intros Hx. rewrite round_eq.
  apply Qmult_le_0_compat; [|apply Qlt_le_weak, pow2_pos].
  change 0 with (inject_Z 0). rewrite <- Zle_Qle.
  rewrite <- (roundHalfEven_Z 0) at 1. apply roundHalfEven_le.
  change (inject_Z 0) with 0.
  apply Qle_shift_div_l; [apply pow2_pos|]. lra.
Qed.

(** Rounding keeps the order of non-negative numbers. *)
Lemma round_le (x y : Q) : 0 <= x -> x <= y -> round x <= round y.
Proof.
  intros Hx Hxy.
  destruct (Qlt_le_dec 0 x) as [Hpos|Hzero].
  2:{ rewrite (round_zero x) by lra. apply round_nonneg. lra. }
  rewrite !round_eq.
  pose proof (exponent_le x y Hpos Hxy) as He.
  pose proof (exponent_min x) as Rx.
  destruct (Z.eq_dec (exponent x) (exponent y)) as [E|NE].
  - rewrite E. apply Qmult_le_compat_r; [|apply Qlt_le_weak, pow2_pos].
    rewrite <- Zle_Qle. apply roundHalfEven_le. now apply scaled_le.
  - pose proof (exponent_high x Hpos) as Hhigh.
    assert (Hlow : pow2 (exponent y + 52) <= y)
      by (apply exponent_low; [lra|lia]).
    apply Qle_trans with (pow2 (exponent x + 53)).
    + rewrite (Z.add_comm (exponent x) 53), pow2_add.
      apply Qmult_le_compat_r; [|apply Qlt_le_weak, pow2_pos].
      rewrite pow2_int_53.
      rewrite <- Zle_Qle. rewrite <- (roundHalfEven_Z 9007199254740992).
      apply roundHalfEven_le.
      apply Qle_shift_div_r; [apply pow2_pos|].
      rewrite <- pow2_int_53.
      rewrite <- pow2_add, Z.add_comm. now apply Qlt_le_weak.
    + apply Qle_trans with (pow2 (exponent y + 52)).
      * apply pow2_le. lia.
      * rewrite (Z.add_comm (exponent y) 52), pow2_add.
        apply Qmult_le_compat_r; [|apply Qlt_le_weak, pow2_pos].
        rewrite pow2_int_52.
        rewrite <- Zle_Qle. rewrite <- (roundHalfEven_Z 4503599627370496) at 1.
        apply roundHalfEven_le.
        apply Qle_shift_div_l; [apply pow2_pos|].
        rewrite <- pow2_int_52.
        rewrite <- pow2_add, Z.add_comm. exact Hlow.
Qed.

(** Rounding moves a number by at most half a unit in the last place. *)
Lemma round_error (x : Q) :
  x - pow2 (exponent x) * (1 # 2) <= round x
  /\ round x <= x + pow2 (exponent x) * (1 # 2).
Proof.
  rewrite round_eq.
  pose proof (pow2_pos (exponent x)) as Hp.
  pose proof (roundHalfEven_error (x / pow2 (exponent x))) as [Hlo Hhi].
  set (p := pow2 (exponent x)) in *. clearbody p.
  assert (Hx : x / p * p == x) by (field; lra).
  apply (Qmult_le_compat_r _ _ p) in Hlo; [|lra].
  apply (Qmult_le_compat_r _ _ p) in Hhi; [|lra].
  set (r := inject_Z (roundHalfEven (x / p))) in *.
  set (m := x / p) in *.
  split; lra.
Qed.

(** Away from the subnormal range, rounding moves a number by at most
    2^-53 of itself. *)
Lemma round_relative (x : Q) :
  pow2 (-1022) <= x ->
  x - x * pow2 (-53) <= round x /\ round x <= x + x * pow2 (-53).
Proof.
  intros Hx.
  assert (Hpos : 0 < x) by (pose proof (pow2_pos (-1022)); lra).
  assert (He : pow2 (exponent x) <= x * pow2 (-52)).
  { pose proof (exponent_min x) as Hge.
    pose proof (pow2_pos (-52)) as H52.
    destruct (Z.eq_dec (exponent x) (-1074)) as [E|NE].
    - rewrite E.
      setoid_replace (pow2 (-1074)) with (pow2 (-1022) * pow2 (-52))
        by (rewrite <- pow2_add; reflexivity).
      apply Qmult_le_compat_r; [exact Hx|lra].
    - assert (Hlow : pow2 (exponent x + 52) <= x)
        by (apply exponent_low; [lra|lia]).
      setoid_replace (pow2 (exponent x))
        with (pow2 (exponent x + 52) * pow2 (-52)).
      + apply Qmult_le_compat_r; [exact Hlow|lra].
      + rewrite <- pow2_add.
        now replace (exponent x + 52 + -52)%Z with (exponent x) by lia. }
  pose proof (round_error x) as [Hlo Hhi].
  assert (Hu : pow2 (-53) == pow2 (-52) * (1 # 2)) by reflexivity.
  rewrite Hu.
  set (p := pow2 (exponent x)) in *. set (q := pow2 (-52)) in *.
  split; lra.
Qed.

End Binary64Facts.

(* ===================================================================== *)
(** ** Quick-transcode verdicts and the target bitrate *)
(* ===================================================================== *)

Section TranscodeFacts.

Import Transcode.

Lemma differs_false_iff (s : option string) (lit : string) :
  differs s lit = false <-> s = Some lit.
Proof.
  destruct s as [x|]; simpl.
  - rewrite negb_false_iff, String.eqb_eq. split; congruence.
  - split; discriminate.
Qed.

Lemma differs_true_iff (s : option string) (lit : string) :
  differs s lit = true <-> s <> Some lit.
Proof.
  rewrite <- differs_false_iff. destruct (differs s lit); split; congruence.
Qed.

Lemma falsyString_false_iff (s : option string) :
  falsyString s = false <-> exists x, s = Some x /\ x <> "".
Proof.
  destruct s as [x|]; simpl.
  - rewrite String.eqb_neq. split.
    + intros H. now exists x.
    + intros [y [[= <-] H]]. exact H.
  - split; [discriminate|]. intros [x [[=] _]].
Qed.

Lemma Qgtb_false_iff (a b : Q) : Qgtb a b = false <-> (a <= b)%Q.
Proof. unfold Qgtb. rewrite negb_false_iff. apply Qle_bool_iff. Qed.

Lemma Qgtb_true_iff (a b : Q) : Qgtb a b = true <-> (b < a)%Q.
Proof.
  unfold Qgtb. rewrite negb_true_iff. split.
  - intros H. apply Qnot_le_lt. intros Hle.
    apply Qle_bool_iff in Hle. congruence.
  - intros H. destruct (Qle_bool a b) eqn:E; [|reflexivity].
    apply Qle_bool_iff in E. lra.
Qed.

Lemma Qltb_false_iff (a b : Q) : Qltb a b = false <-> (b <= a)%Q.
Proof. unfold Qltb. rewrite negb_false_iff. apply Qle_bool_iff. Qed.

Lemma Qltb_true_iff (a b : Q) : Qltb a b = true <-> (a < b)%Q.
Proof. apply (Qgtb_true_iff b a). Qed.

Lemma Qeq_bool_false_iff (a b : Q) : Qeq_bool a b = false <-> ~ (a == b)%Q.
Proof.
  split.
  - intros H E. apply Qeq_bool_iff in E. congruence.
  - intros H. destruct (Qeq_bool a b) eqn:E; [|reflexivity].
    apply Qeq_bool_iff in E. contradiction.
Qed.

Section Verdicts.

Variable FfprobeData : Type.
Variable ResolutionData : Type.
Variable getAudioStream : string -> option FfprobeData -> ParsedAudio.
Variable getMaxAudioBitrate : string -> Q -> Q.
Variable getVideoStream : string -> option FfprobeData -> option VideoStream.
Variable getVideoStreamFPS : string -> option FfprobeData -> Q.
Variable getVideoStreamBitrate : string -> option FfprobeData -> option Q.
Variable getVideoStreamDimensionsInfo :
  string -> option FfprobeData -> ResolutionData.
Variable getMaxTheoreticalBitrate : ResolutionData -> Q -> Q.

Let audioAcceptable := Transcode.audioAcceptable getMaxAudioBitrate.
Let videoAcceptable :=
  Transcode.videoAcceptable FfprobeData ResolutionData getVideoStream
    getVideoStreamFPS getVideoStreamBitrate getVideoStreamDimensionsInfo
    getMaxTheoreticalBitrate.

Lemma audio_stream_verdict (path : string) (probe : option FfprobeData)
    (stream : AudioStream) :
  audioStream (getAudioStream path probe) = Some stream ->
  canDoQuickAudioTranscode FfprobeData getAudioStream getMaxAudioBitrate
    path probe = true
  <-> audioAcceptable (getAudioStream path probe) stream.
Proof.
  intros Hs.
  unfold canDoQuickAudioTranscode, audioAcceptable, Transcode.audioAcceptable.
  rewrite Hs.
  destruct (differs (audio_codec_name stream) "aac") eqn:Hc.
  { split; [discriminate|]. intros [Hc' _].
    apply differs_false_iff in Hc'. congruence. }
  apply differs_false_iff in Hc.
  destruct (bitrate (getAudioStream path probe)) as [b|].
  2:{ split; [discriminate|]. intros [_ [[b [[=] _]] _]]. }
  destruct (Qeq_bool b 0) eqn:Hz.
  { split; [discriminate|]. intros [_ [[b' [[= <-] [Hn _]]] _]].
    apply Qeq_bool_iff in Hz. contradiction. }
  apply Qeq_bool_false_iff in Hz.
  destruct (negb (Qeq_bool (getMaxAudioBitrate "aac" b) (-1))
            && Qgtb b (getMaxAudioBitrate "aac" b)) eqn:Hm.
  { split; [discriminate|]. intros [_ [[b' [[= <-] [_ Hb]]] _]].
    apply andb_true_iff in Hm. destruct Hm as [Hm1 Hm2].
    apply negb_true_iff, Qeq_bool_false_iff in Hm1.
    apply Qgtb_true_iff in Hm2. destruct Hb as [Hb|Hb]; [contradiction|lra]. }
  assert (Hb : (getMaxAudioBitrate "aac" b == -1)%Q
               \/ (b <= getMaxAudioBitrate "aac" b)%Q).
  { apply andb_false_iff in Hm. destruct Hm as [Hm|Hm].
    - left. apply negb_false_iff in Hm. now apply Qeq_bool_iff.
    - right. now apply Qgtb_false_iff. }
  destruct (falsyString (channel_layout stream)
            || negb (differs (channel_layout stream) "unknown")
            || negb (differs (channel_layout stream) "quad")) eqn:Hl.
  - split; [discriminate|]. intros [_ [_ [layout [El [H1 [H2 H3]]]]]].
    rewrite El in Hl. simpl in Hl.
    apply String.eqb_neq in H1, H2, H3.
    rewrite H1, H2, H3 in Hl. discriminate.
  - split; [intros _|reflexivity].
    apply orb_false_iff in Hl. destruct Hl as [Hl H3].
    apply orb_false_iff in Hl. destruct Hl as [H1 H2].
    apply falsyString_false_iff in H1. destruct H1 as [layout [El Hne]].
    apply negb_false_iff, differs_true_iff in H2, H3.
    split; [exact Hc|]. split; [now exists b|].
    exists layout. repeat split; congruence.
Qed.

(** C6.  The audio verdict is [true] exactly when there is no audio
    stream, or the stream's codec is aac, a non-zero bitrate is
    reported, that bitrate is at most the AAC maximum for it unless the
    maximum is the -1 that stands for none, and a channel layout is
    given that is neither empty nor [unknown] nor [quad]; an aac stereo
    stream at 128000 with an AAC maximum of 128000 is accepted. *)
Theorem quick_audio_verdict (path : string) (probe : option FfprobeData) :
  (canDoQuickAudioTranscode FfprobeData getAudioStream getMaxAudioBitrate
     path probe = true
   <-> audioStream (getAudioStream path probe) = None
       \/ exists stream,
            audioStream (getAudioStream path probe) = Some stream
            /\ audioAcceptable (getAudioStream path probe) stream)
  /\ (getAudioStream path probe
      = {| audioStream := Some {| audio_codec_name := Some "aac";
                                  channel_layout := Some "stereo" |};
           bitrate := Some 128000%Q |} ->
      (getMaxAudioBitrate "aac" 128000 == 128000)%Q ->
      canDoQuickAudioTranscode FfprobeData getAudioStream
        getMaxAudioBitrate path probe = true).
Proof.
  assert (Hiff :
    canDoQuickAudioTranscode FfprobeData getAudioStream getMaxAudioBitrate
      path probe = true
    <-> audioStream (getAudioStream path probe) = None
        \/ exists stream,
             audioStream (getAudioStream path probe) = Some stream
             /\ audioAcceptable (getAudioStream path probe) stream).
  { destruct (audioStream (getAudioStream path probe)) as [stream|] eqn:Hs.
    - rewrite (audio_stream_verdict path probe stream Hs). split.
      + intros H. right. exists stream. rewrite <- Hs. auto.
      + intros [H|[stream' [[= <-] H]]]; [discriminate|exact H].
    - unfold canDoQuickAudioTranscode. rewrite Hs. split; auto. }
  split; [exact Hiff|].
  intros Hp Hmax. apply Hiff. right. rewrite Hp. simpl.
  eexists. split; [reflexivity|].
  unfold audioAcceptable, Transcode.audioAcceptable. simpl.
  split; [reflexivity|]. split.
  - exists 128000%Q. split; [reflexivity|]. split; [lra|].
    right. rewrite Hmax. lra.
  - exists "stereo". repeat split; discriminate.
Qed.

Let quickVideo :=
  canDoQuickVideoTranscode FfprobeData ResolutionData getVideoStream
    getVideoStreamFPS getVideoStreamBitrate getVideoStreamDimensionsInfo
    getMaxTheoreticalBitrate.

Lemma video_verdict_iff (path : string) (probe : option FfprobeData) :
  quickVideo path probe = true <-> videoAcceptable path probe.
Proof.
  unfold quickVideo, canDoQuickVideoTranscode, videoAcceptable,
    Transcode.videoAcceptable.
  destruct (getVideoStreamBitrate path probe) as [b|].
  2:{ split; [discriminate|]. intros [[b [[=] _]] _]. }
  destruct (Qeq_bool b 0) eqn:Hz.
  { split; [discriminate|]. intros [[b' [[= <-] [Hn _]]] _].
    apply Qeq_bool_iff in Hz. contradiction. }
  apply Qeq_bool_false_iff in Hz.
  destruct (getVideoStream path probe) as [stream|].
  2:{ split; [discriminate|]. intros [_ [[stream [[=] _]] _]]. }
  destruct (differs (codec_name stream) "h264") eqn:Hc.
  { split; [discriminate|]. intros [_ [[s' [[= <-] [Hc' _]]] _]].
    apply differs_false_iff in Hc'. congruence. }
  destruct (differs (pix_fmt stream) "yuv420p") eqn:Hp.
  { split; [discriminate|]. intros [_ [[s' [[= <-] [_ Hp']]] _]].
    apply differs_false_iff in Hp'. congruence. }
  apply differs_false_iff in Hc, Hp.
  destruct (Qltb (getVideoStreamFPS path probe) 2
            || Qgtb (getVideoStreamFPS path probe) 65) eqn:Hf.
  { split; [discriminate|]. intros [_ [_ [Hlo Hhi]]].
    apply orb_true_iff in Hf. destruct Hf as [Hf|Hf].
    - apply Qltb_true_iff in Hf. lra.
    - apply Qgtb_true_iff in Hf. lra. }
  apply orb_false_iff in Hf. destruct Hf as [Hlo Hhi].
  apply Qltb_false_iff in Hlo. apply Qgtb_false_iff in Hhi.
  destruct (Qgtb b _) eqn:Hm.
  - split; [discriminate|]. intros [[b' [[= <-] [_ Hle]]] _].
    apply Qgtb_true_iff in Hm. lra.
  - apply Qgtb_false_iff in Hm. split; [intros _|reflexivity].
    split; [now exists b|]. split; [now exists stream|]. now split.
Qed.

(** C7.  The video verdict is [true] only if (and, with the stream
    present, exactly if) a non-zero bitrate is reported, the codec is
    h264, the pixel format is yuv420p, the frame rate is neither below 2
    nor above 65, and the bitrate is at most the maximum theoretical
    bitrate for the resolution data and frame rate; with the other
    conditions met the stream is rejected exactly when fps < 2 or
    fps > 65; an h264/yuv420p stream at 70 fps is rejected. *)
Theorem quick_video_verdict (path : string) (probe : option FfprobeData) :
  (quickVideo path probe = true <-> videoAcceptable path probe)
  /\ ((exists b,
         getVideoStreamBitrate path probe = Some b /\ ~ (b == 0)%Q
         /\ (b <= getMaxTheoreticalBitrate
                    (getVideoStreamDimensionsInfo path probe)
                    (getVideoStreamFPS path probe))%Q) ->
      (exists stream,
         getVideoStream path probe = Some stream
         /\ codec_name stream = Some "h264"
         /\ pix_fmt stream = Some "yuv420p") ->
      (quickVideo path probe = false
       <-> (getVideoStreamFPS path probe < 2)%Q
           \/ (65 < getVideoStreamFPS path probe)%Q))
  /\ (getVideoStream path probe
      = Some {| codec_name := Some "h264"; pix_fmt := Some "yuv420p" |} ->
      (getVideoStreamFPS path probe == 70)%Q ->
      quickVideo path probe = false).
Proof.
  pose proof (video_verdict_iff path probe) as Hiff.
  split; [exact Hiff|]. split.
  - intros Hb Hs. split.
    + intros Hfalse.
      destruct (Qlt_le_dec (getVideoStreamFPS path probe) 2) as [H|Hlo];
        [now left|].
      destruct (Qlt_le_dec 65 (getVideoStreamFPS path probe)) as [H|Hhi];
        [now right|].
      assert (quickVideo path probe = true)
        by (apply Hiff; unfold videoAcceptable, Transcode.videoAcceptable;
            auto).
      congruence.
    + intros Hf. destruct (quickVideo path probe); [|reflexivity].
      destruct (proj1 Hiff eq_refl) as [_ [_ [Hlo Hhi]]].
      destruct Hf; lra.
  - intros _ Hfps. destruct (quickVideo path probe); [|reflexivity].
    destruct (proj1 Hiff eq_refl) as [_ [_ [_ Hhi]]]. lra.
Qed.

End Verdicts.

Section Bitrates.

Variable getAverageTheoreticalBitrate : Q -> Q -> Q -> Q.
Variable getMinTheoreticalBitrate : Q -> Q -> Q -> Q.

Variables resolution ratio fps : Q.

Let average := getAverageTheoreticalBitrate resolution fps ratio.
Let floor := getMinTheoreticalBitrate resolution fps ratio.
Let target (inputBitrate : option Q) :=
  getTargetBitrate getAverageTheoreticalBitrate getMinTheoreticalBitrate
    inputBitrate resolution ratio fps.

Lemma capBitrate_known (b targetBitrate : Q) :
  ~ (b == 0)%Q ->
  capBitrate (Some b) targetBitrate
  = Qmin targetBitrate (inputBitrateWithMargin b).
Proof.
  intros Hb. unfold capBitrate.
  apply Qeq_bool_false_iff in Hb. now rewrite Hb.
Qed.

Lemma capBitrate_unknown (inputBitrate : option Q) (targetBitrate : Q) :
  falsyNumber inputBitrate = true ->
  capBitrate inputBitrate targetBitrate = targetBitrate.
Proof.
  unfold capBitrate, falsyNumber. destruct inputBitrate as [b|]; [|reflexivity].
  now intros ->.
Qed.

(** The literal 0.3 is the double 5404319552844595 x 2^-54. *)
Lemma literal_0_3 :
  Binary64.round (3 # 10) = (5404319552844595 # 18014398509481984)%Q.
Proof. vm_compute. reflexivity. Qed.

(** The margin grows with a positive input bitrate. *)
Lemma inputBitrateWithMargin_le (b1 b2 : Q) :
  (0 < b1)%Q -> (b1 <= b2)%Q ->
  (inputBitrateWithMargin b1 <= inputBitrateWithMargin b2)%Q.
Proof.
  intros Hpos Hle.
  unfold inputBitrateWithMargin, Binary64.add, Binary64.mul.
  rewrite literal_0_3.
  set (c := (5404319552844595 # 18014398509481984)%Q).
  assert (Hc : (0 <= c)%Q) by discriminate.
  assert (H1 : (0 <= b1 * c)%Q) by (apply Qmult_le_0_compat; lra).
  assert (H2 : (b1 * c <= b2 * c)%Q)
    by (apply Qmult_le_compat_r; assumption).
  pose proof (Binary64Facts.round_nonneg _ H1) as H3.
  pose proof (Binary64Facts.round_le _ _ H1 H2) as H4.
  apply Binary64Facts.round_le; lra.
Qed.

Lemma pow2_minus_53 : Binary64.pow2 (-53) = (1 # 9007199254740992)%Q.
Proof. reflexivity. Qed.

Lemma pow2_minus_52 : Binary64.pow2 (-52) = (1 # 4503599627370496)%Q.
Proof. reflexivity. Qed.

(** For an input bitrate of 1 or more the margin is within input x 2^-52
    of 1.3 x input: the three roundings, of the literal, of the product and
    of the sum, each move their result by at most 2^-53 of it. *)
Lemma inputBitrateWithMargin_close (b : Q) :
  (1 <= b)%Q ->
  ((13 # 10) * b - b * Binary64.pow2 (-52) <= inputBitrateWithMargin b)%Q
  /\ (inputBitrateWithMargin b
      <= (13 # 10) * b + b * Binary64.pow2 (-52))%Q.
Proof.
  intros Hb. unfold inputBitrateWithMargin, Binary64.add, Binary64.mul.
  rewrite literal_0_3.
  assert (Hmin : (Binary64.pow2 (-1022) <= 1 # 4)%Q).
  { change (1 # 4)%Q with (Binary64.pow2 (-2)).
    apply Binary64Facts.pow2_le. lia. }
  pose proof (Binary64Facts.round_relative
                (b * (5404319552844595 # 18014398509481984))%Q) as HP.
  rewrite pow2_minus_53 in HP. rewrite pow2_minus_52.
  set (p := Binary64.round (b * (5404319552844595 # 18014398509481984))%Q)
    in *.
  pose proof (Binary64Facts.round_relative (b + p)%Q) as HS.
  rewrite pow2_minus_53 in HS.
  set (s := Binary64.round (b + p)%Q) in *.
  set (tiny := Binary64.pow2 (-1022)) in *. clearbody tiny p s.
  destruct HP as [Plo Phi]; [lra|].
  destruct HS as [Slo Shi]; [lra|].
  split; lra.
Qed.

(** On the integer bitrates from 1000000 to 1000199 and on some others
    the margin is what the doubles of the machine give for
    [inputBitrate + inputBitrate * 0.3]. *)
Lemma inputBitrateWithMargin_on_the_machine :
  forallb
    (fun z =>
       match machineMargin z with
       | Some q => Qeq_bool q (inputBitrateWithMargin (inject_Z z))
       | None => false
       end)
    (map (fun i => 1000000 + Z.of_nat i) (seq 0 200)
     ++ [1; 3; 7; 500000; 5000000; 123456789; 9007199254740991; -1000001])
  = true.
Proof. vm_compute. reflexivity. Qed.

(** C4, as amended.  With an input bitrate that is known (present and not
    zero) the target bitrate is max (floor, min (average, m)), where m is
    [inputBitrate + inputBitrate * 0.3] as double-precision arithmetic
    computes it; for an input bitrate from 1 to 2^1023, m is within
    input x 2^-52 of 1.3 x input.  Without a known input bitrate the
    target is the average, floored at the minimum: max (floor,
    average). *)
Theorem target_bitrate_formula (inputBitrate : option Q) :
  (forall b, inputBitrate = Some b -> ~ (b == 0)%Q ->
     target inputBitrate
     = Qmax floor (Qmin average (inputBitrateWithMargin b))
     /\ ((1 <= b)%Q -> (b <= Binary64.pow2 1023)%Q ->
           ((13 # 10) * b - b * Binary64.pow2 (-52)
            <= inputBitrateWithMargin b)%Q
           /\ (inputBitrateWithMargin b
               <= (13 # 10) * b + b * Binary64.pow2 (-52))%Q))
  /\ (falsyNumber inputBitrate = true ->
        target inputBitrate = Qmax floor average).
Proof.
  unfold target, getTargetBitrate, Math_max. split.
  - intros b -> Hb. split.
    + now rewrite capBitrate_known.
    + intros Hone _. now apply inputBitrateWithMargin_close.
  - intros H. now rewrite capBitrate_unknown.
Qed.

(** C5, as amended.  The target bitrate is never below the floor, and it
    is at most the average when the floor is.  For a supplied, positive
    input bitrate, with m the margin [inputBitrate + inputBitrate * 0.3]
    of double-precision arithmetic: the target is at most m when the
    floor is, and it is the floor otherwise; and m is at most
    1.3 x input + input x 2^-52 for an input bitrate from 1 to 2^1023. *)
Theorem target_bitrate_bounds (inputBitrate : option Q) :
  (floor <= target inputBitrate)%Q
  /\ ((floor <= average)%Q -> (target inputBitrate <= average)%Q)
  /\ (forall b, inputBitrate = Some b -> (0 < b)%Q ->
        ((floor <= inputBitrateWithMargin b)%Q ->
           (target inputBitrate <= inputBitrateWithMargin b)%Q)
        /\ ((inputBitrateWithMargin b <= floor)%Q ->
              (target inputBitrate == floor)%Q)
        /\ ((1 <= b)%Q -> (b <= Binary64.pow2 1023)%Q ->
              (inputBitrateWithMargin b
               <= (13 # 10) * b + b * Binary64.pow2 (-52))%Q)).
Proof.
  unfold target, getTargetBitrate, Math_max. fold average floor.
  split; [apply Q.le_max_l|]. split.
  - intros Hfa. apply Q.max_lub; [exact Hfa|].
    unfold capBitrate. destruct inputBitrate as [b|]; [|lra].
    destruct (Qeq_bool b 0); [lra|]. apply Q.le_min_l.
  - intros b -> Hpos. rewrite capBitrate_known by lra.
    split; [|split].
    + intros Hfloor. apply Q.max_lub; [exact Hfloor|]. apply Q.le_min_r.
    + intros Hlow. apply Q.max_l.
      apply Qle_trans with (2 := Hlow). apply Q.le_min_r.
    + intros Hone _. now apply inputBitrateWithMargin_close.
Qed.

End Bitrates.

End TranscodeFacts.

(** The audio theorem on the aac stereo stream of the scenario. *)
Lemma quick_audio_verdict_witness :
  Transcode.canDoQuickAudioTranscode unit Samples.stereoAac Samples.sameBitrate
    "video.mp4" None = true.
Proof.
  apply (proj2 (quick_audio_verdict unit Samples.stereoAac Samples.sameBitrate
                  "video.mp4" None)).
  - reflexivity.
  - reflexivity.
Defined.

(** The video theorem on the 70 fps stream of the scenario. *)
Lemma quick_video_verdict_witness :
  Transcode.canDoQuickVideoTranscode unit unit Samples.h264Stream
    (fun _ _ => 70%Q) (fun _ _ => Some 4000000%Q) (fun _ _ => tt)
    (fun _ _ => 8000000%Q) "video.mp4" None = false.
Proof.
  apply (proj2 (proj2 (quick_video_verdict unit unit Samples.h264Stream
                         (fun _ _ => 70%Q) (fun _ _ => Some 4000000%Q)
                         (fun _ _ => tt) (fun _ _ => 8000000%Q)
                         "video.mp4" None))).
  - reflexivity.
  - reflexivity.
Defined.

(** The formula at an input of 5 Mbit/s: the margin is 6.5 Mbit/s, lies
    between the floor and the average, and is the target. *)
Lemma target_bitrate_formula_witness :
  (Transcode.getTargetBitrate Samples.averageBitrate Samples.minBitrate
     (Some 5000000%Q) 1080 (16 # 9) 30 == 6500000)%Q
  /\ ((13 # 10) * 5000000 - 5000000 * Binary64.pow2 (-52)
      <= Transcode.inputBitrateWithMargin 5000000)%Q.
Proof.
  destruct (target_bitrate_formula Samples.averageBitrate Samples.minBitrate
              1080 (16 # 9) 30 (Some 5000000%Q)) as [Hknown _].
  destruct (Hknown 5000000%Q eq_refl) as [Hvalue Hclose].
  - intros H. discriminate H.
  - split.
    + rewrite Hvalue. vm_compute. reflexivity.
    + apply Hclose.
      * discriminate.
      * vm_compute. discriminate.
Defined.

(** C4 as stated fails where 1.3 x input is no double: at 1000001 bit/s
    the target is the margin 5583463068257485 x 2^-32, which is above
    1300001.3. *)
Lemma target_bitrate_formula_claim_counterexample :
  (Transcode.getTargetBitrate Samples.averageBitrate Samples.minBitrate
     (Some 1000001%Q) 1080 (16 # 9) 30
   == 5583463068257485 # 4294967296)%Q
  /\ ~ (Transcode.getTargetBitrate Samples.averageBitrate Samples.minBitrate
          (Some 1000001%Q) 1080 (16 # 9) 30
        == Qmax (Samples.minBitrate 1080 30 (16 # 9))
             (Qmin (Samples.averageBitrate 1080 30 (16 # 9))
                ((13 # 10) * 1000001)))%Q.
Proof.
  split.
  - vm_compute. reflexivity.
  - intros H. vm_compute in H. discriminate H.
Qed.

(** The bounds at an input of 5 Mbit/s. *)
Lemma target_bitrate_bounds_witness :
  (1244160 <= Transcode.getTargetBitrate Samples.averageBitrate
                Samples.minBitrate (Some 5000000%Q) 1080 (16 # 9) 30)%Q
  /\ (Transcode.getTargetBitrate Samples.averageBitrate Samples.minBitrate
        (Some 5000000%Q) 1080 (16 # 9) 30 <= 11819520)%Q
  /\ (Transcode.getTargetBitrate Samples.averageBitrate Samples.minBitrate
        (Some 5000000%Q) 1080 (16 # 9) 30
      <= Transcode.inputBitrateWithMargin 5000000)%Q
  /\ (Transcode.inputBitrateWithMargin 5000000
      <= (13 # 10) * 5000000 + 5000000 * Binary64.pow2 (-52))%Q.
Proof.
  destruct (target_bitrate_bounds Samples.averageBitrate Samples.minBitrate
              1080 (16 # 9) 30 (Some 5000000%Q)) as [Hfloor [Havg Hcap]].
  split; [exact Hfloor|]. split.
  - apply Havg. unfold Samples.minBitrate, Samples.averageBitrate. lra.
  - destruct (Hcap 5000000%Q eq_refl) as [Hm [_ Hclose]]; [reflexivity|].
    split.
    + apply Hm. vm_compute. discriminate.
    + apply Hclose; [discriminate|vm_compute; discriminate].
Defined.

(** C5 as stated fails in two ways.  For a low input bitrate: at
    500 kbit/s the target is the floor, which is above 1.3 x input.  And
    where the margin is rounded up: at 1000001 bit/s the target is the
    margin, above 1.3 x input although the floor is below both. *)
Lemma target_bitrate_claim_counterexample :
  (0 < 500000)%Q
  /\ (Transcode.getTargetBitrate Samples.averageBitrate Samples.minBitrate
        (Some 500000%Q) 1080 (16 # 9) 30 == 1244160)%Q
  /\ ~ (Transcode.getTargetBitrate Samples.averageBitrate Samples.minBitrate
          (Some 500000%Q) 1080 (16 # 9) 30 <= (13 # 10) * 500000)%Q
  /\ (0 < 1000001)%Q
  /\ (Samples.minBitrate 1080 30 (16 # 9) <= (13 # 10) * 1000001)%Q
  /\ ~ (Transcode.getTargetBitrate Samples.averageBitrate Samples.minBitrate
          (Some 1000001%Q) 1080 (16 # 9) 30 <= (13 # 10) * 1000001)%Q.
Proof.
  split; [reflexivity|]. split; [vm_compute; reflexivity|].
  split; [intros H; vm_compute in H; apply H; reflexivity|].
  split; [reflexivity|]. split; [vm_compute; discriminate|].
  intros H. vm_compute in H. apply H. reflexivity.
Qed.

(* ===================================================================== *)
(** ** Channel synchronisation: the session through a run *)
(* ===================================================================== *)

Module SyncFacts.
Import Sync.
Local Open Scope sync_scope.

Lemma keeps_ret {A} (a : A) : keepsSession (ret a).
Proof. intros w. reflexivity. Qed.

Lemma keeps_throw {A} (e : Error) : keepsSession (@throw A e).
Proof. intros w. reflexivity. Qed.

Lemma keeps_lift {A} (r : result A) : keepsSession (lift r).
Proof. intros w. reflexivity. Qed.

Lemma keeps_emit (e : Event) : keepsSession (emit e).
Proof. intros w. reflexivity. Qed.

Lemma keeps_log (level : LogLevel) (msg : string) :
  keepsSession (log level msg).
Proof. apply keeps_emit. Qed.

Lemma keeps_getSession : keepsSession getSession.
Proof. intros w. reflexivity. Qed.

Lemma keeps_setState (st : VideoChannelSyncState) :
  keepsSession (setState st).
Proof.
  intros w. unfold setState, sessionId.
  destruct (session w) eqn:E; simpl; now rewrite ?E.
Qed.

Lemma keeps_setLastSyncAt (date : Z) : keepsSession (setLastSyncAt date).
Proof.
  intros w. unfold setLastSyncAt, sessionId.
  destruct (session w) eqn:E; simpl; now rewrite ?E.
Qed.

Lemma keeps_saveSession (save : MChannelSync -> result unit) :
  keepsSession (saveSession save).
Proof.
  intros w. unfold saveSession, sessionId.
  destruct (session w) as [s|] eqn:E; [|simpl; now rewrite E].
  destruct (save s); simpl; now rewrite ?E.
Qed.

Lemma keeps_createJobWithChildren
    (accept : CreateJobArgument -> list CreateJobArgument -> result unit)
    (parent : CreateJobArgument) (children : list CreateJobArgument) :
  keepsSession (createJobWithChildren accept parent children).
Proof.
  intros w. unfold createJobWithChildren.
  now destruct (accept parent children).
Qed.

Lemma keeps_bind {A B} (m : M A) (f : A -> M B) :
  keepsSession m -> (forall a, keepsSession (f a)) ->
  keepsSession (bind m f).
Proof.
  intros Hm Hf w. unfold bind. specialize (Hm w).
  destruct (m w) as [[a|e] w']; simpl in *.
  - now rewrite Hf.
  - exact Hm.
Qed.

Lemma keeps_tryCatch {A} (m : M A) (h : Error -> M A) :
  keepsSession m -> (forall e, keepsSession (h e)) ->
  keepsSession (tryCatch m h).
Proof.
  intros Hm Hh w. unfold tryCatch. specialize (Hm w).
  destruct (m w) as [[a|e] w']; simpl in *.
  - exact Hm.
  - now rewrite Hh.
Qed.

Create HintDb keeps.

#[export] Hint Resolve keeps_ret keeps_throw keeps_lift keeps_emit keeps_log
  keeps_getSession keeps_setState keeps_setLastSyncAt keeps_saveSession
  keeps_createJobWithChildren : keeps.

(** Walks down a computation built from the effects above. *)
Ltac keeps :=
  repeat first
    [ solve [ auto with keeps ]
    | apply keeps_bind; [|intros ?]
    | apply keeps_tryCatch; [|intros ?]
    | match goal with
      | |- keepsSession (if ?b then _ else _) => destruct b
      | |- keepsSession (match ?x with _ => _ end) => destruct x
      end ].

Section Handler.

Variable save : MChannelSync -> result unit.
Variable msg : string.

(** The [catch] block of both revisions. *)
Let handler (err : Error) : M unit :=
  log error msg ;;; setState FAILED ;;; saveSession save.

(** An exception out of a guarded body, with a session: the handler
    logs, marks the session FAILED and saves it. *)
Lemma handler_with_session (body : M unit) (w w2 : World) (e : Error)
    (s2 : MChannelSync) :
  body w = (Throw e, w2) ->
  session w2 = Some s2 ->
  tryCatch body handler w
  = match save (withState s2 FAILED) with
    | Return _ =>
        (Return tt,
         {| session := Some (withState s2 FAILED);
            events := (events w2 ++ [Logged error msg])
                      ++ [Saved (withState s2 FAILED)] |})
    | Throw e' =>
        (Throw e',
         {| session := Some (withState s2 FAILED);
            events := events w2 ++ [Logged error msg] |})
    end.
Proof.
  intros Hbody Hs. unfold tryCatch. rewrite Hbody.
  unfold handler, bind, log, emit, setState, saveSession. simpl.
  rewrite Hs. simpl. unfold withState.
  destruct (save _); reflexivity.
Qed.

(** The same without a session: the handler's write to [channelSync]
    throws. *)
Lemma handler_without_session (body : M unit) (w w2 : World) (e : Error) :
  body w = (Throw e, w2) ->
  session w2 = None ->
  tryCatch body handler w
  = (Throw (TypeError
              "Cannot set properties of undefined (setting 'state')"),
     {| session := session w2;
        events := events w2 ++ [Logged error msg] |}).
Proof.
  intros Hbody Hs. unfold tryCatch. rewrite Hbody.
  unfold handler, bind, log, emit, setState. simpl. now rewrite Hs.
Qed.

End Handler.

Lemma sessionId_some (w w' : World) (s : MChannelSync) :
  sessionId w' = sessionId w -> session w = Some s ->
  exists s', session w' = Some s' /\ id s' = id s.
Proof.
  unfold sessionId. intros H Hs. rewrite Hs in H. simpl in H.
  destruct (session w') as [s'|]; [|discriminate].
  exists s'. split; [reflexivity|]. simpl in H. congruence.
Qed.

Lemma sessionId_none (w w' : World) :
  sessionId w' = sessionId w -> session w = None -> session w' = None.
Proof.
  unfold sessionId. intros H Hs. rewrite Hs in H. simpl in H.
  now destruct (session w').
Qed.

End SyncFacts.

Section SyncChannelFacts.
Import Sync SyncFacts.
Local Open Scope sync_scope.

Variable env : SyncChannel.Env.

Lemma keeps_skipImport (channel : MChannel) (targetUrl : string)
    (onlyAfter : option Z) :
  keepsSession (SyncChannel.skipImport env channel targetUrl onlyAfter).
Proof. unfold SyncChannel.skipImport. keeps. Qed.

Lemma keeps_buildJobs (user : MUser) (channel : MChannel)
    (onlyAfter : option Z) (targetUrls : list string) :
  forall jobs,
    keepsSession
      (SyncChannel.buildJobs env user channel onlyAfter targetUrls jobs).
Proof.
  induction targetUrls as [|targetUrl rest IH]; intros jobs; simpl.
  - keeps.
  - apply keeps_bind.
    + apply keeps_tryCatch; [|intros ?; keeps].
      apply keeps_bind; [apply keeps_skipImport|intros ?; keeps].
    + intros [[|]|]; [apply IH| |apply IH].
      apply keeps_bind; [keeps|intros ?].
      apply keeps_bind; [keeps|intros ?]. apply IH.
Qed.

Lemma keeps_logger_warning (msg : string) :
  keepsSession (SyncChannel.logger_warning env msg).
Proof. unfold SyncChannel.logger_warning. keeps. Qed.

Lemma keeps_importTargets (options : SyncChannel.Options) (user : MUser)
    (targetUrls : list string) :
  keepsSession (SyncChannel.importTargets env options user targetUrls).
Proof.
  unfold SyncChannel.importTargets.
  apply keeps_bind; [keeps|intros _].
  destruct (List.length targetUrls =? 0)%nat; [keeps|].
  apply keeps_bind; [apply keeps_buildJobs|intros jobs].
  destruct (List.length jobs =? 0)%nat; [apply keeps_logger_warning|keeps].
Qed.

Lemma keeps_tryBlock (options : SyncChannel.Options) :
  keepsSession (SyncChannel.tryBlock env options).
Proof.
  unfold SyncChannel.tryBlock.
  apply keeps_bind; [keeps|intros user].
  apply keeps_bind; [keeps|intros targetUrls].
  apply keeps_importTargets.
Qed.

Lemma keeps_markProcessing : keepsSession (SyncChannel.markProcessing env).
Proof. unfold SyncChannel.markProcessing. keeps. Qed.

Lemma syncChannel_failure (options : SyncChannel.Options) :
  failureMarksSession (SyncChannel.save env)
    (SyncChannel.markProcessing env)
    (SyncChannel.tryBlock env options)
    (SyncChannel.synchronizeChannel env options).
Proof.
  intros w w1 w2 e Hmark Hbody.
  assert (Hrun : SyncChannel.synchronizeChannel env options w
                 = tryCatch (SyncChannel.tryBlock env options)
                            (SyncChannel.catchBlock env) w1).
  { unfold SyncChannel.synchronizeChannel, bind. now rewrite Hmark. }
  pose proof (keeps_markProcessing w) as K1. rewrite Hmark in K1.
  pose proof (keeps_tryBlock options w1) as K2. rewrite Hbody in K2.
  simpl in K1, K2. rewrite K1 in K2. split.
  - intros s Hs. destruct (sessionId_some w w2 s K2 Hs) as [s2 [Hs2 Hid]].
    exists s2. split; [exact Hs2|]. split; [exact Hid|].
    rewrite Hrun. unfold SyncChannel.catchBlock.
    rewrite (handler_with_session (SyncChannel.save env) _ _ w1 w2 e s2
               Hbody Hs2).
    split.
    + now destruct (SyncChannel.save env (withState s2 FAILED)).
    + intros ->. split; [reflexivity|]. eexists. reflexivity.
  - intros Hs. pose proof (sessionId_none w w2 K2 Hs) as Hs2.
    rewrite Hrun. unfold SyncChannel.catchBlock.
    now rewrite (handler_without_session (SyncChannel.save env) _ _ w1 w2 e
                   Hbody Hs2).
Qed.

End SyncChannelFacts.

Section SyncChannelEntriesFacts.
Import Sync SyncFacts.
Local Open Scope sync_scope.

Variable env : SyncChannelEntries.Env.

Lemma keeps_entries_skipImport (channel : MChannel) (targetUrl : string)
    (onlyAfter : option Z) :
  keepsSession (SyncChannelEntries.skipImport env channel targetUrl onlyAfter).
Proof. unfold SyncChannelEntries.skipImport. keeps. Qed.

Lemma keeps_buildChildren (user : MUser) (channel : MChannel)
    (onlyAfter : option Z) (entries : list SyncChannelEntries.Entry) :
  forall children,
    keepsSession
      (SyncChannelEntries.buildChildren env user channel onlyAfter entries
         children).
Proof.
  induction entries as [|entry rest IH]; intros children; simpl.
  - keeps.
  - apply keeps_bind; [apply keeps_entries_skipImport|].
    intros [|]; [apply IH|].
    apply keeps_bind; [keeps|intros ?].
    apply keeps_bind; [keeps|intros ?]. apply IH.
Qed.

Lemma keeps_entries_tryBlock (options : SyncChannelEntries.Options) :
  keepsSession (SyncChannelEntries.tryBlock env options).
Proof.
  unfold SyncChannelEntries.tryBlock.
  apply keeps_bind; [keeps|intros user].
  apply keeps_bind; [keeps|intros entries].
  unfold SyncChannelEntries.importEntries.
  destruct (List.length entries =? 0)%nat; [keeps|].
  apply keeps_bind; [keeps|intros _].
  apply keeps_bind; [apply keeps_buildChildren|intros children]. keeps.
Qed.

Lemma keeps_entries_markProcessing :
  keepsSession (SyncChannelEntries.markProcessing env).
Proof. unfold SyncChannelEntries.markProcessing. keeps. Qed.

Lemma syncChannelEntries_failure (options : SyncChannelEntries.Options) :
  failureMarksSession (SyncChannelEntries.save env)
    (SyncChannelEntries.markProcessing env)
    (SyncChannelEntries.tryBlock env options)
    (SyncChannelEntries.synchronizeChannel env options).
Proof.
  intros w w1 w2 e Hmark Hbody.
  assert (Hrun : SyncChannelEntries.synchronizeChannel env options w
                 = tryCatch (SyncChannelEntries.tryBlock env options)
                            (SyncChannelEntries.catchBlock env) w1).
  { unfold SyncChannelEntries.synchronizeChannel, bind. now rewrite Hmark. }
  pose proof (keeps_entries_markProcessing w) as K1. rewrite Hmark in K1.
  pose proof (keeps_entries_tryBlock options w1) as K2. rewrite Hbody in K2.
  simpl in K1, K2. rewrite K1 in K2. split.
  - intros s Hs. destruct (sessionId_some w w2 s K2 Hs) as [s2 [Hs2 Hid]].
    exists s2. split; [exact Hs2|]. split; [exact Hid|].
    rewrite Hrun. unfold SyncChannelEntries.catchBlock.
    rewrite (handler_with_session (SyncChannelEntries.save env) _ _ w1 w2 e
               s2 Hbody Hs2).
    split.
    + now destruct (SyncChannelEntries.save env (withState s2 FAILED)).
    + intros ->. split; [reflexivity|]. eexists. reflexivity.
  - intros Hs. pose proof (sessionId_none w w2 K2 Hs) as Hs2.
    rewrite Hrun. unfold SyncChannelEntries.catchBlock.
    now rewrite (handler_without_session (SyncChannelEntries.save env) _ _
                   w1 w2 e Hbody Hs2).
Qed.

End SyncChannelEntriesFacts.

(** The handler of both revisions of [synchronizeChannel]: once the session
    has been marked PROCESSING, whatever exception leaves the [try] block,
    from the listing, the building of the jobs or their submission, a
    supplied session ends in state FAILED and is saved (the save being the
    last effect of the run, which then returns); with no session supplied
    the caller gets the TypeError that the handler's write to the missing
    session raises, whatever the exception was. *)
Theorem failure_marks_session_failed :
  (forall (env : SyncChannel.Env) (options : SyncChannel.Options),
      Sync.failureMarksSession (SyncChannel.save env)
        (SyncChannel.markProcessing env)
        (SyncChannel.tryBlock env options)
        (SyncChannel.synchronizeChannel env options))
  /\ (forall (env : SyncChannelEntries.Env)
             (options : SyncChannelEntries.Options),
        Sync.failureMarksSession (SyncChannelEntries.save env)
          (SyncChannelEntries.markProcessing env)
          (SyncChannelEntries.tryBlock env options)
          (SyncChannelEntries.synchronizeChannel env options)).
Proof.
  split; intros env options.
  - apply syncChannel_failure.
  - apply syncChannelEntries_failure.
Qed.

(* ===================================================================== *)
(** ** Channel synchronisation: runs that build no child job *)
(* ===================================================================== *)

Module QuietFacts.
Import Sync.
Local Open Scope sync_scope.

Lemma saves_app (a b : list Event) : saves (a ++ b) = saves a ++ saves b.
Proof. apply flat_map_app. Qed.

Lemma submissions_app (a b : list Event) :
  submissions (a ++ b) = submissions a ++ submissions b.
Proof. apply flat_map_app. Qed.

Lemma quiet_ret {A} (a : A) : quiet (ret a).
Proof. intros w. simpl. auto. Qed.

Lemma quiet_throw {A} (e : Error) : quiet (@throw A e).
Proof. intros w. simpl. auto. Qed.

Lemma quiet_lift {A} (r : result A) : quiet (lift r).
Proof. intros w. simpl. auto. Qed.

Lemma quiet_getSession : quiet getSession.
Proof. intros w. simpl. auto. Qed.

Lemma quiet_log (level : LogLevel) (msg : string) : quiet (log level msg).
Proof.
  intros w. simpl. rewrite saves_app, submissions_app. simpl.
  rewrite !app_nil_r. auto.
Qed.

Lemma quiet_bind {A B} (m : M A) (f : A -> M B) :
  quiet m -> (forall a, quiet (f a)) -> quiet (bind m f).
Proof.
  intros Hm Hf w. unfold bind. destruct (Hm w) as [H1 [H2 H3]].
  destruct (m w) as [[a|e] w']; simpl in *; [|auto].
  destruct (Hf a w') as [G1 [G2 G3]]. repeat split; congruence.
Qed.

Lemma quiet_tryCatch {A} (m : M A) (h : Error -> M A) :
  quiet m -> (forall e, quiet (h e)) -> quiet (tryCatch m h).
Proof.
  intros Hm Hh w. unfold tryCatch. destruct (Hm w) as [H1 [H2 H3]].
  destruct (m w) as [[a|e] w']; simpl in *; [auto|].
  destruct (Hh e w') as [G1 [G2 G3]]. repeat split; congruence.
Qed.

Create HintDb quiet.

#[export] Hint Resolve quiet_ret quiet_throw quiet_lift quiet_getSession
  quiet_log : quiet.

Ltac quiets :=
  repeat first
    [ solve [ auto with quiet ]
    | apply quiet_bind; [|intros ?]
    | apply quiet_tryCatch; [|intros ?]
    | match goal with
      | |- quiet (if ?b then _ else _) => destruct b
      | |- quiet (match ?x with _ => _ end) => destruct x
      end ].

Lemma quiet_skipImport (env : SyncChannelEntries.Env) (channel : MChannel)
    (targetUrl : string) (onlyAfter : option Z) :
  quiet (SyncChannelEntries.skipImport env channel targetUrl onlyAfter).
Proof. unfold SyncChannelEntries.skipImport. quiets. Qed.

(** When [skipImport] answers [true] for every entry, the loop returns
    the children it was given and touches nothing but the log. *)
Lemma buildChildren_all_skipped (env : SyncChannelEntries.Env)
    (user : MUser) (channel : MChannel) (onlyAfter : option Z)
    (entries : list SyncChannelEntries.Entry) :
  (forall entry w,
      In entry entries ->
      fst (SyncChannelEntries.skipImport env channel
             (SyncChannelEntries.webpageUrl entry) onlyAfter w)
      = Return true) ->
  forall children w,
    fst (SyncChannelEntries.buildChildren env user channel onlyAfter entries
           children w) = Return children
    /\ session (snd (SyncChannelEntries.buildChildren env user channel
                       onlyAfter entries children w)) = session w
    /\ saves (events (snd (SyncChannelEntries.buildChildren env user channel
                             onlyAfter entries children w)))
       = saves (events w)
    /\ submissions
         (events (snd (SyncChannelEntries.buildChildren env user channel
                         onlyAfter entries children w)))
       = submissions (events w).
Proof.
  induction entries as [|entry rest IH]; intros Hskip children w; simpl.
  - auto.
  - unfold bind.
    pose proof (Hskip entry w (or_introl eq_refl)) as Hfst.
    destruct (quiet_skipImport env channel
                (SyncChannelEntries.webpageUrl entry) onlyAfter w)
      as [Q1 [Q2 Q3]].
    destruct (SyncChannelEntries.skipImport env channel
                (SyncChannelEntries.webpageUrl entry) onlyAfter w)
      as [r w'].
    simpl in Hfst, Q1, Q2, Q3. subst r.
    destruct (IH (fun e' w0 Hin => Hskip e' w0 (or_intror Hin)) children w')
      as [I1 [I2 [I3 I4]]].
    repeat split; congruence.
Qed.

End QuietFacts.

Section NoChildJob.
Import Sync QuietFacts.
Local Open Scope sync_scope.

Lemma syncChannel_zero_candidates
    (env : SyncChannel.Env) (options : SyncChannel.Options)
    (w : World) (s : MChannelSync) (user : MUser) :
  session w = Some s ->
  (forall s', SyncChannel.save env s' = Return tt) ->
  SyncChannel.loadByChannelActorId env
    (actorId (SyncChannel.opt_channel options)) = Return user ->
  Wrapper.getInfoForListImport (SyncChannel.wrapper env)
    (SyncChannel.newWrapper env (SyncChannel.externalChannelUrl options))
    (SyncChannel.videosCountLimit options) = Return [] ->
  syncedDirectly (SyncChannel.newDate env)
    (SyncChannel.synchronizeChannel env options) w s.
Proof.
  intros Hs Hsave Hload Hlist.
  unfold syncedDirectly, SyncChannel.synchronizeChannel,
    SyncChannel.markProcessing, SyncChannel.tryBlock,
    SyncChannel.importTargets, tryCatch, bind, getSession, setState,
    setLastSyncAt, saveSession, lift, log, emit.
  repeat (progress (rewrite ?Hs, ?Hsave, ?Hload, ?Hlist; simpl)).
  rewrite !saves_app, !submissions_app. simpl. rewrite !app_nil_r.
  rewrite <- app_assoc. auto.
Qed.

Lemma syncChannelEntries_zero_candidates
    (env : SyncChannelEntries.Env) (options : SyncChannelEntries.Options)
    (w : World) (s : MChannelSync) (user : MUser) :
  session w = Some s ->
  (forall s', SyncChannelEntries.save env s' = Return tt) ->
  SyncChannelEntries.loadByChannelActorId env
    (actorId (SyncChannelEntries.opt_channel options)) = Return user ->
  SyncChannelEntries.getInfoForListImport env
    (SyncChannelEntries.externalChannelUrl options)
    (SyncChannelEntries.videosCountLimit options) = Return [] ->
  syncedDirectly (SyncChannelEntries.newDate env)
    (SyncChannelEntries.synchronizeChannel env options) w s.
Proof.
  intros Hs Hsave Hload Hlist.
  unfold syncedDirectly, SyncChannelEntries.synchronizeChannel,
    SyncChannelEntries.markProcessing, SyncChannelEntries.tryBlock,
    SyncChannelEntries.importEntries, tryCatch, bind, getSession, setState,
    setLastSyncAt, saveSession, lift, log, emit.
  repeat (progress (rewrite ?Hs, ?Hsave, ?Hload, ?Hlist; simpl)).
  rewrite !saves_app, !submissions_app. simpl. rewrite !app_nil_r.
  rewrite <- app_assoc. auto.
Qed.

Lemma syncChannelEntries_all_skipped
    (env : SyncChannelEntries.Env) (options : SyncChannelEntries.Options)
    (w : World) (s : MChannelSync) (user : MUser)
    (entries : list SyncChannelEntries.Entry) :
  session w = Some s ->
  (forall s', SyncChannelEntries.save env s' = Return tt) ->
  SyncChannelEntries.loadByChannelActorId env
    (actorId (SyncChannelEntries.opt_channel options)) = Return user ->
  SyncChannelEntries.getInfoForListImport env
    (SyncChannelEntries.externalChannelUrl options)
    (SyncChannelEntries.videosCountLimit options) = Return entries ->
  entries <> [] ->
  (forall entry w',
      In entry entries ->
      fst (SyncChannelEntries.skipImport env
             (SyncChannelEntries.opt_channel options)
             (SyncChannelEntries.webpageUrl entry)
             (SyncChannelEntries.onlyAfter options) w')
      = Return true) ->
  SyncChannelEntries.createJobWithChildren_result env
    (after_video_channel_import (Some (id s))) [] = Return tt ->
  fst (SyncChannelEntries.synchronizeChannel env options w) = Return tt
  /\ submissions
       (events (snd (SyncChannelEntries.synchronizeChannel env options w)))
     = submissions (events w)
       ++ [ (after_video_channel_import (Some (id s)), []) ]
  /\ option_map state
       (session (snd (SyncChannelEntries.synchronizeChannel env options w)))
     = Some PROCESSING.
Proof.
  intros Hs Hsave Hload Hlist Hne Hskip Hqueue.
  unfold SyncChannelEntries.synchronizeChannel,
    SyncChannelEntries.markProcessing, SyncChannelEntries.tryBlock,
    SyncChannelEntries.importEntries, tryCatch, bind, getSession, setState,
    setLastSyncAt, saveSession, lift, log, emit.
  repeat (progress (rewrite ?Hs, ?Hsave, ?Hload, ?Hlist; simpl)).
  destruct entries as [|entry rest]; [contradiction|].
  cbn [List.length Nat.eqb].
  match goal with
  | |- context [SyncChannelEntries.buildChildren ?e ?u ?c ?o ?l ?ch ?w0] =>
      destruct (buildChildren_all_skipped e u c o l Hskip ch w0)
        as [B1 [B2 [B3 B4]]];
      destruct (SyncChannelEntries.buildChildren e u c o l ch w0)
        as [r w3]
  end.
  simpl in B1, B2, B3, B4. subst r. rewrite B2. simpl.
  unfold createJobWithChildren. rewrite Hqueue. simpl.
  rewrite submissions_app, B4, !submissions_app. simpl.
  rewrite !app_nil_r, B2. auto.
Qed.

End NoChildJob.

(** C2, as amended.  With a session supplied, the store accepting it and the
    listing resolved: when there is no candidate, both revisions set the
    session to SYNCED and save it themselves, and hand nothing to the queue;
    when there are candidates and every one is skipped, the revision on
    entries still submits the parent job, with no child, the queue
    accepting it, and leaves the session PROCESSING for that job to
    settle. *)
Theorem no_child_job_runs :
  (forall (env : SyncChannel.Env) (options : SyncChannel.Options)
          (w : Sync.World) (s : Sync.MChannelSync) (user : Sync.MUser),
      Sync.session w = Some s ->
      (forall s', SyncChannel.save env s' = Return tt) ->
      SyncChannel.loadByChannelActorId env
        (Sync.actorId (SyncChannel.opt_channel options)) = Return user ->
      Wrapper.getInfoForListImport (SyncChannel.wrapper env)
        (SyncChannel.newWrapper env (SyncChannel.externalChannelUrl options))
        (SyncChannel.videosCountLimit options) = Return [] ->
      Sync.syncedDirectly (SyncChannel.newDate env)
        (SyncChannel.synchronizeChannel env options) w s)
  /\ (forall (env : SyncChannelEntries.Env)
             (options : SyncChannelEntries.Options)
             (w : Sync.World) (s : Sync.MChannelSync) (user : Sync.MUser),
        Sync.session w = Some s ->
        (forall s', SyncChannelEntries.save env s' = Return tt) ->
        SyncChannelEntries.loadByChannelActorId env
          (Sync.actorId (SyncChannelEntries.opt_channel options))
          = Return user ->
        SyncChannelEntries.getInfoForListImport env
          (SyncChannelEntries.externalChannelUrl options)
          (SyncChannelEntries.videosCountLimit options) = Return [] ->
        Sync.syncedDirectly (SyncChannelEntries.newDate env)
          (SyncChannelEntries.synchronizeChannel env options) w s)
  /\ (forall (env : SyncChannelEntries.Env)
             (options : SyncChannelEntries.Options)
             (w : Sync.World) (s : Sync.MChannelSync) (user : Sync.MUser)
             (entries : list SyncChannelEntries.Entry),
        Sync.session w = Some s ->
        (forall s', SyncChannelEntries.save env s' = Return tt) ->
        SyncChannelEntries.loadByChannelActorId env
          (Sync.actorId (SyncChannelEntries.opt_channel options))
          = Return user ->
        SyncChannelEntries.getInfoForListImport env
          (SyncChannelEntries.externalChannelUrl options)
          (SyncChannelEntries.videosCountLimit options) = Return entries ->
        entries <> [] ->
        (forall entry w',
            In entry entries ->
            fst (SyncChannelEntries.skipImport env
                   (SyncChannelEntries.opt_channel options)
                   (SyncChannelEntries.webpageUrl entry)
                   (SyncChannelEntries.onlyAfter options) w')
            = Return true) ->
        SyncChannelEntries.createJobWithChildren_result env
          (Sync.after_video_channel_import (Some (Sync.id s))) [] = Return tt ->
        fst (SyncChannelEntries.synchronizeChannel env options w) = Return tt
        /\ Sync.submissions
             (Sync.events
                (snd (SyncChannelEntries.synchronizeChannel env options w)))
           = Sync.submissions (Sync.events w)
             ++ [ (Sync.after_video_channel_import (Some (Sync.id s)), []) ]
        /\ option_map Sync.state
             (Sync.session
                (snd (SyncChannelEntries.synchronizeChannel env options w)))
           = Some Sync.PROCESSING).
Proof.
  split; [|split].
  - apply syncChannel_zero_candidates.
  - apply syncChannelEntries_zero_candidates.
  - apply syncChannelEntries_all_skipped.
Qed.

(** The theorem on the samples: a listing whose two entries are still to be
    released leaves no candidate, and the session is SYNCED with nothing
    queued; two entries that are both imported already give a parent job
    without children in the revision on entries. *)
Lemma no_child_job_runs_witness :
  Sync.syncedDirectly 1700000000000
    (SyncChannel.synchronizeChannel
       (Samples.syncEnv (Samples.listing (Some 1800000000)) false)
       Samples.syncOptions)
    Samples.withSession Samples.pendingSession
  /\ Sync.submissions
       (Sync.events
          (snd (SyncChannelEntries.synchronizeChannel
                  (Samples.entriesEnv (Return Samples.twoEntries) true)
                  Samples.entriesOptions Samples.withSession)))
     = [ (Sync.after_video_channel_import (Some 7), []) ].
Proof.
  destruct no_child_job_runs as [Hzero [_ Hskipped]]. split.
  - apply (Hzero (Samples.syncEnv (Samples.listing (Some 1800000000)) false)
             Samples.syncOptions Samples.withSession Samples.pendingSession
             {| Sync.user_id := 1 |}).
    + reflexivity.
    + intros s'. reflexivity.
    + reflexivity.
    + reflexivity.
  - destruct (Hskipped (Samples.entriesEnv (Return Samples.twoEntries) true)
                Samples.entriesOptions Samples.withSession
                Samples.pendingSession {| Sync.user_id := 1 |}
                Samples.twoEntries)
      as [_ [Hsub _]].
    + reflexivity.
    + intros s'. reflexivity.
    + reflexivity.
    + reflexivity.
    + discriminate.
    + intros entry w' _. reflexivity.
    + reflexivity.
    + exact Hsub.
Defined.

(** C2 as stated fails in sync-channel.ts.  With no candidate (both listed
    entries are still to be released) the run hands nothing to the queue,
    although the session does end SYNCED; with two candidates that are both
    skipped (already imported) it hands nothing to the queue either, and,
    the logger having no method [warning], the session ends FAILED. *)
Lemma no_child_job_claim_counterexample :
  Sync.submissions
    (Sync.events
       (snd (SyncChannel.synchronizeChannel
               (Samples.syncEnv (Samples.listing (Some 1800000000)) false)
               Samples.syncOptions Samples.withSession)))
  = []
  /\ Wrapper.getInfoForListImport
       (Samples.wrapperEnv (Samples.listing None))
       (SyncChannel.newWrapper (Samples.syncEnv (Samples.listing None) true)
          (SyncChannel.externalChannelUrl Samples.syncOptions))
       (SyncChannel.videosCountLimit Samples.syncOptions)
     = Return [ "https://example.com/v1"; "https://example.com/v2" ]
  /\ Sync.submissions
       (Sync.events
          (snd (SyncChannel.synchronizeChannel
                  (Samples.syncEnv (Samples.listing None) true)
                  Samples.syncOptions Samples.withSession)))
     = []
  /\ option_map Sync.state
       (Sync.session
          (snd (SyncChannel.synchronizeChannel
                  (Samples.syncEnv (Samples.listing None) true)
                  Samples.syncOptions Samples.withSession)))
     = Some Sync.FAILED.
Proof. repeat split; reflexivity. Qed.

(** The handler on the samples: the listing subprocess exits with code 1,
    so the [try] block throws; the supplied session ends FAILED and saved,
    and without a session the run throws. *)
Lemma failure_marks_session_failed_witness :
  Sync.session
    (snd (SyncChannel.synchronizeChannel
            (Samples.syncEnv Samples.brokenListing false)
            Samples.syncOptions Samples.withSession))
  = Some {| Sync.id := 7; Sync.state := Sync.FAILED;
            Sync.lastSyncAt := Some 1700000000000 |}
  /\ isThrow
       (fst (SyncChannelEntries.synchronizeChannel
               (Samples.entriesEnv (Throw (OtherError "no listing")) false)
               Samples.entriesOptions Samples.withoutSession))
     = true.
Proof.
  destruct failure_marks_session_failed as [Hurls Hentries]. split.
  - destruct (Hurls (Samples.syncEnv Samples.brokenListing false)
                Samples.syncOptions Samples.withSession
                (snd (SyncChannel.markProcessing
                        (Samples.syncEnv Samples.brokenListing false)
                        Samples.withSession))
                (snd (SyncChannel.tryBlock
                        (Samples.syncEnv Samples.brokenListing false)
                        Samples.syncOptions
                        (snd (SyncChannel.markProcessing
                                (Samples.syncEnv Samples.brokenListing false)
                                Samples.withSession))))
                (TypeError
                   "Cannot read properties of undefined (reading 'length')")
                eq_refl eq_refl) as [Hwith _].
    destruct (Hwith Samples.pendingSession eq_refl)
      as [s2 [Hs2 [_ [Hfinal _]]]].
    injection Hs2 as <-. exact Hfinal.
  - destruct (Hentries
                (Samples.entriesEnv (Throw (OtherError "no listing")) false)
                Samples.entriesOptions Samples.withoutSession
                Samples.withoutSession Samples.withoutSession
                (OtherError "no listing") eq_refl eq_refl) as [_ Hnone].
    now rewrite (Hnone eq_refl).
Defined.

(** C3.  A run without a session whose [try] block throws.  In
    sync-channel.ts the lookup of the user fails, in the revision on
    entries the listing does: the [try] block throws that error, and with
    a session the run would end FAILED and saved; without one, the caller
    does not get the error that escaped but the TypeError of the handler's
    assignment to the missing session. *)
Theorem failure_without_session_loses_error :
  fst (SyncChannel.tryBlock MoreSamples.lookupFails Samples.syncOptions
         Samples.withoutSession)
  = Throw (OtherError "user lookup failed")
  /\ fst (SyncChannel.synchronizeChannel MoreSamples.lookupFails
            Samples.syncOptions Samples.withoutSession)
     = Throw (TypeError
                "Cannot set properties of undefined (setting 'state')")
  /\ option_map Sync.state
       (Sync.session
          (snd (SyncChannel.synchronizeChannel MoreSamples.lookupFails
                  Samples.syncOptions Samples.withSession)))
     = Some Sync.FAILED
  /\ fst (SyncChannelEntries.tryBlock
            (Samples.entriesEnv (Throw (OtherError "no listing")) false)
            Samples.entriesOptions Samples.withoutSession)
     = Throw (OtherError "no listing")
  /\ fst (SyncChannelEntries.synchronizeChannel
            (Samples.entriesEnv (Throw (OtherError "no listing")) false)
            Samples.entriesOptions Samples.withoutSession)
     = Throw (TypeError
                "Cannot set properties of undefined (setting 'state')").
Proof.
  destruct failure_marks_session_failed as [Hurls Hentries].
  split; [reflexivity|]. split; [|split; [|split; [reflexivity|]]].
  - apply (Hurls MoreSamples.lookupFails Samples.syncOptions
             Samples.withoutSession Samples.withoutSession
             Samples.withoutSession (OtherError "user lookup failed")
             eq_refl eq_refl).
    reflexivity.
  - reflexivity.
  - apply (Hentries
             (Samples.entriesEnv (Throw (OtherError "no listing")) false)
             Samples.entriesOptions Samples.withoutSession
             Samples.withoutSession Samples.withoutSession
             (OtherError "no listing") eq_refl eq_refl).
    reflexivity.
Qed.

(* ===================================================================== *)
(** ** download, getSubs and the shape of what getInfo returns *)
(* ===================================================================== *)

Section MethodFacts.
Import CLIMethods CLIWords.

Lemma startsWith_app (p t : jsstring) : startsWith p (p ++ t) = true.
Proof.
  induction p as [|c p IH]; simpl; [reflexivity|].
  now rewrite N.eqb_refl, IH.
Qed.

Lemma startsWith_split (p s : jsstring) :
  startsWith p s = true -> s = p ++ skipn (List.length p) s.
Proof.
  revert s. induction p as [|c p IH]; intros s; simpl; [reflexivity|].
  destruct s as [|d s]; [discriminate|].
  intros H. apply andb_true_iff in H. destruct H as [Hc Hp].
  apply N.eqb_eq in Hc. subst d. f_equal. now apply IH.
Qed.

Lemma indexOfFrom_range (needle hay : jsstring) (i : Z) :
  indexOfFrom i needle hay = -1 \/ i <= indexOfFrom i needle hay.
Proof.
  revert i. induction hay as [|c hay IH]; intros i; simpl.
  - destruct (startsWith needle []); [right; lia|now left].
  - destruct (startsWith needle (c :: hay)); [right; lia|].
    destruct (IH (i + 1)) as [H|H]; [now left|right; lia].
Qed.

(** [line.indexOf (needle) === 0] says that [line] starts with [needle]. *)
Lemma indexOf_zero (needle hay : jsstring) :
  (indexOf needle hay =? 0) = startsWith needle hay.
Proof.
  unfold indexOf. destruct hay as [|c hay]; simpl.
  - now destruct (startsWith needle []).
  - destruct (startsWith needle (c :: hay)); [reflexivity|].
    pose proof (indexOfFrom_range needle hay 1) as H.
    change (0 + 1) with 1. destruct H; apply Z.eqb_neq; lia.
Qed.

Lemma subtitleFiles_spec (data : list jsstring) (f : jsstring) :
  In f (subtitleFiles data) <-> In (skipString ++ f) data.
Proof.
  induction data as [|line rest IH]; [simpl; tauto|].
  cbn [subtitleFiles]. rewrite indexOf_zero.
  destruct (startsWith skipString line) eqn:E; cbn [In]; rewrite IH.
  - split.
    + intros [H|H]; [left|now right].
      rewrite <- H. unfold slice. now apply startsWith_split.
    + intros [H|H]; [left|now right].
      rewrite H. unfold slice. rewrite skipn_app, Nat.sub_diag.
      now rewrite skipn_all.
  - split; [now right|].
    intros [H|H]; [|exact H]. rewrite H in E.
    now rewrite startsWith_app in E.
Qed.

Lemma subtitleFiles_length (data : list jsstring) :
  (List.length (subtitleFiles data) <= List.length data)%nat.
Proof.
  induction data as [|line rest IH]; [simpl; lia|].
  cbn [subtitleFiles].
  destruct (indexOf skipString line =? 0); cbn [List.length]; lia.
Qed.

Lemma subtitleFiles_filter (data : list jsstring) :
  subtitleFiles data
  = map (skipn (List.length skipString))
        (filter (startsWith skipString) data).
Proof.
  induction data as [|line rest IH]; [reflexivity|].
  cbn [subtitleFiles filter]. rewrite indexOf_zero.
  destruct (startsWith skipString line); cbn [map]; now rewrite IH.
Qed.

(** X1.  [getSubs] runs the subprocess on --skip-download --all-subs
    --sub-format=<format>.  An error of [run] goes to the caller as it is;
    an empty stdout, for which [run] returns [undefined], makes it throw a
    TypeError; otherwise it returns exactly this array: the output lines
    that begin with the announcement ["[info] Writing video subtitles
    to: "], in the order of the output, each without the announcement.  So
    a file is returned exactly when some line announces it, and there are
    no more files than lines. *)
Theorem getSubs_returns_announced_files
    (env : CLI.Env) (url format : string) :
  match CLI.run env url
          [ "--skip-download"; "--all-subs";
            ("--sub-format=" ++ format)%string ] with
  | Throw e => getSubs env url format = Throw e
  | Return None =>
      getSubs env url format
      = Throw (TypeError
                 "Cannot read properties of undefined (reading 'length')")
  | Return (Some data) =>
      getSubs env url format
      = Return (map (skipn (List.length skipString))
                    (filter (startsWith skipString) data))
      /\ exists files,
           getSubs env url format = Return files
           /\ (forall f, In f files <-> In (skipString ++ f) data)
           /\ (List.length files <= List.length data)%nat
  end.
Proof.
  unfold getSubs.
  destruct (CLI.run env url _) as [[data|]|e]; try reflexivity.
  split; [now rewrite subtitleFiles_filter|].
  exists (subtitleFiles data). split; [reflexivity|]. split.
  - intros f. apply subtitleFiles_spec.
  - apply subtitleFiles_length.
Qed.






Lemma splitLinesFrom_nonempty (s cur : jsstring) : splitLinesFrom cur s <> [].
Proof.
  revert cur. induction s as [|c rest IH]; intros cur; simpl; [discriminate|].
  destruct (c =? LF)%N; [discriminate|].
  destruct (c =? CR)%N; [|apply IH].
  destruct rest as [|c' rest']; [apply IH|].
  destruct (c' =? LF)%N; [discriminate|apply IH].
Qed.

(** What [run] returns is never an empty array. *)
Lemma run_lines_nonempty (env : CLI.Env) (url : string) (args : list string) :
  CLI.run env url args <> Return (Some []).
Proof.
  unfold CLI.run.
  destruct (CLI.execa env _ _) as [e|[output|]]; simpl; try discriminate.
  destruct (negb _); [discriminate|].
  destruct (0 <? _)%nat; [discriminate|].
  destruct (CLI.stdout output) as [|c s] eqn:E; [discriminate|].
  intros [= H]. now apply splitLinesFrom_nonempty in H.
Qed.

Lemma parseLines_return (env : CLI.Env) (data : list jsstring)
    (info : list CLI.YoutubeDLCLIResult) :
  CLI.parseLines env data = Return info ->
  Forall2 (fun d r => CLI.JSON_parse env d = Return r) data info.
Proof.
  revert info. induction data as [|d data IH]; intros info; simpl.
  - intros [= <-]. constructor.
  - destruct (CLI.JSON_parse env d) as [r|e] eqn:P; [|discriminate].
    destruct (CLI.parseLines env data) as [rs|e]; [|discriminate].
    intros [= <-]. constructor; [exact P|now apply IH].
Qed.

(** X3.  When [run] returns lines, [getInfo] parses every one of them in
    order: it throws only what [JSON.parse] throws on one of the lines, and
    otherwise returns the records line by line, as the record itself when
    there is one line and as an array when there are more; it then returns
    neither [undefined] nor an empty array. *)
Theorem getInfo_records_match_lines
    (env : CLI.Env) (url format : string) (data : list jsstring)
    (additional : list string) :
  CLI.run env url (CLI.getInfoArgs env format additional)
    = Return (Some data) ->
  data <> []
  /\ match CLI.getInfo env url format additional with
     | Throw e => exists d, In d data /\ CLI.JSON_parse env d = Throw e
     | Return v =>
         exists info,
           Forall2 (fun d r => CLI.JSON_parse env d = Return r) data info
           /\ v = match info with
                  | [ r ] => CLI.Single r
                  | _ => CLI.Many info
                  end
           /\ v <> CLI.Undefined /\ v <> CLI.Many []
     end.
Proof.
  intros Hrun. assert (Hne : data <> []).
  { intros ->. now apply run_lines_nonempty in Hrun. }
  split; [exact Hne|]. unfold CLI.getInfo. rewrite Hrun.
  destruct (CLI.parseLines env data) as [info|e] eqn:P.
  - exists info. pose proof (parseLines_return env data info P) as F.
    split; [exact F|]. split; [reflexivity|].
    destruct F as [|d r data' info' _ F']; [contradiction|].
    destruct F'; split; discriminate.
  - now apply parseLines_throw.
Qed.

End MethodFacts.


(** X3 on a listing of two lines. *)
Lemma getInfo_records_match_lines_witness :
  CLI.getInfo (Samples.listing None) Samples.videoUrl "best" []
  <> Return CLI.Undefined.
Proof.
  destruct (getInfo_records_match_lines (Samples.listing None)
              Samples.videoUrl "best" [ str "1"; str "2" ] [] eq_refl)
    as [_ H].
  destruct (CLI.getInfo (Samples.listing None) Samples.videoUrl "best" [])
    as [v|e]; [|discriminate].
  destruct H as [info [_ [_ [Hv _]]]]. congruence.
Defined.

(* ===================================================================== *)
(** ** The listing: what getListInfo and getInfoForListImport can return *)
(* ===================================================================== *)

Section ListingFacts.
Import CLIWords.

(** [getListInfo], with its two argument lists named. *)
Lemma getListInfo_passes (env : CLI.Env) (url : string)
    (latestVideosCount : option Z) :
  CLI.getListInfo env url latestVideosCount
  = if CLI.isYtDlp env then
      match CLI.getInfo env url listFormat (flatPassArgs latestVideosCount) with
      | Throw e => Throw e
      | Return flatList =>
          match CLI.getInfo env url listFormat
                  (detailedPassArgs latestVideosCount) with
          | Throw e => Throw e
          | Return lst => CLI.mergeLists flatList lst
          end
      end
    else
      match CLI.getInfo env url listFormat (baseListArgs latestVideosCount) with
      | Throw e => Throw e
      | Return lst => CLI.mergeLists (CLI.Many []) lst
      end.
Proof. reflexivity. Qed.

Lemma getInfo_not_empty_array (env : CLI.Env) (url format : string)
    (additional : list string) :
  CLI.getInfo env url format additional <> Return (CLI.Many []).
Proof.
  destruct (CLI.run env url (CLI.getInfoArgs env format additional))
    as [[data|]|e] eqn:R.
  - unfold CLI.getInfo. rewrite R.
    destruct (CLI.parseLines env data) as [info|e] eqn:P; [|discriminate].
    pose proof (parseLines_return env data info P) as F.
    destruct F as [|d r data' info' _ F'].
    + now apply run_lines_nonempty in R.
    + destruct F'; discriminate.
  - unfold CLI.getInfo. rewrite R. discriminate.
  - unfold CLI.getInfo. rewrite R. discriminate.
Qed.

Lemma mergeLists_not_empty_array (flatList lst : CLI.InfoValue) :
  lst <> CLI.Many [] ->
  CLI.mergeLists flatList lst <> Return (CLI.Many []).
Proof.
  intros Hl. unfold CLI.mergeLists.
  destruct flatList as [|r|fl]; [discriminate|congruence|].
  destruct (0 <? List.length fl)%nat; [|congruence].
  destruct lst as [|r|l]; try discriminate.
  destruct l; [contradiction|discriminate].
Qed.

Lemma getListInfo_not_empty_array (env : CLI.Env) (url : string)
    (latestVideosCount : option Z) :
  CLI.getListInfo env url latestVideosCount <> Return (CLI.Many []).
Proof.
  rewrite getListInfo_passes. destruct (CLI.isYtDlp env).
  - destruct (CLI.getInfo _ _ _ (flatPassArgs _)) as [fl|e]; [|discriminate].
    destruct (CLI.getInfo _ _ _ (detailedPassArgs _)) as [l|e] eqn:G;
      [|discriminate].
    apply mergeLists_not_empty_array. intros ->.
    now apply getInfo_not_empty_array in G.
  - destruct (CLI.getInfo _ _ _ (baseListArgs _)) as [l|e] eqn:G;
      [|discriminate].
    apply mergeLists_not_empty_array. intros ->.
    now apply getInfo_not_empty_array in G.
Qed.

(** X4.  [getListInfo] never returns an empty array, with or without the
    flat pass; so the test [list.length === 0] of [getInfoForListImport]
    is never what stops an import, and a listing of exactly one entry, which
    [getInfo] hands back as the record itself and not as an array, is
    refused, once [safeGet] has handed out the runner, with the error on a
    result that is not a list. *)
Theorem listing_never_empty_and_single_entry_refused
    (env : Wrapper.Env) (this : Wrapper.YoutubeDLWrapper)
    (latestVideosCount : option Z) :
  CLI.getListInfo (Wrapper.cli env) (Wrapper.url this) latestVideosCount
  <> Return (CLI.Many [])
  /\ (forall d r,
         (forall args,
             CLI.run (Wrapper.cli env) (Wrapper.url this) args
             = Return (Some [ d ])) ->
         CLI.JSON_parse (Wrapper.cli env) d = Return r ->
         Wrapper.getInfoForListImport env this latestVideosCount
         = match Wrapper.safeGet env with
           | Throw e => Throw e
           | Return _ =>
               Throw (OtherError
                        ("YoutubeDL could not get list info from "
                         ++ Wrapper.url this ++ ": "
                         ++ Wrapper.inspect env (CLI.Single r)))
           end).
Proof.
  split.
  - apply getListInfo_not_empty_array.
  - intros d r Hrun Hparse.
    assert (G : forall format additional,
               CLI.getInfo (Wrapper.cli env) (Wrapper.url this) format additional
               = Return (CLI.Single r)).
    { intros format additional. unfold CLI.getInfo. rewrite Hrun. simpl.
      now rewrite Hparse. }
    unfold Wrapper.getInfoForListImport. rewrite getListInfo_passes.
    destruct (Wrapper.safeGet env); [|reflexivity].
    destruct (CLI.isYtDlp (Wrapper.cli env)); rewrite ?G; reflexivity.
Qed.

(** X5.  Under yt-dlp the listing stands or falls with the flat pass: when
    that pass gives nothing, because its subprocess failed or printed
    nothing, [getListInfo] throws a TypeError on the length of [undefined]
    whatever the detailed pass returned, and [getInfoForListImport], once
    [safeGet] has handed out the runner, throws it too. *)
Theorem flat_pass_failure_breaks_listing
    (env : Wrapper.Env) (this : Wrapper.YoutubeDLWrapper)
    (latestVideosCount : option Z) (detailed : CLI.InfoValue) :
  CLI.isYtDlp (Wrapper.cli env) = true ->
  CLI.getInfo (Wrapper.cli env) (Wrapper.url this) listFormat
    (flatPassArgs latestVideosCount) = Return CLI.Undefined ->
  CLI.getInfo (Wrapper.cli env) (Wrapper.url this) listFormat
    (detailedPassArgs latestVideosCount) = Return detailed ->
  CLI.getListInfo (Wrapper.cli env) (Wrapper.url this) latestVideosCount
  = Throw (TypeError
             "Cannot read properties of undefined (reading 'length')")
  /\ Wrapper.getInfoForListImport env this latestVideosCount
     = match Wrapper.safeGet env with
       | Throw e => Throw e
       | Return _ =>
           Throw (TypeError
                    "Cannot read properties of undefined (reading 'length')")
       end.
Proof.
  intros Hyt Hflat Hdet.
  assert (H : CLI.getListInfo (Wrapper.cli env) (Wrapper.url this)
                latestVideosCount
              = Throw (TypeError
                         "Cannot read properties of undefined (reading 'length')")).
  { rewrite getListInfo_passes, Hyt, Hflat, Hdet. reflexivity. }
  split; [exact H|]. unfold Wrapper.getInfoForListImport. now rewrite H.
Qed.

End ListingFacts.

(** X4 on a listing of one entry. *)
Lemma listing_never_empty_and_single_entry_refused_witness :
  Wrapper.getInfoForListImport
    (Samples.wrapperEnv MoreSamples.oneEntryListing) Samples.videoWrapper
    (Some 10)
  = Throw (OtherError
             "YoutubeDL could not get list info from https://example.com/watch?v=1: [Object]").
Proof.
  apply (proj2 (listing_never_empty_and_single_entry_refused
                  (Samples.wrapperEnv MoreSamples.oneEntryListing)
                  Samples.videoWrapper (Some 10))
           (str "1")
           {| CLI.webpage_url := Some "https://example.com/v1";
              CLI.timestamp := None;
              CLI.release_timestamp := None;
              CLI.json := str "1" |}).
  - intros args. reflexivity.
  - reflexivity.
Defined.

(** X5 on a flat pass that exits with code 1. *)
Lemma flat_pass_failure_breaks_listing_witness :
  Wrapper.getInfoForListImport
    (Samples.wrapperEnv MoreSamples.flatPassBroken) Samples.videoWrapper
    (Some 10)
  = Throw (TypeError
             "Cannot read properties of undefined (reading 'length')").
Proof.
  apply (proj2 (flat_pass_failure_breaks_listing
                  (Samples.wrapperEnv MoreSamples.flatPassBroken)
                  Samples.videoWrapper (Some 10)
                  (CLI.Many
                     [ {| CLI.webpage_url := Some "https://example.com/v1";
                          CLI.timestamp := None;
                          CLI.release_timestamp := None;
                          CLI.json := str "1" |};
                       {| CLI.webpage_url := Some "https://example.com/v2";
                          CLI.timestamp := None;
                          CLI.release_timestamp := None;
                          CLI.json := str "2" |} ])
                  eq_refl eq_refl eq_refl)).
Defined.

(* ===================================================================== *)
(** ** The wrapper: candidates, single videos, files *)
(* ===================================================================== *)

Section WrapperFacts.

Variable env : Wrapper.Env.

(** The item is not a premiere still to come. *)
Let released (item : Wrapper.YoutubeDLInfo) : Prop :=
  forall t, Wrapper.release_timestamp item = Some t ->
            t <= Wrapper.Date_now env / 1000.

Lemma filterUnavailable_In (lst : list Wrapper.YoutubeDLInfo)
    (item : Wrapper.YoutubeDLInfo) :
  In item (Wrapper.filterUnavailable env lst) <-> In item lst /\ released item.
Proof.
  unfold Wrapper.filterUnavailable, released. rewrite filter_In.
  destruct (Wrapper.release_timestamp item) as [t|].
  - destruct (Z.ltb_spec (Wrapper.Date_now env / 1000) t); split.
    + intros [_ [=]].
    + intros [_ H']. specialize (H' t eq_refl). lia.
    + intros [Hin _]. split; [exact Hin|]. now intros t' [= <-].
    + intros [Hin _]. now split.
  - split; intros [Hin _]; (split; [exact Hin|]); [intros t [=]|reflexivity].
Qed.

Lemma filter_idempotent {A} (f : A -> bool) (l : list A) :
  filter f (filter f l) = filter f l.
Proof.
  induction l as [|x l IH]; simpl; [reflexivity|].
  destruct (f x) eqn:E; simpl; rewrite ?E, IH; reflexivity.
Qed.

(** X6.  [filterUnavailable] keeps exactly the items whose release
    timestamp is absent or not after the current second, a release at the
    current second included; filtering twice changes nothing.  When the
    listing is an array, [getInfoForListImport], once [safeGet] has handed
    out the runner, returns the URLs of exactly those built items, so never
    more URLs than items; it throws only what [safeGet] throws. *)
Theorem candidates_are_released_items
    (this : Wrapper.YoutubeDLWrapper) (latestVideosCount : option Z)
    (lst : list CLI.YoutubeDLCLIResult) :
  CLI.getListInfo (Wrapper.cli env) (Wrapper.url this) latestVideosCount
    = Return (CLI.Many lst) ->
  let built := Wrapper.listBuilder_getList env lst in
  (forall item,
      In item (Wrapper.filterUnavailable env built)
      <-> In item built /\ released item)
  /\ Wrapper.filterUnavailable env (Wrapper.filterUnavailable env built)
     = Wrapper.filterUnavailable env built
  /\ match Wrapper.safeGet env with
     | Throw e =>
         Wrapper.getInfoForListImport env this latestVideosCount = Throw e
     | Return _ =>
         exists urls,
           Wrapper.getInfoForListImport env this latestVideosCount
           = Return urls
           /\ (forall u,
                  In u urls
                  <-> exists item,
                        In item built /\ released item
                        /\ Wrapper.webpageUrl item = u)
           /\ (List.length urls <= List.length built)%nat
     end.
Proof.
  intros Hlist built. split; [intros item; apply filterUnavailable_In|].
  split; [apply filter_idempotent|].
  unfold Wrapper.getInfoForListImport. rewrite Hlist.
  destruct (Wrapper.safeGet env) as [got|e]; [|reflexivity].
  exists (map Wrapper.webpageUrl (Wrapper.filterUnavailable env built)).
  split; [|split].
  - destruct lst as [|r lst']; [|reflexivity].
    exfalso. revert Hlist.
    apply getListInfo_not_empty_array.
  - intros u. rewrite in_map_iff. split.
    + intros [item [Hu Hin]]. apply filterUnavailable_In in Hin.
      exists item. tauto.
    + intros [item [Hin [Hrel Hu]]]. exists item.
      split; [exact Hu|]. apply filterUnavailable_In. tauto.
  - rewrite length_map. unfold Wrapper.filterUnavailable. apply filter_length_le.
Qed.

(** X7.  [getInfoForDownload] throws what [safeGet] throws, then what
    [getInfo] throws, and the no-info error when [getInfo] returns
    [undefined].  Once [safeGet] has handed out the runner and [getInfo] has
    returned something, the outcome depends on the formats of what the
    builder of youtube-dl-info-builder.ts makes of it, and on nothing else:
    without a format it is the no-formats error, naming the built page URL,
    and otherwise the built information is returned.  That builder sets no
    [isLive] property, so the wrapper itself never raises the live error,
    and a live video that has a format is returned like any other.  What is
    returned always lists at least one format. *)
Theorem getInfoForDownload_outcomes
    (this : Wrapper.YoutubeDLWrapper) (youtubeDLArgs : list string) :
  let asked :=
    CLI.getInfo (Wrapper.cli env) (Wrapper.url this)
      (CLI.getYoutubeDLVideoFormat (Wrapper.enabledResolutions this)
         (Wrapper.useBestFormat this)) youtubeDLArgs in
  let build raw :=
    InfoBuilder.getInfo (Wrapper.builder env) (Wrapper.properties env raw) in
  (forall e,
      Wrapper.safeGet env = Throw e ->
      Wrapper.getInfoForDownload env this youtubeDLArgs = Throw e)
  /\ (forall raw,
         Wrapper.safeGet env = Return tt ->
         asked = Return raw -> raw <> CLI.Undefined ->
         Wrapper.getInfoForDownload env this youtubeDLArgs
         = match InfoBuilder.info_formats (build raw) with
           | [] =>
               Throw (YoutubeDLNoFormatsError
                        (Wrapper.urlText (InfoBuilder.webpageUrl (build raw))))
           | _ :: _ => Return (build raw)
           end)
  /\ (forall info,
         Wrapper.getInfoForDownload env this youtubeDLArgs = Return info ->
         InfoBuilder.info_formats info <> []
         /\ exists raw,
              asked = Return raw /\ raw <> CLI.Undefined
              /\ info = build raw)
  /\ (forall u,
         Wrapper.getInfoForDownload env this youtubeDLArgs
         = Throw (YoutubeDLIsLiveError u) ->
         Wrapper.safeGet env = Throw (YoutubeDLIsLiveError u)
         \/ asked = Throw (YoutubeDLIsLiveError u))
  /\ (forall e,
         Wrapper.safeGet env = Return tt -> asked = Throw e ->
         Wrapper.getInfoForDownload env this youtubeDLArgs = Throw e)
  /\ (Wrapper.safeGet env = Return tt -> asked = Return CLI.Undefined ->
      Wrapper.getInfoForDownload env this youtubeDLArgs
      = Throw (YoutubeDLNoInfoError (Wrapper.url this))).
Proof.
  cbv zeta. unfold Wrapper.getInfoForDownload, Wrapper.isLive.
  split; [|split; [|split; [|split; [|split]]]];
    [| | | |intros e -> ->; reflexivity|intros -> ->; reflexivity].
  - intros e ->. reflexivity.
  - intros raw -> -> Hne.
    destruct raw as [|r|l]; [contradiction| |];
      destruct (InfoBuilder.info_formats _); reflexivity.
  - intros info. destruct (Wrapper.safeGet env); [|discriminate].
    destruct (CLI.getInfo _ _ _ _) as [[|r|l]|e]; try discriminate.
    + destruct (InfoBuilder.info_formats _) eqn:F; [discriminate|].
      intros [= <-]. split; [now rewrite F|].
      exists (CLI.Single r). repeat split. discriminate.
    + destruct (InfoBuilder.info_formats _) eqn:F; [discriminate|].
      intros [= <-]. split; [now rewrite F|].
      exists (CLI.Many l). repeat split. discriminate.
  - intros u. destruct (Wrapper.safeGet env); [|intros [= ->]; now left].
    destruct (CLI.getInfo _ _ _ _) as [[|r|l]|e]; try discriminate.
    + destruct (InfoBuilder.info_formats _); discriminate.
    + destruct (InfoBuilder.info_formats _); discriminate.
    + intros [= ->]. now right.
Qed.

End WrapperFacts.

(* ===================================================================== *)
(** ** Subtitle files and the downloaded video file *)
(* ===================================================================== *)

Section FileFacts.
Import WrapperFiles FileWords.

Lemma skipLetters_spec (s : jsstring) :
  exists letters,
    s = letters ++ skipLetters s /\ forallb isLetter letters = true.
Proof.
  induction s as [|c s [letters [E F]]]; simpl.
  - exists []. split; reflexivity.
  - destruct (isLetter c) eqn:L.
    + exists (c :: letters). simpl. rewrite L, F. split; [now f_equal|reflexivity].
    + exists []. split; reflexivity.
Qed.

Lemma skipLetters_app (letters rest : jsstring) :
  forallb isLetter letters = true ->
  skipLetters (letters ++ DOT :: rest) = DOT :: rest.
Proof.
  induction letters as [|c letters IH]; simpl; [reflexivity|].
  intros H. apply andb_true_iff in H as [-> H]. now apply IH.
Qed.

Lemma matchExtension_spec (s : jsstring) :
  matchExtension s = true
  <-> exists post,
        s = DOT :: post
        /\ (matchWord (str "vtt") post = true
            \/ matchWord (str "ttml") post = true).
Proof.
  unfold matchExtension. destruct s as [|d e].
  - split; [discriminate|]. intros [post [[=] _]].
  - rewrite andb_true_iff, orb_true_iff, N.eqb_eq. split.
    + intros [-> H]. now exists e.
    + intros [post [[= -> ->] H]]. now split.
Qed.

Lemma matchTail_spec (s : jsstring) :
  matchTail s = true
  <-> exists mid post,
        s = mid ++ DOT :: post
        /\ (mid = []
            \/ exists l region,
                 mid = DASH :: l :: region
                 /\ forallb isLetter (l :: region) = true)
        /\ (matchWord (str "vtt") post = true
            \/ matchWord (str "ttml") post = true).
Proof.
  split.
  - intros H.
    assert (Hext : matchExtension s = true ->
                   exists mid post,
                     s = mid ++ DOT :: post
                     /\ (mid = []
                         \/ exists l region,
                              mid = DASH :: l :: region
                              /\ forallb isLetter (l :: region) = true)
                     /\ (matchWord (str "vtt") post = true
                         \/ matchWord (str "ttml") post = true)).
    { intros E. apply matchExtension_spec in E as [post [-> W]].
      exists [], post. split; [reflexivity|]. split; [now left|exact W]. }
    unfold matchTail in H. destruct s as [|c [|l s']]; try (now apply Hext).
    apply orb_true_iff in H as [H|H]; [|now apply Hext].
    apply andb_true_iff in H as [H E]. apply andb_true_iff in H as [C L].
    apply N.eqb_eq in C. subst c.
    destruct (skipLetters_spec s') as [letters [Es F]].
    apply matchExtension_spec in E as [post [Ep W]].
    exists (DASH :: l :: letters), post. split; [|split].
    + simpl. do 2 f_equal. rewrite <- Ep. exact Es.
    + right. exists l, letters. split; [reflexivity|]. simpl. now rewrite L, F.
    + exact W.
  - intros [mid [post [-> [[->|[l [region [-> F]]]] W]]]].
    + simpl app.
      assert (E : matchExtension (DOT :: post) = true).
      { apply matchExtension_spec. now exists post. }
      unfold matchTail. destruct post as [|p post']; [exact E|].
      rewrite E. apply orb_true_r.
    + simpl in F. apply andb_true_iff in F as [L F].
      change ((DASH :: l :: region) ++ DOT :: post)
        with (DASH :: l :: (region ++ DOT :: post)).
      unfold matchTail. rewrite (skipLetters_app region post F), L.
      assert (E : matchExtension (DOT :: post) = true).
      { apply matchExtension_spec. now exists post. }
      rewrite E. reflexivity.
Qed.

Lemma matchHere_spec (s language : jsstring) :
  matchHere s = Some language
  <-> exists l1 l2 rest,
        language = [l1; l2] /\ subtitleShape l1 l2 (DOT :: l1 :: l2 :: rest)
        /\ s = DOT :: l1 :: l2 :: rest.
Proof.
  split.
  - unfold matchHere. destruct s as [|d [|l1 [|l2 s']]]; try discriminate.
    destruct ((d =? DOT)%N && isLetter l1 && isLetter l2 && matchTail s')
      eqn:H; [|discriminate].
    intros [= <-].
    apply andb_true_iff in H as [H T]. apply andb_true_iff in H as [H L2].
    apply andb_true_iff in H as [D L1]. apply N.eqb_eq in D. subst d.
    apply matchTail_spec in T as [mid [post [-> [M W]]]].
    exists l1, l2, (mid ++ DOT :: post). split; [reflexivity|].
    split; [|reflexivity]. exists mid, post. tauto.
  - intros [l1 [l2 [rest [-> [[mid [post [E [L1 [L2 [M W]]]]]] ->]]]]].
    injection E as ->. unfold matchHere.
    assert (T : matchTail (mid ++ DOT :: post) = true).
    { apply matchTail_spec. exists mid, post. tauto. }
    rewrite L1, L2, T. reflexivity.
Qed.

Lemma matchLanguage_some (filename language : jsstring) :
  matchLanguage filename = Some language ->
  exists pre s,
    filename = pre ++ s /\ matchHere s = Some language
    /\ forall pre1 pre2, pre = pre1 ++ pre2 -> pre2 <> [] ->
                         matchHere (pre2 ++ s) = None.
Proof.
  induction filename as [|c rest IH].
  - simpl. discriminate.
  - cbn [matchLanguage]. destruct (matchHere (c :: rest)) as [m|] eqn:H.
    + intros [= ->]. exists [], (c :: rest). split; [reflexivity|].
      split; [exact H|]. intros pre1 pre2 E N.
      destruct pre1, pre2; try discriminate. contradiction.
    + intros M. destruct (IH M) as [pre [s [-> [Hs Hpre]]]].
      exists (c :: pre), s. split; [reflexivity|]. split; [exact Hs|].
      intros pre1 pre2 E N. destruct pre1 as [|c1 pre1].
      * simpl in E. subst pre2. exact H.
      * injection E as -> E. now apply (Hpre pre1 pre2).
Qed.

Lemma matchLanguage_app (pre s : jsstring) :
  matchHere s <> None -> matchLanguage (pre ++ s) <> None.
Proof.
  intros H. induction pre as [|c pre IH].
  - destruct s as [|c s']; [now contradiction H|].
    simpl app. cbn [matchLanguage].
    destruct (matchHere (c :: s')); [discriminate|now contradiction H].
  - change ((c :: pre) ++ s) with (c :: (pre ++ s)). cbn [matchLanguage].
    destruct (matchHere (c :: pre ++ s)); [discriminate|exact IH].
Qed.

Lemma matchLanguage_first (pre s : jsstring) :
  Forall (fun c => c <> DOT) pre ->
  matchLanguage (pre ++ s) = matchLanguage s.
Proof.
  induction 1 as [|c pre Hc _ IH]; [reflexivity|].
  change ((c :: pre) ++ s) with (c :: (pre ++ s)). cbn [matchLanguage].
  assert (E : matchHere (c :: pre ++ s) = None).
  { unfold matchHere. destruct (pre ++ s) as [|l1 [|l2 s']]; try reflexivity.
    destruct (N.eqb_spec c DOT); [contradiction|reflexivity]. }
  rewrite E. exact IH.
Qed.

Lemma shape_matchHere (a b : N) (s : jsstring) :
  subtitleShape a b s -> matchHere s = Some [a; b].
Proof.
  intros Sh. pose proof Sh as [mid [post [E _]]].
  apply matchHere_spec. exists a, b, (mid ++ DOT :: post).
  split; [reflexivity|]. rewrite <- E. now split.
Qed.

Lemma matchHere_none (s : jsstring) :
  matchHere s = None <-> forall a b, ~ subtitleShape a b s.
Proof.
  split.
  - intros H a b Sh. apply shape_matchHere in Sh. congruence.
  - intros H. destruct (matchHere s) as [language|] eqn:M; [|reflexivity].
    apply matchHere_spec in M as [l1 [l2 [rest [_ [Sh ->]]]]].
    now contradiction (H l1 l2).
Qed.

Lemma matchLanguage_leftmost (pre s language : jsstring) :
  matchHere s = Some language ->
  (forall pre1 pre2, pre = pre1 ++ pre2 -> pre2 <> [] ->
                     matchHere (pre2 ++ s) = None) ->
  matchLanguage (pre ++ s) = Some language.
Proof.
  intros Hs. induction pre as [|c pre IH]; intros Hpre.
  - destruct s as [|c s']; [discriminate|].
    simpl app. cbn [matchLanguage]. now rewrite Hs.
  - change ((c :: pre) ++ s) with (c :: (pre ++ s)). cbn [matchLanguage].
    assert (E : matchHere (c :: pre ++ s) = None).
    { apply (Hpre [] (c :: pre)); [reflexivity|discriminate]. }
    rewrite E. apply IH. intros pre1 pre2 -> Hne.
    now apply (Hpre (c :: pre1) pre2).
Qed.

(** X8.  The subtitle pattern.  A file name yields a language exactly when
    it contains, somewhere, a dot, two ASCII letters, optionally a dash and
    letters, a dot and [vtt] or [ttml]; the language is then the two
    letters of the leftmost such place, in the case they have in the name,
    whatever follows; and the name yields nothing exactly when it has no
    such place.  So a name [<base>.<l1><l2>.vtt] or
    [<base>.<l1><l2>-<region>.vtt] whose base has no dot yields
    [<l1><l2>]. *)
Theorem subtitle_language_of_filename (filename : jsstring) :
  (forall language,
      matchLanguage filename = Some language
      <-> exists pre l1 l2 rest,
            filename = pre ++ DOT :: l1 :: l2 :: rest
            /\ language = [l1; l2]
            /\ subtitleShape l1 l2 (DOT :: l1 :: l2 :: rest)
            /\ forall pre1 pre2 a b,
                 pre = pre1 ++ pre2 -> pre2 <> [] ->
                 ~ subtitleShape a b (pre2 ++ DOT :: l1 :: l2 :: rest))
  /\ (matchLanguage filename = None
      <-> forall pre s a b, filename = pre ++ s -> ~ subtitleShape a b s)
  /\ (forall pre l1 l2 rest,
         filename = pre ++ DOT :: l1 :: l2 :: rest ->
         subtitleShape l1 l2 (DOT :: l1 :: l2 :: rest) ->
         Forall (fun c => c <> DOT) pre ->
         matchLanguage filename = Some [l1; l2]).
Proof.
  split; [|split].
  - intros language. split.
    + intros M.
      destruct (matchLanguage_some _ _ M) as [pre [s [-> [Hs Hpre]]]].
      apply matchHere_spec in Hs as [l1 [l2 [rest [-> [Sh ->]]]]].
      exists pre, l1, l2, rest. repeat split; try assumption.
      intros pre1 pre2 a b E Hne. now apply matchHere_none, (Hpre pre1).
    + intros [pre [l1 [l2 [rest [-> [-> [Sh Hpre]]]]]]].
      apply matchLanguage_leftmost; [now apply shape_matchHere|].
      intros pre1 pre2 E Hne. apply matchHere_none.
      intros a b. now apply (Hpre pre1).
  - split.
    + intros M pre s a b -> Sh. apply shape_matchHere in Sh.
      apply (matchLanguage_app pre s); congruence.
    + intros H. destruct (matchLanguage filename) as [language|] eqn:M;
        [|reflexivity].
      destruct (matchLanguage_some _ _ M) as [pre [s [E [Hs _]]]].
      apply matchHere_spec in Hs as [l1 [l2 [rest [_ [Sh ->]]]]].
      now contradiction (H pre _ l1 l2 E).
  - intros pre l1 l2 rest -> Sh F. rewrite (matchLanguage_first _ _ F).
    cbn [matchLanguage]. now rewrite (shape_matchHere _ _ _ Sh).
Qed.

Variable env : Env.

Lemma fold_addSubtitle (files : list jsstring) (acc : list Subtitle) :
  fold_left (addSubtitle env) files acc
  = acc ++ flat_map (fun f => addSubtitle env [] f) files.
Proof.
  revert acc. induction files as [|f files IH]; intros acc; simpl.
  - now rewrite app_nil_r.
  - rewrite IH, app_assoc. f_equal.
    unfold addSubtitle. destruct (matchLanguage f); [reflexivity|].
    now rewrite app_nil_r.
Qed.

(** X9.  [getSubtitles] throws what [safeGet] throws, and then what
    [getSubs] throws; otherwise it returns one subtitle for each announced
    file whose name carries a language, in the order of the files and no
    other: the subtitle names its file, its path is the file joined to the
    temporary directory, and its language is the two-letter code found in
    the name. *)
Theorem getSubtitles_one_per_language_file (this : Wrapper.YoutubeDLWrapper) :
  match Wrapper.safeGet (wrapper env) with
  | Throw e => getSubtitles env this = Throw e
  | Return _ =>
      match CLIMethods.getSubs (Wrapper.cli (wrapper env))
              (Wrapper.url this) "vtt" with
      | Throw e => getSubtitles env this = Throw e
      | Return files =>
          exists subtitles,
            getSubtitles env this = Return subtitles
            /\ map filename subtitles
               = filter (fun f => match matchLanguage f with
                                  | Some _ => true
                                  | None => false
                                  end) files
            /\ Forall (fun s =>
                         matchLanguage (filename s) = Some (language s)
                         /\ path s = joinTmpDir env (filename s)
                         /\ List.length (language s) = 2%nat
                         /\ forallb isLetter (language s) = true)
                      subtitles
      end
  end.
Proof.
  unfold getSubtitles.
  destruct (Wrapper.safeGet (wrapper env)); [|reflexivity].
  destruct (CLIMethods.getSubs _ _ _) as [files|e]; [|reflexivity].
  eexists. split; [reflexivity|]. rewrite fold_addSubtitle. simpl app.
  clear this. induction files as [|f files [IH1 IH2]]; simpl.
  - split; [reflexivity|constructor].
  - unfold addSubtitle at 1 3. destruct (matchLanguage f) as [m|] eqn:M.
    + simpl. split; [now f_equal|]. constructor; [|exact IH2]. simpl.
      split; [exact M|]. split; [reflexivity|].
      destruct (matchLanguage_some _ _ M) as [pre [s [_ [Hs _]]]].
      apply matchHere_spec in Hs
        as [l1 [l2 [rest [-> [[mid [post [_ [L1 [L2 _]]]]] _]]]]].
      simpl. now rewrite L1, L2.
    + simpl. split; [exact IH1|exact IH2].
Qed.

Lemma firstExisting_spec (tmpPath : string) (extensions : list string) :
  match firstExisting env tmpPath extensions with
  | Some p =>
      exists before extension after,
        extensions = before ++ extension :: after
        /\ p = (tmpPath ++ extension)%string
        /\ pathExists env p = true
        /\ Forall (fun e => pathExists env (tmpPath ++ e)%string = false)
                  before
  | None =>
      Forall (fun e => pathExists env (tmpPath ++ e)%string = false)
             extensions
  end.
Proof.
  induction extensions as [|e rest IH]; simpl; [constructor|].
  destruct (pathExists env (tmpPath ++ e)%string) eqn:P.
  - exists [], e, rest. repeat split; [exact P|constructor].
  - destruct (firstExisting env tmpPath rest) as [p|].
    + destruct IH as [before [extension [after [-> [-> [Hp F]]]]]].
      exists (e :: before), extension, after. repeat split; [exact Hp|].
      now constructor.
    + now constructor.
Qed.

Lemma firstExisting_found (tmpPath : string)
    (before : list string) (extension : string) (after : list string) :
  pathExists env (tmpPath ++ extension)%string = true ->
  Forall (fun e => pathExists env (tmpPath ++ e)%string = false) before ->
  firstExisting env tmpPath (before ++ extension :: after)
  = Some (tmpPath ++ extension)%string.
Proof.
  intros P F. induction F as [|e before He F IH]; simpl.
  - now rewrite P.
  - now rewrite He.
Qed.

(** X10.  [guessVideoPathWithExtension] refuses an extension that is not a
    valid video extension whatever files exist; for a valid one it returns
    only a path that exists, the temporary path followed by the first of the
    source extension, [.mp4], [.mkv], [.webm] for which a file exists, it
    throws when none of the four exists, and it does return that path when
    one of them exists. *)
Theorem guessed_path_is_first_existing (tmpPath sourceExt : string) :
  (isVideoFileExtnameValid env sourceExt = false ->
   guessVideoPathWithExtension env tmpPath sourceExt
   = Throw (OtherError ("Invalid video extension " ++ sourceExt)%string))
  /\ (forall p,
         guessVideoPathWithExtension env tmpPath sourceExt = Return p ->
         isVideoFileExtnameValid env sourceExt = true
         /\ pathExists env p = true
         /\ exists before extension after,
              [ sourceExt; ".mp4"; ".mkv"; ".webm" ]
              = before ++ extension :: after
              /\ p = (tmpPath ++ extension)%string
              /\ Forall (fun e =>
                           pathExists env (tmpPath ++ e)%string = false)
                        before)
  /\ (Forall (fun e => pathExists env (tmpPath ++ e)%string = false)
             [ sourceExt; ".mp4"; ".mkv"; ".webm" ] ->
      isThrow (guessVideoPathWithExtension env tmpPath sourceExt) = true)
  /\ (forall before extension after,
         isVideoFileExtnameValid env sourceExt = true ->
         [ sourceExt; ".mp4"; ".mkv"; ".webm" ]
         = before ++ extension :: after ->
         pathExists env (tmpPath ++ extension)%string = true ->
         Forall (fun e => pathExists env (tmpPath ++ e)%string = false)
                before ->
         guessVideoPathWithExtension env tmpPath sourceExt
         = Return (tmpPath ++ extension)%string).
Proof.
  unfold guessVideoPathWithExtension.
  pose proof (firstExisting_spec tmpPath
                [ sourceExt; ".mp4"; ".mkv"; ".webm" ]) as S.
  split; [|split; [|split]];
    [| | |intros before extension after -> -> P F;
          now rewrite (firstExisting_found tmpPath before extension after P F)].
  - intros ->. reflexivity.
  - intros p. destruct (isVideoFileExtnameValid env sourceExt);
      [|discriminate]. simpl negb. cbv iota.
    destruct (firstExisting env tmpPath _) as [q|].
    + intros [= ->]. destruct S as [before [extension [after [E [-> [P F]]]]]].
      split; [reflexivity|]. split; [exact P|].
      now exists before, extension, after.
    + destruct (readdir env _); discriminate.
  - intros F. destruct (negb _); [reflexivity|].
    destruct (firstExisting env tmpPath _) as [q|].
    + destruct S as [before [extension [after [E [-> [P _]]]]]].
      assert (In extension [ sourceExt; ".mp4"; ".mkv"; ".webm" ]).
      { rewrite E. apply in_elt. }
      rewrite Forall_forall in F. rewrite (F _ H) in P. discriminate.
    + destruct (readdir env _); reflexivity.
Qed.

End FileFacts.

(* ===================================================================== *)
(** ** Provisioning the binary *)
(* ===================================================================== *)

Section UpdaterFacts.
Import Updater UpdaterWords.

Variable env : Env.

Let binaryPath : string := CLI.youtubeDLBinaryPath (cli env).
Let releaseUrl : string := YOUTUBE_DL_RELEASE_URL env.

Ltac run_update :=
  unfold tryUpdate, bind, got, write, releaseAsset, ret, throw, emit;
  fold binaryPath releaseUrl;
  repeat match goal with
         | H : ?x = _ |- context [?x] => rewrite H; cbn [negb fst snd]
         end;
  cbn [map last app]; rewrite <- ?app_assoc; cbn [app].

Lemma tryUpdate_outcome (es : list Effect) :
  exists urls,
    hd_error urls = Some releaseUrl
    /\ (List.length urls <= 2)%nat
    /\ ((exists err,
           tryUpdate env es = (Throw err, es ++ map Requested urls))
        \/ exists response,
             tryUpdate env es
             = (Return tt,
                es ++ map Requested urls
                   ++ [ Written binaryPath (body response);
                        LoggedInfo "youtube-dl updated" ])
             /\ peertubeGot env (last urls "") = Return response
             /\ binary response = true
             /\ isThrow (writeFile env binaryPath (body response)) = false
             /\ provenance env urls).
Proof.
  destruct (peertubeGot env releaseUrl) as [first|e] eqn:G1.
  - destruct (binary first) eqn:B1.
    + exists [ releaseUrl ]. split; [reflexivity|]. split; [simpl; lia|].
      destruct (writeFile env binaryPath (body first)) as [[]|e] eqn:W.
      * right. exists first. run_update.
        repeat split; try assumption. now left.
      * left. exists e. now run_update.
    + destruct (parseReleases env (body first)) as [json|e] eqn:P.
      2:{ exists [ releaseUrl ]. split; [reflexivity|]. split; [simpl; lia|].
          left. exists e. now run_update. }
      destruct (find (fun release =>
                        match prerelease release with
                        | Some false => true
                        | _ => false
                        end) json) as [latest|] eqn:L.
      2:{ exists [ releaseUrl ]. split; [reflexivity|]. split; [simpl; lia|].
          left. eexists. now run_update. }
      destruct (find (fun a => (asset_name a
                                =? CLI.YOUTUBE_DL_RELEASE_NAME (cli env))%string)
                     (assets latest)) as [asset|] eqn:A.
      2:{ exists [ releaseUrl ]. split; [reflexivity|]. split; [simpl; lia|].
          left. eexists. now run_update. }
      exists [ releaseUrl; browser_download_url asset ].
      split; [reflexivity|]. split; [simpl; lia|].
      destruct (peertubeGot env (browser_download_url asset))
        as [second|e] eqn:G2.
      2:{ left. exists e. now run_update. }
      destruct (binary second) eqn:B2.
      2:{ left. eexists. now run_update. }
      destruct (writeFile env binaryPath (body second)) as [[]|e] eqn:W.
      * right. exists second. run_update.
        repeat split; try assumption. right.
        now exists first, json, latest, asset.
      * left. exists e. now run_update.
  - exists [ releaseUrl ]. split; [reflexivity|]. split; [simpl; lia|].
    left. exists e. now run_update.
Qed.

Lemma updateYoutubeDLBinary_returns (es : list Effect) :
  fst (updateYoutubeDLBinary env es) = Return tt.
Proof.
  unfold updateYoutubeDLBinary. unfold bind at 1. unfold emit at 1.
  unfold tryCatch.
  destruct (tryUpdate_outcome (es ++ [ LoggedInfo "Updating youtubeDL binary" ]))
    as [urls [_ [_ [[err ->]|[response [-> _]]]]]]; reflexivity.
Qed.

Lemma requests_app (es1 es2 : list Effect) :
  requests (es1 ++ es2) = requests es1 ++ requests es2.
Proof. apply flat_map_app. Qed.

Lemma writes_app (es1 es2 : list Effect) :
  writes (es1 ++ es2) = writes es1 ++ writes es2.
Proof. apply flat_map_app. Qed.

Lemma requests_map (urls : list string) :
  requests (map Requested urls) = urls.
Proof. induction urls; simpl; [reflexivity|now f_equal]. Qed.

Lemma writes_map (urls : list string) : writes (map Requested urls) = [].
Proof. induction urls; simpl; [reflexivity|assumption]. Qed.

(** X11.  [updateYoutubeDLBinary] never throws: whatever the network, the
    feed or the disk do, it returns, and a failure is only logged.  It asks
    for the release URL first and makes at most two requests.  It writes at
    most one file, always at the binary path, and what it writes is the body
    of the last response, which was a binary response; that response is the
    one of the release URL, or of the asset named after the release in the
    first release of the feed that is not a prerelease.  When nothing was
    written, the last thing it did was to log an error. *)
Theorem update_never_throws_and_writes_only_a_binary (es : list Effect) :
  exists new,
    updateYoutubeDLBinary env es = (Return tt, es ++ new)
    /\ hd_error (requests new) = Some releaseUrl
    /\ (List.length (requests new) <= 2)%nat
    /\ ((exists err, writes new = [] /\ last new (LoggedInfo "") = LoggedError err)
        \/ exists response,
             writes new = [ (binaryPath, body response) ]
             /\ peertubeGot env (last (requests new) "") = Return response
             /\ binary response = true
             /\ provenance env (requests new)).
Proof.
  unfold updateYoutubeDLBinary. unfold bind at 1. unfold emit at 1.
  unfold tryCatch.
  destruct (tryUpdate_outcome (es ++ [ LoggedInfo "Updating youtubeDL binary" ]))
    as [urls [Hhd [Hlen [[err ->]|[response [-> [G [B [_ P]]]]]]]]].
  - exists (LoggedInfo "Updating youtubeDL binary"
              :: map Requested urls ++ [ LoggedError err ]).
    unfold emit. split.
    { f_equal. rewrite <- !app_assoc. reflexivity. }
    change (LoggedInfo "Updating youtubeDL binary"
              :: map Requested urls ++ [ LoggedError err ])
      with ([ LoggedInfo "Updating youtubeDL binary" ]
              ++ map Requested urls ++ [ LoggedError err ]).
    rewrite !requests_app, !writes_app, requests_map, writes_map.
    cbn [requests writes flat_map app]. rewrite app_nil_r.
    split; [exact Hhd|]. split; [exact Hlen|]. left. exists err.
    split; [reflexivity|].
    rewrite app_comm_cons. apply last_last.
  - exists (LoggedInfo "Updating youtubeDL binary"
              :: map Requested urls
                 ++ [ Written binaryPath (body response);
                      LoggedInfo "youtube-dl updated" ]).
    split.
    { f_equal. rewrite <- !app_assoc. reflexivity. }
    change (LoggedInfo "Updating youtubeDL binary"
              :: map Requested urls
                 ++ [ Written binaryPath (body response);
                      LoggedInfo "youtube-dl updated" ])
      with ([ LoggedInfo "Updating youtubeDL binary" ]
              ++ map Requested urls
              ++ [ Written binaryPath (body response);
                   LoggedInfo "youtube-dl updated" ]).
    rewrite !requests_app, !writes_app, requests_map, writes_map.
    cbn [requests writes flat_map app]. rewrite app_nil_r.
    split; [exact Hhd|]. split; [exact Hlen|]. right. now exists response.
Qed.

(** X12.  [safeGet] does nothing at all when the binary exists.  When it
    does not, [safeGet] creates the directory of the binary before anything
    else and then runs the update; a failed update does not make it fail, so
    it hands out a runner even when no binary could be installed.  It throws
    only what [pathExists] or [ensureDir] throw. *)
Theorem safeGet_tolerates_a_failed_update (es : list Effect) :
  match pathExists env binaryPath with
  | Throw e => safeGet env es = (Throw e, es)
  | Return true => safeGet env es = (Return tt, es)
  | Return false =>
      match ensureDir env (dirname env binaryPath) with
      | Throw e => safeGet env es = (Throw e, es)
      | Return _ =>
          safeGet env es
          = updateYoutubeDLBinary env
              (es ++ [ EnsuredDir (dirname env binaryPath) ])
          /\ fst (safeGet env es) = Return tt
      end
  end.
Proof.
  unfold safeGet, bind. fold binaryPath.
  destruct (pathExists env binaryPath) as [[|]|e]; try reflexivity.
  cbn [negb]. destruct (ensureDir env (dirname env binaryPath)) as [u|e];
    [|reflexivity].
  pose proof (updateYoutubeDLBinary_returns
                (es ++ [ EnsuredDir (dirname env binaryPath) ])) as R.
  destruct (updateYoutubeDLBinary env _) as [[[]|e] es'] eqn:U;
    [|discriminate].
  split; reflexivity.
Qed.

End UpdaterFacts.

(* ===================================================================== *)
(** ** The information builder *)
(* ===================================================================== *)

Section InfoBuilderFacts.
Import InfoBuilder InfoWords.

Variable env : Env.

Lemma truthyUrls_In (items : list WithUrl) (u : jsstring) :
  In u (truthyUrls items)
  <-> u <> [] /\ exists item, In item items /\ item_url item = Some u.
Proof.
  unfold truthyUrls. rewrite in_flat_map. split.
  - intros [item [Hin Hu]]. destruct (item_url item) as [[|c v]|] eqn:E;
      try contradiction.
    destruct Hu as [<-|[]]. split; [discriminate|]. now exists item.
  - intros [Hne [item [Hin E]]]. exists item. split; [exact Hin|].
    rewrite E. destruct u; [contradiction|now left].
Qed.

Lemma getInfo_fields (info : YoutubeDLCLIResult) :
  let built := buildVideoInfo env (normalizeObject env info) in
  let obj := getInfo env info in
  info_urls obj = info_urls built /\ info_tags obj = info_tags built
  /\ info_description obj = info_description built
  /\ category obj = category built /\ licence obj = licence built
  /\ originallyPublishedAtWithoutTime obj
     = originallyPublishedAtWithoutTime built
  /\ (name obj = name built
       /\ (name built = [] \/ NAME_min env <= len (name built))
      \/ name built <> [] /\ len (name built) < NAME_min env
         /\ name obj = name built ++ str " video").
Proof.
  unfold getInfo. cbv zeta.
  destruct (name (buildVideoInfo env (normalizeObject env info)))
    as [|c nm] eqn:N.
  - repeat split. left. rewrite ?N. split; [reflexivity|now left].
  - destruct (Z.ltb_spec (len (c :: nm)) (NAME_min env)) as [H|H].
    + cbn. repeat split. right. rewrite ?N.
      repeat split; [discriminate|exact H].
    + repeat split. left. rewrite ?N. split; [reflexivity|now right].
Qed.

Lemma subtitleUrls_In (tracks : list (jsstring * option (list WithUrl)))
    (u : jsstring) :
  In u (flat_map (fun track =>
                    match snd track with
                    | Some subs => truthyUrls subs
                    | None => []
                    end) tracks)
  <-> u <> [] /\ exists key subs item,
        In (key, Some subs) tracks /\ In item subs
        /\ item_url item = Some u.
Proof.
  rewrite in_flat_map. split.
  - intros [[key [subs|]] [Hin Hu]]; [|contradiction]. simpl in Hu.
    apply truthyUrls_In in Hu as [Hne [item [Hi E]]].
    split; [exact Hne|]. now exists key, subs, item.
  - intros [Hne [key [subs [item [Hin [Hi E]]]]]].
    exists (key, Some subs). split; [exact Hin|]. simpl.
    apply truthyUrls_In. split; [exact Hne|]. now exists item.
Qed.

Lemma truthy_In (field : option jsstring) (u : jsstring) :
  In u (match field with Some (c :: v) => [ c :: v ] | _ => [] end)
  <-> u <> [] /\ field = Some u.
Proof.
  destruct field as [[|c v]|]; simpl.
  - split; [intros []|intros [Hne [= <-]]; now apply Hne].
  - split.
    + intros [<-|[]]. split; [discriminate|reflexivity].
    + intros [_ [= <-]]. now left.
  - split; [intros []|intros [_ [=]]].
Qed.

Lemma buildAvailableUrl_pieces (obj : YoutubeDLCLIResult) :
  buildAvailableUrl env obj
  = filter (fun u => negb (falsy (Some u)) && isUrlValid env u)
      ((match url obj with Some (c :: v) => [ c :: v ] | _ => [] end)
       ++ (match urls obj with
           | Some (urlsArray l) => l
           | Some (urlsString (c :: v)) => [ c :: v ]
           | _ => []
           end)
       ++ truthyUrls (match formats obj with Some l => l | None => [] end)
       ++ truthyUrls (match thumbnails obj with Some l => l | None => [] end)
       ++ (match thumbnail obj with Some (c :: v) => [ c :: v ] | _ => [] end)
       ++ flat_map (fun track =>
                      match snd track with
                      | Some subs => truthyUrls subs
                      | None => []
                      end)
                   (match subtitles obj with Some l => l | None => [] end)).
Proof.
  unfold buildAvailableUrl. f_equal.
  destruct (thumbnail obj) as [[|c v]|];
    destruct (urls obj) as [[l|[|c' v']]|];
    rewrite ?app_nil_r, <- ?app_assoc; reflexivity.
Qed.

(** X13.  The URLs of the built information are exactly the URLs carried by
    the normalised record that are not empty and that [isUrlValid] accepts:
    none is invented, none of the valid ones is lost, and an invalid or
    empty one never gets through. *)
Theorem built_urls_are_the_valid_candidates
    (info : YoutubeDLCLIResult) (u : jsstring) :
  In u (info_urls (getInfo env info))
  <-> u <> [] /\ isUrlValid env u = true
      /\ candidateUrl (normalizeObject env info) u.
Proof.
  destruct (getInfo_fields info) as [-> _]. cbn [info_urls buildVideoInfo].
  generalize (normalizeObject env info). intros obj.
  rewrite buildAvailableUrl_pieces, filter_In, !in_app_iff, !truthy_In,
    !truthyUrls_In, subtitleUrls_In.
  unfold candidateUrl.
  assert (Hf : negb (falsy (Some u)) && isUrlValid env u = true
               <-> u <> [] /\ isUrlValid env u = true).
  { rewrite andb_true_iff. destruct u; simpl; intuition congruence. }
  rewrite Hf. clear Hf.
  assert (Hurls : u <> [] ->
            (In u (match urls obj with
                   | Some (urlsArray l) => l
                   | Some (urlsString (c :: v)) => [ c :: v ]
                   | _ => []
                   end)
             <-> (exists l, urls obj = Some (urlsArray l) /\ In u l)
                 \/ urls obj = Some (urlsString u))).
  { intros Hne. destruct (urls obj) as [[l|[|c v]]|]; simpl; split.
    - intros H. left. now exists l.
    - intros [[l' [[= <-] H]]|[=]]. exact H.
    - intros [].
    - intros [[l' [[=] _]]|[= <-]]. contradiction.
    - intros [<-|[]]. now right.
    - intros [[l' [[=] _]]|[= <-]]. now left.
    - intros [].
    - intros [[l' [[=] _]]|[=]]. }
  assert (Hitems : forall field : option (list WithUrl),
            (exists item,
                In item (match field with Some l => l | None => [] end)
                /\ item_url item = Some u)
            <-> exists l item,
                  field = Some l /\ In item l /\ item_url item = Some u).
  { intros [l|]; split.
    - intros [item H]. now exists l, item.
    - intros [l' [item [[= <-] H]]]. now exists item.
    - intros [item [[] _]].
    - intros [l' [item [[=] _]]]. }
  assert (Htracks :
            (exists key subs item,
                In (key, Some subs)
                   (match subtitles obj with Some l => l | None => [] end)
                /\ In item subs /\ item_url item = Some u)
            <-> exists tracks key subs item,
                  subtitles obj = Some tracks /\ In (key, Some subs) tracks
                  /\ In item subs /\ item_url item = Some u).
  { destruct (subtitles obj) as [tracks|]; split.
    - intros [key [subs [item H]]]. now exists tracks, key, subs, item.
    - intros [tracks' [key [subs [item [[= <-] H]]]]].
      now exists key, subs, item.
    - intros [key [subs [item [[] _]]]].
    - intros [tracks' [key [subs [item [[=] _]]]]]. }
  rewrite !Hitems, Htracks. split.
  - intros [Hin [Hne Hv]]. specialize (Hurls Hne). tauto.
  - intros [Hne [Hv Hc]]. specialize (Hurls Hne). tauto.
Qed.

Lemma firstn_In {A} (n : nat) (l : list A) (x : A) :
  In x (firstn n l) -> In x l.
Proof.
  intros H. rewrite <- (firstn_skipn n l). apply in_or_app. now left.
Qed.

(** X14.  Bounds on what the builder hands out.  There are at most five
    tags, each the normal form of a tag of the record whose length lies
    strictly between the two tag bounds.  A name that is not empty has at
    least the minimal name length, or at least seven characters when the
    suffix [ video] had to be added.  A description is given only when the
    record's description is not shorter than the minimal description
    length, and is then its truncation. *)
Theorem built_tags_name_description (info : YoutubeDLCLIResult) :
  let obj := normalizeObject env info in
  let built := getInfo env info in
  (List.length (info_tags built) <= 5)%nat
  /\ Forall (fun tag =>
               exists raw t,
                 tags obj = Some raw /\ In t raw
                 /\ TAG_min env < len t < TAG_max env
                 /\ tag = normalize env t)
            (info_tags built)
  /\ (name built = []
      \/ NAME_min env <= len (name built)
      \/ 7 <= len (name built))
  /\ (forall d,
         info_description built = Some d ->
         exists raw,
           description obj = Some raw
           /\ DESCRIPTION_min env <= len raw
           /\ d = peertubeTruncate env (Some raw) (DESCRIPTION_max env)).
Proof.
  cbv zeta.
  destruct (getInfo_fields info) as [_ [-> [-> [_ [_ [_ Hname]]]]]].
  cbn [info_tags info_description buildVideoInfo].
  split; [|split; [|split]].
  - unfold getTags. destruct (tags (normalizeObject env info));
      [apply firstn_le_length|simpl; lia].
  - unfold getTags. destruct (tags (normalizeObject env info)) as [raw|];
      [|constructor].
    apply Forall_forall. intros tag Hin. apply firstn_In in Hin.
    apply in_map_iff in Hin as [t [<- Hin]].
    apply filter_In in Hin as [Hin Hb].
    apply andb_true_iff in Hb as [Hmax Hmin].
    exists raw, t. repeat split; try assumption; lia.
  - destruct Hname as [[-> [H|H]]|[Hne [Hshort ->]]]; [now left|now right; left|].
    right. right. unfold len. rewrite length_app.
    destruct (name (buildVideoInfo env (normalizeObject env info)));
      [contradiction|]. simpl. lia.
  - intros d. unfold descriptionTruncation.
    destruct (description (normalizeObject env info)) as [[|c raw]|];
      try discriminate.
    destruct (Z.ltb_spec (len (c :: raw)) (DESCRIPTION_min env));
      [discriminate|].
    intros [= <-]. exists (c :: raw). repeat split. assumption.
Qed.

Lemma digit_value (k : Z) :
  0 <= k <= 9 -> Z.of_N (digit k) - 48 = k /\ isDigit (digit k) = true.
Proof.
  intros H. unfold digit, isDigit. split; [lia|].
  apply andb_true_iff. split; apply N.leb_le; lia.
Qed.

Lemma pad_digits (n : Z) :
  0 <= n <= 9999 ->
  0 <= n / 1000 <= 9 /\ 0 <= n / 100 mod 10 <= 9
  /\ 0 <= n / 10 mod 10 <= 9 /\ 0 <= n mod 10 <= 9
  /\ 10 * (10 * (10 * (n / 1000) + n / 100 mod 10) + n / 10 mod 10)
     + n mod 10 = n.
Proof. intros H. Z.to_euclidean_division_equations. lia. Qed.

Lemma pad2_digits (n : Z) :
  0 <= n <= 99 ->
  0 <= n / 10 <= 9 /\ 0 <= n mod 10 <= 9 /\ 10 * (n / 10) + n mod 10 = n.
Proof. intros H. Z.to_euclidean_division_equations. lia. Qed.

(** X15.  The upload date.  A record whose [upload_date] is a year, a
    month and a day written with four, two and two digits gets local
    midnight of that year and day and of the month index one below the
    month written; no range of month or day is checked.  A date is given
    only when [upload_date] is made of exactly eight decimal digits. *)
Theorem upload_date_round_trip (obj : YoutubeDLCLIResult) :
  (forall y m d,
      0 <= y <= 9999 -> 0 <= m <= 99 -> 0 <= d <= 99 ->
      upload_date obj = Some (pad4 y ++ pad2 m ++ pad2 d) ->
      buildOriginallyPublishedAt env obj
      = Some (localMidnight env y (m - 1) d))
  /\ (forall date,
         buildOriginallyPublishedAt env obj = Some date ->
         exists s,
           upload_date obj = Some s /\ List.length s = 8%nat
           /\ forallb isDigit s = true).
Proof.
  split.
  - intros y m d Hy Hm Hd E. unfold buildOriginallyPublishedAt. rewrite E.
    destruct (pad_digits y Hy) as [Y1 [Y2 [Y3 [Y4 Ey]]]].
    destruct (pad2_digits m Hm) as [M1 [M2 Em]].
    destruct (pad2_digits d Hd) as [D1 [D2 Ed]].
    unfold pad4, pad2. cbn [app uploadDateMatcher forallb].
    rewrite (proj2 (digit_value _ Y1)), (proj2 (digit_value _ Y2)),
      (proj2 (digit_value _ Y3)), (proj2 (digit_value _ Y4)),
      (proj2 (digit_value _ M1)), (proj2 (digit_value _ M2)),
      (proj2 (digit_value _ D1)), (proj2 (digit_value _ D2)).
    cbn [andb]. unfold parseInt10. cbn [fold_left].
    rewrite (proj1 (digit_value _ Y1)), (proj1 (digit_value _ Y2)),
      (proj1 (digit_value _ Y3)), (proj1 (digit_value _ Y4)),
      (proj1 (digit_value _ M1)), (proj1 (digit_value _ M2)),
      (proj1 (digit_value _ D1)), (proj1 (digit_value _ D2)).
    do 2 f_equal; lia.
  - intros date. unfold buildOriginallyPublishedAt, uploadDateMatcher.
    destruct (upload_date obj)
      as [[|y1 [|y2 [|y3 [|y4 [|m1 [|m2 [|d1 [|d2 [|x s]]]]]]]]]|];
      try discriminate.
    destruct (forallb isDigit [ y1; y2; y3; y4; m1; m2; d1; d2 ]) eqn:F;
      [|discriminate].
    intros _. eexists. split; [reflexivity|]. split; [reflexivity|exact F].
Qed.

Lemma jsEqb_eq (a b : jsstring) : jsEqb a b = true <-> a = b.
Proof.
  revert b. induction a as [|x a IH]; intros [|y b]; simpl;
    try (split; [discriminate|discriminate]); [tauto|].
  rewrite andb_true_iff, N.eqb_eq, IH. split.
  - intros [-> ->]. reflexivity.
  - intros [= -> ->]. now split.
Qed.

Lemma includes_spec (needle hay : jsstring) :
  includes needle hay = true <-> exists pre post, hay = pre ++ needle ++ post.
Proof.
  induction hay as [|c hay IH].
  - simpl. rewrite orb_false_r. split.
    + intros H. apply startsWith_split in H. exists [], (skipn (List.length needle) []).
      exact H.
    + intros [pre [post E]]. symmetry in E.
      apply app_eq_nil in E as [_ E]. apply app_eq_nil in E as [-> _].
      reflexivity.
  - cbn [includes]. rewrite orb_true_iff, IH. split.
    + intros [H|[pre [post ->]]].
      * apply startsWith_split in H. now exists [], (skipn (List.length needle) (c :: hay)).
      * now exists (c :: pre), post.
    + intros [[|c' pre] [post E]].
      * left. simpl in E. rewrite E. apply startsWith_app.
      * right. injection E as -> ->. now exists pre, post.
Qed.

Lemma lookupName_some (table : list (Z * jsstring)) (wanted : jsstring)
    (k : Z) :
  lookupName env table wanted = Some k ->
  exists label,
    In (k, label) table
    /\ toLowerCase env label = toLowerCase env wanted.
Proof.
  unfold lookupName.
  destruct (find _ table) as [[k' label]|] eqn:F; [|discriminate].
  intros [= <-]. apply find_some in F as [Hin E]. apply jsEqb_eq in E.
  now exists label.
Qed.

(** X16.  Licence and category numbers.  A licence text that contains
    [Creative Commons Attribution] anywhere is licence 1 whatever the
    table says, and the first category [News & Politics] is category 11;
    any other number handed out is a key of the table whose label equals
    the text up to case; an absent or empty text gives none. *)
Theorem licence_and_category_numbers :
  (forall pre post,
      getLicence env
        (Some (pre ++ str "Creative Commons Attribution" ++ post)) = Some 1)
  /\ (forall text k,
         getLicence env text = Some k ->
         exists raw,
           text = Some raw /\ raw <> []
           /\ ((k = 1
                /\ exists pre post,
                     raw = pre ++ str "Creative Commons Attribution" ++ post)
               \/ exists label,
                    In (k, label) (VIDEO_LICENCES env)
                    /\ toLowerCase env label = toLowerCase env raw))
  /\ (forall rest,
         getCategory env (Some (str "News & Politics" :: rest)) = Some 11)
  /\ (forall categories k,
         getCategory env categories = Some k ->
         exists first rest,
           categories = Some (first :: rest) /\ first <> []
           /\ ((k = 11 /\ first = str "News & Politics")
               \/ exists label,
                    In (k, label) (VIDEO_CATEGORIES env)
                    /\ toLowerCase env label = toLowerCase env first)).
Proof.
  split; [|split; [|split]].
  - intros pre post. unfold getLicence.
    assert (I : includes (str "Creative Commons Attribution")
                  (pre ++ str "Creative Commons Attribution" ++ post) = true).
    { apply includes_spec. now exists pre, post. }
    destruct (pre ++ str "Creative Commons Attribution" ++ post) eqn:E.
    + destruct pre; discriminate.
    + now rewrite I.
  - intros [[|c l]|] k; try discriminate. unfold getLicence.
    destruct (includes (str "Creative Commons Attribution") (c :: l)) eqn:I.
    + intros [= <-]. exists (c :: l). split; [reflexivity|].
      split; [discriminate|]. left. split; [reflexivity|].
      now apply includes_spec.
    + intros L. apply lookupName_some in L. exists (c :: l).
      split; [reflexivity|]. split; [discriminate|]. now right.
  - intros rest. reflexivity.
  - intros [[|[|c s] rest]|] k; try discriminate. unfold getCategory.
    destruct (jsEqb (c :: s) (str "News & Politics")) eqn:J.
    + intros [= <-]. exists (c :: s), rest. split; [reflexivity|].
      split; [discriminate|]. left. split; [reflexivity|].
      now apply jsEqb_eq.
    + intros L. apply lookupName_some in L. exists (c :: s), rest.
      split; [reflexivity|]. split; [discriminate|]. now right.
Qed.

End InfoBuilderFacts.

(* ===================================================================== *)
(** ** The accelerator probe and the validation error *)
(* ===================================================================== *)

Section AccelFacts.
Import Accel.

(** X17.  [deviceFromController] answers with the last of Intel, AMD,
    NVIDIA, None, in that order, whose name occurs in the vendor string,
    so a later name overrides an earlier one and a vendor that contains
    [None] is reported as a device of kind None; the device carries the
    controller's bus address.  It answers [undefined] exactly when none of
    the four names occurs, and [getFFmpegAccelerators] keeps such an entry
    in its array, one entry per controller. *)
Theorem accelerator_is_last_matching_kind
    (gfxController : GraphicsControllerData) :
  let occurs k := Selector.contains (kindValue k) (vendor gfxController) in
  match deviceFromController gfxController with
  | Some device =>
      busAddress device = controller_busAddress gfxController
      /\ occurs (kind device) = true
      /\ exists before after,
           kinds = before ++ kind device :: after
           /\ Forall (fun k => occurs k = false) after
  | None => Forall (fun k => occurs k = false) kinds
  end
  /\ forall controllers,
       List.length (getFFmpegAccelerators controllers)
       = List.length controllers
       /\ (In gfxController controllers ->
           In (deviceFromController gfxController)
              (getFFmpegAccelerators controllers)).
Proof.
  cbv zeta. split.
  - unfold deviceFromController, kinds. cbn [fold_left].
    destruct (Selector.contains (kindValue None_) (vendor gfxController))
      eqn:H4; cbn [negb].
    { split; [reflexivity|]. split; [exact H4|].
      exists [ Intel; AMD; NVIDIA ], []. split; [reflexivity|constructor]. }
    destruct (Selector.contains (kindValue NVIDIA) (vendor gfxController))
      eqn:H3; cbn [negb].
    { split; [reflexivity|]. split; [exact H3|].
      exists [ Intel; AMD ], [ None_ ]. split; [reflexivity|].
      repeat constructor. exact H4. }
    destruct (Selector.contains (kindValue AMD) (vendor gfxController))
      eqn:H2; cbn [negb].
    { split; [reflexivity|]. split; [exact H2|].
      exists [ Intel ], [ NVIDIA; None_ ]. split; [reflexivity|].
      repeat constructor; assumption. }
    destruct (Selector.contains (kindValue Intel) (vendor gfxController))
      eqn:H1; cbn [negb].
    { split; [reflexivity|]. split; [exact H1|].
      exists [], [ AMD; NVIDIA; None_ ]. split; [reflexivity|].
      repeat constructor; assumption. }
    repeat constructor; assumption.
  - intros controllers. unfold getFFmpegAccelerators.
    split; [apply length_map|apply in_map].
Qed.

End AccelFacts.

Section ValidationErrorFacts.
Import ValidationError.

Lemma append_inv_head (p a b : string) :
  (p ++ a)%string = (p ++ b)%string -> a = b.
Proof.
  induction p as [|c p IH]; simpl; [trivial|].
  intros [= H]. now apply IH.
Qed.

(** X18.  For one URL the five reasons give five different messages, each
    beginning with [Video ] and the URL; an error made by [fromError] has
    the message, the status and the URL of the one made from the same
    reason and URL, and carries the given error as its cause. *)
Theorem validation_messages_tell_reasons_apart (u : string) :
  (forall op1 op2,
      reasonFromStatus op1 u = reasonFromStatus op2 u -> op1 = op2)
  /\ (forall op,
         String.prefix ("Video " ++ u)%string (reasonFromStatus op u) = true)
  /\ (forall err op,
         message (fromError err op u) = message (construct op u)
         /\ status (fromError err op u) = op
         /\ url (fromError err op u) = Some u
         /\ cause (fromError err op u) = Some err
         /\ cause (construct op u) = None).
Proof.
  split; [|split].
  - intros op1 op2 H.
    assert (T : forall op,
               reasonFromStatus op u
               = ("Video " ++ (u ++ match op with
                                    | IS_LIVE => " is currently livestreaming"
                                    | TO_BE_PUBLISHED =>
                                        " has not been published yet"
                                    | NOT_POST_PROCESSED =>
                                        " is currently post processing"
                                    | NO_FORMATS_AVAILABLE =>
                                        " has no downloadable video formats available"
                                    | VIDEO_AVAILABILITY_ERROR =>
                                        " not available for import"
                                    end))%string).
    { intros []; reflexivity. }
    rewrite !T in H. apply append_inv_head in H. apply append_inv_head in H.
    destruct op1, op2; try reflexivity; discriminate.
  - intros op.
    assert (P : forall a b : string, String.prefix a (a ++ b)%string = true).
    { induction a as [|c a IH]; intros b; [destruct b; reflexivity|].
      simpl. destruct (Ascii.ascii_dec c c); [apply IH|contradiction]. }
    destruct op.
    + exact (P ("Video " ++ u)%string " not available for import").
    + exact (P ("Video " ++ u)%string
               " has no downloadable video formats available").
    + exact (P ("Video " ++ u)%string " is currently post processing").
    + exact (P ("Video " ++ u)%string " is currently livestreaming").
    + exact (P ("Video " ++ u)%string " has not been published yet").
  - intros err op. repeat split.
Qed.

End ValidationErrorFacts.

(* ===================================================================== *)
(** ** Invariants of a synchronisation run *)
(* ===================================================================== *)

Module InvariantFacts.
Import Sync SyncWords QuietFacts.
Local Open Scope sync_scope.

Section Invariant.

(** A property of the world that logging and queueing, a change of state
    to a value other than PENDING, and a save all keep. *)
Variable P : World -> Prop.
Hypothesis P_emit : forall e, (forall s, e <> Saved s) -> preserves P (emit e).
Hypothesis P_setState :
  forall st, st <> PENDING -> preserves P (setState st).
Hypothesis P_save : forall save, preserves P (saveSession save).

Lemma preserves_ret {A} (a : A) : preserves P (ret a).
Proof. intros w H. exact H. Qed.

Lemma preserves_throw {A} (e : Error) : preserves P (@throw A e).
Proof. intros w H. exact H. Qed.

Lemma preserves_lift {A} (r : result A) : preserves P (lift r).
Proof. intros w H. exact H. Qed.

Lemma preserves_getSession : preserves P getSession.
Proof. intros w H. exact H. Qed.

Lemma preserves_log (level : LogLevel) (msg : string) :
  preserves P (log level msg).
Proof. apply P_emit. discriminate. Qed.

Lemma preserves_createJobWithChildren
    (accept : CreateJobArgument -> list CreateJobArgument -> result unit)
    (parent : CreateJobArgument) (children : list CreateJobArgument) :
  preserves P (createJobWithChildren accept parent children).
Proof.
  intros w H. unfold createJobWithChildren.
  destruct (accept parent children); [|exact H].
  apply (P_emit (Submitted parent children)); [discriminate|exact H].
Qed.

Lemma preserves_bind {A B} (m : M A) (f : A -> M B) :
  preserves P m -> (forall a, preserves P (f a)) -> preserves P (bind m f).
Proof.
  intros Hm Hf w H. unfold bind. specialize (Hm w H).
  destruct (m w) as [[a|e] w']; simpl in *; [now apply Hf|exact Hm].
Qed.

Lemma preserves_tryCatch {A} (m : M A) (h : Error -> M A) :
  preserves P m -> (forall e, preserves P (h e)) ->
  preserves P (tryCatch m h).
Proof.
  intros Hm Hh w H. unfold tryCatch. specialize (Hm w H).
  destruct (m w) as [[a|e] w']; simpl in *; [exact Hm|now apply Hh].
Qed.

Lemma preserves_settle (st : VideoChannelSyncState)
    (save : MChannelSync -> result unit) :
  st <> PENDING -> preserves P (setState st ;;; saveSession save).
Proof.
  intros Hst. apply preserves_bind; [now apply P_setState|intros _].
  apply P_save.
Qed.

Ltac invariant :=
  repeat first
    [ apply preserves_ret
    | apply preserves_throw
    | apply preserves_lift
    | apply preserves_getSession
    | apply preserves_log
    | apply preserves_createJobWithChildren
    | apply preserves_settle; discriminate
    | apply preserves_bind; [|intros ?]
    | apply preserves_tryCatch; [|intros ?]
    | match goal with
      | |- preserves P (if ?b then _ else _) => destruct b
      | |- preserves P (match ?x with _ => _ end) => destruct x
      end ].

Lemma preserves_skipImport (env : SyncChannel.Env) (channel : MChannel)
    (targetUrl : string) (onlyAfter : option Z) :
  preserves P (SyncChannel.skipImport env channel targetUrl onlyAfter).
Proof. unfold SyncChannel.skipImport. invariant. Qed.

Lemma preserves_buildJobs (env : SyncChannel.Env) (user : MUser)
    (channel : MChannel) (onlyAfter : option Z) (targetUrls : list string) :
  forall jobs,
    preserves P
      (SyncChannel.buildJobs env user channel onlyAfter targetUrls jobs).
Proof.
  induction targetUrls as [|targetUrl rest IH]; intros jobs; simpl.
  - invariant.
  - apply preserves_bind.
    + apply preserves_tryCatch; [|intros ?; invariant].
      apply preserves_bind; [apply preserves_skipImport|intros ?; invariant].
    + intros [[|]|]; [apply IH| |apply IH].
      apply preserves_bind; [invariant|intros ?].
      apply preserves_bind; [invariant|intros ?]. apply IH.
Qed.

Lemma preserves_guarded (env : SyncChannel.Env)
    (options : SyncChannel.Options) :
  preserves P
    (tryCatch (SyncChannel.tryBlock env options) (SyncChannel.catchBlock env)).
Proof.
  apply preserves_tryCatch.
  - unfold SyncChannel.tryBlock.
    apply preserves_bind; [invariant|intros user].
    apply preserves_bind; [invariant|intros targetUrls].
    unfold SyncChannel.importTargets.
    apply preserves_bind; [invariant|intros _].
    destruct (List.length targetUrls =? 0)%nat; [invariant|].
    apply preserves_bind; [apply preserves_buildJobs|intros jobs].
    unfold SyncChannel.logger_warning. invariant.
  - intros e. unfold SyncChannel.catchBlock. invariant.
Qed.

Lemma preserves_entries_skipImport (env : SyncChannelEntries.Env)
    (channel : MChannel) (targetUrl : string) (onlyAfter : option Z) :
  preserves P (SyncChannelEntries.skipImport env channel targetUrl onlyAfter).
Proof. unfold SyncChannelEntries.skipImport. invariant. Qed.

Lemma preserves_buildChildren (env : SyncChannelEntries.Env) (user : MUser)
    (channel : MChannel) (onlyAfter : option Z)
    (entries : list SyncChannelEntries.Entry) :
  forall children,
    preserves P
      (SyncChannelEntries.buildChildren env user channel onlyAfter entries
         children).
Proof.
  induction entries as [|entry rest IH]; intros children; simpl.
  - invariant.
  - apply preserves_bind; [apply preserves_entries_skipImport|].
    intros [|]; [apply IH|].
    apply preserves_bind; [invariant|intros ?].
    apply preserves_bind; [invariant|intros ?]. apply IH.
Qed.

Lemma preserves_entries_guarded (env : SyncChannelEntries.Env)
    (options : SyncChannelEntries.Options) :
  preserves P
    (tryCatch (SyncChannelEntries.tryBlock env options)
       (SyncChannelEntries.catchBlock env)).
Proof.
  apply preserves_tryCatch.
  - unfold SyncChannelEntries.tryBlock.
    apply preserves_bind; [invariant|intros user].
    apply preserves_bind; [invariant|intros entries].
    unfold SyncChannelEntries.importEntries.
    destruct (List.length entries =? 0)%nat; [invariant|].
    apply preserves_bind; [invariant|intros _].
    apply preserves_bind; [apply preserves_buildChildren|intros children].
    invariant.
  - intros e. unfold SyncChannelEntries.catchBlock. invariant.
Qed.

End Invariant.

Lemma saves_emit (w : World) (e : Event) :
  (forall s, e <> Saved s) ->
  saves (events (snd (emit e w))) = saves (events w).
Proof.
  intros H. simpl. rewrite saves_app.
  destruct e as [s| |]; [now contradiction (H s)| |]; simpl;
    now rewrite app_nil_r.
Qed.

Section Stamped.

Variables date sid : Z.
Variable stored : list MChannelSync.

Lemma stamped_emit (e : Event) :
  (forall s, e <> Saved s) -> preserves (stampedFrom date sid stored) (emit e).
Proof.
  intros H w [Hs Hsaves]. split; [exact Hs|].
  now rewrite saves_emit.
Qed.

Lemma stamped_setState (st : VideoChannelSyncState) :
  st <> PENDING -> preserves (stampedFrom date sid stored) (setState st).
Proof.
  intros Hst w [[s [Hs [Hid [_ Hdate]]]] Hsaves]. unfold setState.
  rewrite Hs. simpl. split; [|exact Hsaves].
  eexists. split; [reflexivity|]. now repeat split.
Qed.

Lemma stamped_save (save : MChannelSync -> result unit) :
  preserves (stampedFrom date sid stored) (saveSession save).
Proof.
  intros w [[s [Hs Hst]] [new [Hsaves Hnew]]]. unfold saveSession.
  rewrite Hs. destruct (save s); unfold stampedFrom; cbn [snd events session].
  - split; [now exists s|]. exists (new ++ [ s ]).
    rewrite saves_app, Hsaves, app_assoc. split; [reflexivity|].
    apply Forall_app. split; [exact Hnew|]. now constructor.
  - split; [now exists s|]. now exists new.
Qed.

End Stamped.

Section Unsaved.

Variable stored : list MChannelSync.

Lemma unsaved_emit (e : Event) :
  (forall s, e <> Saved s) -> preserves (unsaved stored) (emit e).
Proof.
  intros H w [Hs Hsaves]. split; [exact Hs|]. now rewrite saves_emit.
Qed.

Lemma unsaved_setState (st : VideoChannelSyncState) :
  st <> PENDING -> preserves (unsaved stored) (setState st).
Proof.
  intros _ w [Hs Hsaves]. unfold setState. rewrite Hs. now split.
Qed.

Lemma unsaved_save (save : MChannelSync -> result unit) :
  preserves (unsaved stored) (saveSession save).
Proof.
  intros w [Hs Hsaves]. unfold saveSession. rewrite Hs. now split.
Qed.

End Unsaved.

End InvariantFacts.

Section RunFacts.
Import Sync SyncWords SyncFacts QuietFacts InvariantFacts.
Local Open Scope sync_scope.

Lemma mark_with_session (save : MChannelSync -> result unit)
    (date : Z) (w : World) (s : MChannelSync) :
  session w = Some s ->
  (channelSync <- getSession ;;
   match channelSync with
   | Some _ =>
       setState PROCESSING ;;; setLastSyncAt date ;;; saveSession save
   | None => ret tt
   end) w
  = match save (stamp date s) with
    | Return _ =>
        (Return tt,
         {| session := Some (stamp date s);
            events := events w ++ [ Saved (stamp date s) ] |})
    | Throw e =>
        (Throw e, {| session := Some (stamp date s); events := events w |})
    end.
Proof.
  intros Hs. unfold bind, getSession, setState, setLastSyncAt, saveSession.
  cbn [fst snd]. repeat (rewrite ?Hs; cbn). unfold stamp.
  destruct (save _); reflexivity.
Qed.

Lemma mark_without_session (save : MChannelSync -> result unit)
    (date : Z) (w : World) :
  session w = None ->
  (channelSync <- getSession ;;
   match channelSync with
   | Some _ =>
       setState PROCESSING ;;; setLastSyncAt date ;;; saveSession save
   | None => ret tt
   end) w
  = (Return tt, w).
Proof. intros Hs. unfold bind, getSession. now rewrite Hs. Qed.

Lemma stamped_after_mark (save : MChannelSync -> result unit) (date : Z)
    (w : World) (s : MChannelSync) (guarded : M unit) :
  session w = Some s ->
  preserves (stampedFrom date (id s) (saves (events w))) guarded ->
  let run :=
    (channelSync <- getSession ;;
     match channelSync with
     | Some _ =>
         setState PROCESSING ;;; setLastSyncAt date ;;; saveSession save
     | None => ret tt
     end) ;;; guarded in
  stampedFrom date (id s) (saves (events w)) (snd (run w))
  /\ forall e,
       save (stamp date s) = Throw e ->
       run w
       = (Throw e, {| session := Some (stamp date s); events := events w |}).
Proof.
  intros Hs Hguarded run.
  assert (Hrun : run w
                 = match save (stamp date s) with
                   | Return _ =>
                       guarded {| session := Some (stamp date s);
                                  events := events w ++ [ Saved (stamp date s) ] |}
                   | Throw e =>
                       (Throw e,
                        {| session := Some (stamp date s);
                           events := events w |})
                   end).
  { unfold run. unfold bind at 1.
    rewrite (mark_with_session save date w s Hs).
    destruct (save (stamp date s)); reflexivity. }
  rewrite Hrun. clear Hrun.
  assert (Hsnap : stampedSnapshot date (id s) (stamp date s)).
  { repeat split. discriminate. }
  destruct (save (stamp date s)) as [u|e].
  - split; [|discriminate]. apply Hguarded. split.
    + now exists (stamp date s).
    + exists [ stamp date s ]. cbn [events]. rewrite saves_app.
      split; [reflexivity|]. now constructor.
  - split.
    + cbn [snd]. split; [now exists (stamp date s)|].
      exists []. cbn [events]. now rewrite app_nil_r.
    + intros e' E. injection E as <-. reflexivity.
Qed.

(** X19.  A run on a session stamps it once and for all: whatever the
    listing, the models, the store and the queue do, the session object
    ends with the identifier it had, a state other than PENDING and the
    date of the run as last synchronisation, and every snapshot that the
    run saves is such a snapshot.  When the store refuses the first save,
    the run throws that error at once, with nothing saved or queued.  Both
    revisions of [synchronizeChannel]. *)
Theorem run_saves_only_stamped_sessions (w : World) (s : MChannelSync) :
  session w = Some s ->
  (forall (env : SyncChannel.Env) (options : SyncChannel.Options),
      stampedFrom (SyncChannel.newDate env) (id s) (saves (events w))
        (snd (SyncChannel.synchronizeChannel env options w))
      /\ forall e,
           SyncChannel.save env (stamp (SyncChannel.newDate env) s) = Throw e ->
           SyncChannel.synchronizeChannel env options w
           = (Throw e,
              {| session := Some (stamp (SyncChannel.newDate env) s);
                 events := events w |}))
  /\ (forall (env : SyncChannelEntries.Env)
             (options : SyncChannelEntries.Options),
         stampedFrom (SyncChannelEntries.newDate env) (id s)
           (saves (events w))
           (snd (SyncChannelEntries.synchronizeChannel env options w))
         /\ forall e,
              SyncChannelEntries.save env
                (stamp (SyncChannelEntries.newDate env) s) = Throw e ->
              SyncChannelEntries.synchronizeChannel env options w
              = (Throw e,
                 {| session := Some (stamp (SyncChannelEntries.newDate env) s);
                    events := events w |})).
Proof.
  intros Hs. split; intros env options.
  - apply (stamped_after_mark (SyncChannel.save env) (SyncChannel.newDate env)
             w s _ Hs).
    apply preserves_guarded;
      [apply stamped_emit|apply stamped_setState|apply stamped_save].
  - apply (stamped_after_mark (SyncChannelEntries.save env)
             (SyncChannelEntries.newDate env) w s _ Hs).
    apply preserves_entries_guarded;
      [apply stamped_emit|apply stamped_setState|apply stamped_save].
Qed.

Lemma unsaved_after_guard (save : MChannelSync -> result unit) (date : Z)
    (msg : string) (w : World) (body : M unit) :
  session w = None ->
  keepsSession body ->
  let handler := fun _ : Error =>
                   log error msg ;;; setState FAILED ;;; saveSession save in
  preserves (unsaved (saves (events w))) (tryCatch body handler) ->
  let run :=
    (channelSync <- getSession ;;
     match channelSync with
     | Some _ =>
         setState PROCESSING ;;; setLastSyncAt date ;;; saveSession save
     | None => ret tt
     end) ;;; tryCatch body handler in
  unsaved (saves (events w)) (snd (run w))
  /\ (fst (run w) = fst (body w) /\ fst (body w) = Return tt
      \/ isThrow (fst (body w)) = true
         /\ fst (run w)
            = Throw (TypeError
                       "Cannot set properties of undefined (setting 'state')")).
Proof.
  intros Hs Hkeeps handler Hguarded run.
  assert (Hrun : run w = tryCatch body handler w).
  { unfold run. unfold bind at 1.
    now rewrite (mark_without_session save date w Hs). }
  rewrite Hrun. clear Hrun.
  split; [apply Hguarded; now split|].
  pose proof (Hkeeps w) as K.
  destruct (body w) as [[[]|e] w2] eqn:B.
  - left. unfold tryCatch. rewrite B. split; reflexivity.
  - right. split; [reflexivity|]. cbn [snd] in K.
    pose proof (sessionId_none w w2 K Hs) as Hs2.
    unfold handler.
    now rewrite (handler_without_session save msg body w w2 e B Hs2).
Qed.

(** X20.  A run without a session never writes to the store and never
    makes a session up: it returns when the [try] block returns, and when
    the block throws, whatever the error, the caller gets the TypeError of
    the handler's assignment to the missing session.  Both revisions. *)
Theorem run_without_session_never_saves (w : World) :
  session w = None ->
  (forall (env : SyncChannel.Env) (options : SyncChannel.Options),
      let run := SyncChannel.synchronizeChannel env options in
      let body := SyncChannel.tryBlock env options in
      unsaved (saves (events w)) (snd (run w))
      /\ (fst (run w) = fst (body w) /\ fst (body w) = Return tt
          \/ isThrow (fst (body w)) = true
             /\ fst (run w)
                = Throw (TypeError
                           "Cannot set properties of undefined (setting 'state')")))
  /\ (forall (env : SyncChannelEntries.Env)
             (options : SyncChannelEntries.Options),
         let run := SyncChannelEntries.synchronizeChannel env options in
         let body := SyncChannelEntries.tryBlock env options in
         unsaved (saves (events w)) (snd (run w))
         /\ (fst (run w) = fst (body w) /\ fst (body w) = Return tt
             \/ isThrow (fst (body w)) = true
                /\ fst (run w)
                   = Throw (TypeError
                              "Cannot set properties of undefined (setting 'state')"))).
Proof.
  intros Hs. split; intros env options.
  - apply (unsaved_after_guard (SyncChannel.save env) (SyncChannel.newDate env)
             "Failed to import channel" w _ Hs (keeps_tryBlock env options)).
    apply (preserves_guarded _ (unsaved_emit _) (unsaved_setState _)
             (unsaved_save _) env options).
  - apply (unsaved_after_guard (SyncChannelEntries.save env)
             (SyncChannelEntries.newDate env)
             "Failed to import channel" w _ Hs
             (keeps_entries_tryBlock env options)).
    apply (preserves_entries_guarded _ (unsaved_emit _) (unsaved_setState _)
             (unsaved_save _) env options).
Qed.

End RunFacts.

Section ImportFacts.
Import Sync SyncWords SyncFacts QuietFacts.
Local Open Scope sync_scope.

Variable env : SyncChannel.Env.

Lemma quiet_syncChannel_skipImport (channel : MChannel) (targetUrl : string)
    (onlyAfter : option Z) :
  quiet (SyncChannel.skipImport env channel targetUrl onlyAfter).
Proof. unfold SyncChannel.skipImport. quiets. Qed.

Lemma bind_unfold {A B} (m : M A) (f : A -> M B) (w : World) :
  bind m f w
  = match m w with
    | (Return a, w') => f a w'
    | (Throw e, w') => (Throw e, w')
    end.
Proof. reflexivity. Qed.

(** The verdict of [skipImport] does not depend on the world. *)
Lemma skipImport_verdict (channel : MChannel) (targetUrl : string)
    (onlyAfter : option Z) (w : World) :
  fst (SyncChannel.skipImport env channel targetUrl onlyAfter w)
  = verdict env channel onlyAfter targetUrl.
Proof.
  unfold verdict, SyncChannel.skipImport, bind, lift, log, emit, ret, throw.
  destruct (SyncChannel.urlAlreadyImported env _ _) as [[|]|e];
    try reflexivity.
  destruct onlyAfter as [date|]; [|reflexivity].
  destruct (Wrapper.getInfoForDownload _ _ _) as [videoInfo|e];
    [|reflexivity].
  destruct (InfoBuilder.originallyPublishedAtWithoutTime videoInfo) as [p|];
    [|reflexivity].
  destruct (p <? SyncChannel.withoutTime env date); reflexivity.
Qed.

(** The guarded call of [skipImport] in the loop never throws. *)
Lemma guarded_skipImport (channel : MChannel) (targetUrl : string)
    (onlyAfter : option Z) (w : World) :
  let m :=
    tryCatch
      (b <- SyncChannel.skipImport env channel targetUrl onlyAfter ;;
       ret (Some b))
      (fun err => log error "Failed fetching info from URL" ;;; ret None) in
  fst (m w)
  = Return match verdict env channel onlyAfter targetUrl with
           | Return b => Some b
           | Throw _ => None
           end
  /\ session (snd (m w)) = session w
  /\ saves (events (snd (m w))) = saves (events w)
  /\ submissions (events (snd (m w))) = submissions (events w).
Proof.
  intros m. split.
  - unfold m, tryCatch, bind.
    rewrite <- (skipImport_verdict channel targetUrl onlyAfter w).
    destruct (SyncChannel.skipImport env channel targetUrl onlyAfter w)
      as [[b|e] w']; reflexivity.
  - apply quiet_tryCatch.
    + apply quiet_bind; [apply quiet_syncChannel_skipImport|intros b; quiets].
    + intros e. quiets.
Qed.

(** The loop on the target URLs, when the import builder accepts each URL
    that is kept. *)
Lemma buildJobs_outcome (user : MUser) (channel : MChannel)
    (onlyAfter : option Z) (targetUrls : list string) :
  forall (jobs0 jobs : list CreateJobArgument) (w : World),
    Forall2 (fun targetUrl job =>
               SyncChannel.buildYoutubeDLImport env
                 (importOptions user channel (session w) targetUrl)
               = Return job)
            (keptUrls env channel onlyAfter targetUrls) jobs ->
    let r := SyncChannel.buildJobs env user channel onlyAfter targetUrls
               jobs0 w in
    fst r = Return (jobs0 ++ jobs)
    /\ session (snd r) = session w
    /\ saves (events (snd r)) = saves (events w)
    /\ submissions (events (snd r)) = submissions (events w).
Proof.
  induction targetUrls as [|targetUrl rest IH]; intros jobs0 jobs w Hjobs.
  - inversion Hjobs. subst. cbn. rewrite app_nil_r. auto.
  - cbv zeta. cbn [SyncChannel.buildJobs]. rewrite bind_unfold.
    destruct (guarded_skipImport channel targetUrl onlyAfter w)
      as [G1 [G2 [G3 G4]]].
    destruct (tryCatch _ _ w) as [r w1]. cbn [fst snd] in G1, G2, G3, G4.
    subst r. cbn [keptUrls filter] in Hjobs. fold (keptUrls env channel onlyAfter rest) in Hjobs.
    destruct (verdict env channel onlyAfter targetUrl) as [[|]|e].
    + rewrite <- G2 in Hjobs.
      destruct (IH jobs0 jobs w1 Hjobs) as [I1 [I2 [I3 I4]]].
      repeat split; congruence.
    + inversion Hjobs as [|u job kept jobs' Hjob Hrest]. subst.
      unfold importOptions in Hjob.
      unfold bind, getSession, lift. cbn [fst snd]. rewrite G2, Hjob.
      rewrite <- G2 in Hrest.
      destruct (IH (jobs0 ++ [ job ]) jobs' w1 Hrest) as [I1 [I2 [I3 I4]]].
      rewrite <- app_assoc in I1. cbn [app] in I1.
      repeat split; congruence.
    + rewrite <- G2 in Hjobs.
      destruct (IH jobs0 jobs w1 Hjobs) as [I1 [I2 [I3 I4]]].
      repeat split; congruence.
Qed.

(** X21.  A run of [synchronizeChannel] of sync-channel.ts that goes
    well.  With a session that the store saves, a listing that gives URLs
    of which at least one is kept, and an import builder and a queue that
    accept what they are given, the run returns and hands the queue exactly
    one job graph: the parent [after-video-channel-import] with the
    session's identifier, and one child for each URL on which [skipImport]
    answered [false], in the order of the listing.  A URL on which [skipImport] threw is left out like a
    skipped one and does not stop the run.  The session is saved once, in
    state PROCESSING with the date of the run, and left so for the parent
    job to settle. *)
Theorem run_queues_one_graph_for_kept_urls
    (options : SyncChannel.Options) (w : World) (s : MChannelSync)
    (user : MUser) (targetUrls : list string)
    (jobs : list CreateJobArgument) :
  let date := SyncChannel.newDate env in
  let channel := SyncChannel.opt_channel options in
  let parent := after_video_channel_import (Some (id s)) in
  session w = Some s ->
  SyncChannel.save env (stamp date s) = Return tt ->
  SyncChannel.loadByChannelActorId env (actorId channel) = Return user ->
  Wrapper.getInfoForListImport (SyncChannel.wrapper env)
    (SyncChannel.newWrapper env (SyncChannel.externalChannelUrl options))
    (SyncChannel.videosCountLimit options) = Return targetUrls ->
  Forall2 (fun targetUrl job =>
             SyncChannel.buildYoutubeDLImport env
               (importOptions user channel (Some (stamp date s)) targetUrl)
             = Return job)
          (keptUrls env channel (SyncChannel.onlyAfter options) targetUrls)
          jobs ->
  jobs <> [] ->
  SyncChannel.createJobWithChildren_result env parent jobs = Return tt ->
  let r := SyncChannel.synchronizeChannel env options w in
  fst r = Return tt
  /\ session (snd r) = Some (stamp date s)
  /\ saves (events (snd r)) = saves (events w) ++ [ stamp date s ]
  /\ submissions (events (snd r))
     = submissions (events w) ++ [ (parent, jobs) ].
Proof.
  intros date channel parent Hs Hsave Hload Hlist Hjobs Hne Hqueue r.
  set (w1 := {| session := Some (stamp date s);
                events := events w ++ [ Saved (stamp date s) ] |}).
  set (w2 := {| session := session w1;
                events := events w1
                          ++ [ Logged info
                                 "Fetched candidate URLs for sync channel" ] |}).
  assert (Hnonempty : targetUrls <> []).
  { intros ->. inversion Hjobs. now subst. }
  destruct (buildJobs_outcome user channel (SyncChannel.onlyAfter options)
              targetUrls [] jobs w2 Hjobs) as [B1 [B2 [B3 B4]]].
  assert (Hr : r = createJobWithChildren
                     (SyncChannel.createJobWithChildren_result env) parent jobs
                     (snd (SyncChannel.buildJobs env user channel
                             (SyncChannel.onlyAfter options) targetUrls []
                             w2))).
  { unfold r, SyncChannel.synchronizeChannel. unfold bind at 1.
    change (SyncChannel.markProcessing env w)
      with ((channelSync <- getSession ;;
             match channelSync with
             | Some _ =>
                 setState PROCESSING ;;; setLastSyncAt date ;;;
                 saveSession (SyncChannel.save env)
             | None => ret tt
             end) w).
    rewrite (mark_with_session _ _ _ _ Hs), Hsave. fold w1.
    unfold tryCatch, SyncChannel.tryBlock. unfold bind at 1. unfold lift at 1.
    fold channel. rewrite Hload. unfold bind at 1. unfold lift at 1.
    rewrite Hlist. unfold SyncChannel.importTargets. unfold bind at 1.
    unfold log, emit. fold w2.
    destruct targetUrls as [|u rest]; [contradiction|].
    cbn [List.length Nat.eqb]. unfold bind at 1. fold channel.
    destruct (SyncChannel.buildJobs env user channel
                (SyncChannel.onlyAfter options) (u :: rest) [] w2)
      as [rj w3] eqn:E.
    cbn [fst snd] in B1, B2. subst rj. cbn [app].
    destruct jobs as [|j jobs']; [contradiction|].
    cbn [List.length Nat.eqb]. unfold bind, getSession. rewrite B2.
    cbn [session w2 w1 option_map stamp id]. fold parent.
    unfold createJobWithChildren. rewrite Hqueue. reflexivity. }
  rewrite Hr. unfold createJobWithChildren. rewrite Hqueue.
  cbn [fst snd session events]. rewrite B2.
  rewrite saves_app, submissions_app, B3, B4.
  cbn [w2 w1 session events]. rewrite !saves_app, !submissions_app.
  cbn. rewrite !app_nil_r. auto.
Qed.

(** X25.  A run of [synchronizeChannel] of sync-channel.ts on a listing
    whose URLs are all left out, [skipImport] having answered [true] or
    thrown on each.  No job is built and the queue gets nothing, not even
    the parent job.  What becomes of the session hangs on the call
    [logger.warning]: with a logger that has no such method the call
    throws, the handler marks the session FAILED and saves it, and the run
    returns; with a logger that has it the run returns with the session
    left PROCESSING, and no job to settle it. *)
Theorem run_with_every_url_left_out
    (options : SyncChannel.Options) (w : World) (s : MChannelSync)
    (user : MUser) (targetUrls : list string) :
  let date := SyncChannel.newDate env in
  let channel := SyncChannel.opt_channel options in
  session w = Some s ->
  (forall s', SyncChannel.save env s' = Return tt) ->
  SyncChannel.loadByChannelActorId env (actorId channel) = Return user ->
  Wrapper.getInfoForListImport (SyncChannel.wrapper env)
    (SyncChannel.newWrapper env (SyncChannel.externalChannelUrl options))
    (SyncChannel.videosCountLimit options) = Return targetUrls ->
  targetUrls <> [] ->
  keptUrls env channel (SyncChannel.onlyAfter options) targetUrls = [] ->
  let r := SyncChannel.synchronizeChannel env options w in
  fst r = Return tt
  /\ submissions (events (snd r)) = submissions (events w)
  /\ (if SyncChannel.logger_has_warning env then
        session (snd r) = Some (stamp date s)
        /\ saves (events (snd r)) = saves (events w) ++ [ stamp date s ]
      else
        session (snd r) = Some (withState (stamp date s) FAILED)
        /\ saves (events (snd r))
           = saves (events w)
             ++ [ stamp date s; withState (stamp date s) FAILED ]).
Proof.
  intros date channel Hs Hsave Hload Hlist Hne Hkept r.
  set (w1 := {| session := Some (stamp date s);
                events := events w ++ [ Saved (stamp date s) ] |}).
  set (w2 := {| session := session w1;
                events := events w1
                          ++ [ Logged info
                                 "Fetched candidate URLs for sync channel" ] |}).
  assert (Hjobs : Forall2 (fun targetUrl job =>
                             SyncChannel.buildYoutubeDLImport env
                               (importOptions user channel (session w2)
                                  targetUrl)
                             = Return job)
                          (keptUrls env channel (SyncChannel.onlyAfter options)
                             targetUrls) []).
  { rewrite Hkept. constructor. }
  destruct (buildJobs_outcome user channel (SyncChannel.onlyAfter options)
              targetUrls [] [] w2 Hjobs) as [B1 [B2 [B3 B4]]].
  assert (Hr : r = tryCatch
                     (fun w3 =>
                        SyncChannel.logger_warning env
                          "Failed fetching target URLs, skipping import jobs"
                          (snd (SyncChannel.buildJobs env user channel
                                  (SyncChannel.onlyAfter options) targetUrls
                                  [] w2)))
                     (SyncChannel.catchBlock env) w1).
  { unfold r, SyncChannel.synchronizeChannel. unfold bind at 1.
    change (SyncChannel.markProcessing env w)
      with ((channelSync <- getSession ;;
             match channelSync with
             | Some _ =>
                 setState PROCESSING ;;; setLastSyncAt date ;;;
                 saveSession (SyncChannel.save env)
             | None => ret tt
             end) w).
    rewrite (mark_with_session _ _ _ _ Hs), Hsave. fold w1.
    unfold tryCatch, SyncChannel.tryBlock. unfold bind at 1. unfold lift at 1.
    fold channel. rewrite Hload. unfold bind at 1. unfold lift at 1.
    rewrite Hlist. unfold SyncChannel.importTargets. unfold bind at 1.
    unfold log, emit. fold w2.
    destruct targetUrls as [|u rest]; [contradiction|].
    cbn [List.length Nat.eqb]. unfold bind at 1. fold channel.
    destruct (SyncChannel.buildJobs env user channel
                (SyncChannel.onlyAfter options) (u :: rest) [] w2)
      as [rj w3] eqn:E.
    cbn [fst snd] in B1, B2. subst rj. cbn [app List.length Nat.eqb snd].
    reflexivity. }
  rewrite Hr. clear Hr r.
  destruct (SyncChannel.buildJobs env user channel
              (SyncChannel.onlyAfter options) targetUrls [] w2) as [rj w3].
  cbn [fst snd] in B1, B2, B3, B4.
  unfold tryCatch, SyncChannel.logger_warning.
  destruct (SyncChannel.logger_has_warning env).
  - unfold log, emit. cbn [fst snd session events].
    rewrite B2, saves_app, submissions_app, B3, B4.
    cbn [w2 w1 session events]. rewrite !saves_app, !submissions_app.
    cbn. rewrite !app_nil_r. auto.
  - unfold throw, SyncChannel.catchBlock, bind, log, emit, setState,
      saveSession.
    cbn [fst snd session events]. rewrite B2.
    cbn [w2 w1 session events]. rewrite Hsave.
    cbn [fst snd session events].
    rewrite !saves_app, !submissions_app, B3, B4.
    cbn [w2 w1 session events]. rewrite !saves_app, !submissions_app.
    cbn. rewrite !app_nil_r, <- app_assoc. auto.
Qed.

End ImportFacts.

(* ===================================================================== *)
(** ** More on the merge and on the target bitrate *)
(* ===================================================================== *)

Section MergeAgain.

Variable flatList : list CLI.YoutubeDLCLIResult.

Lemma mergeItem_idempotent (item : CLI.YoutubeDLCLIResult) :
  CLI.mergeItem flatList (CLI.mergeItem flatList item)
  = CLI.mergeItem flatList item.
Proof.
  unfold CLI.mergeItem at 1. rewrite mergeItem_webpage_url.
  unfold CLI.mergeItem.
  destruct (CLI.positive (CLI.optTimestamp _));
    destruct (CLI.positive (CLI.optReleaseTimestamp _)); reflexivity.
Qed.

(** X22.  Merging is idempotent and touches the two timestamps only: an
    entry merged twice with the same flat listing is the entry merged
    once, the other fields of the entry are those of the detailed pass,
    and merging the merged array again returns it unchanged. *)
Theorem merge_is_idempotent (lst : list CLI.YoutubeDLCLIResult) :
  (forall item,
      CLI.mergeItem flatList (CLI.mergeItem flatList item)
      = CLI.mergeItem flatList item
      /\ CLI.json (CLI.mergeItem flatList item) = CLI.json item
      /\ CLI.webpage_url (CLI.mergeItem flatList item) = CLI.webpage_url item)
  /\ exists merged,
       CLI.mergeLists (CLI.Many flatList) (CLI.Many lst)
       = Return (CLI.Many merged)
       /\ CLI.mergeLists (CLI.Many flatList) (CLI.Many merged)
          = Return (CLI.Many merged).
Proof.
  split.
  - intros item. split; [apply mergeItem_idempotent|].
    split; [|apply mergeItem_webpage_url].
    unfold CLI.mergeItem.
    destruct (CLI.positive (CLI.optTimestamp _));
      destruct (CLI.positive (CLI.optReleaseTimestamp _)); reflexivity.
  - unfold CLI.mergeLists. destruct (0 <? List.length flatList)%nat.
    + exists (map (CLI.mergeItem flatList) lst). split; [reflexivity|].
      do 2 f_equal. rewrite map_map. apply map_ext.
      intros item. apply mergeItem_idempotent.
    + exists lst. split; reflexivity.
Qed.

End MergeAgain.

Section BitrateOrder.
Import Transcode.

Variable getAverageTheoreticalBitrate : Q -> Q -> Q -> Q.
Variable getMinTheoreticalBitrate : Q -> Q -> Q -> Q.

Variables resolution ratio fps : Q.

Let target (inputBitrate : option Q) :=
  getTargetBitrate getAverageTheoreticalBitrate getMinTheoreticalBitrate
    inputBitrate resolution ratio fps.

Lemma capBitrate_le (inputBitrate : option Q) (targetBitrate : Q) :
  (capBitrate inputBitrate targetBitrate <= targetBitrate)%Q.
Proof.
  unfold capBitrate. destruct inputBitrate as [b|]; [|lra].
  destruct (Qeq_bool b 0); [lra|]. apply Q.le_min_l.
Qed.

(** X23.  Knowing the input bitrate never raises the target: with any
    input bitrate the target is at most the target without one; and among
    positive input bitrates the target grows with the input, so a source
    of lower bitrate never gets a higher target. *)
Theorem target_bitrate_grows_with_input :
  (forall inputBitrate, (target inputBitrate <= target None)%Q)
  /\ (forall b1 b2,
         (0 < b1)%Q -> (b1 <= b2)%Q ->
         (target (Some b1) <= target (Some b2))%Q).
Proof.
  unfold target, getTargetBitrate, Math_max. split.
  - intros inputBitrate. apply Q.max_le_compat_l.
    cbn [capBitrate]. apply capBitrate_le.
  - intros b1 b2 Hpos Hle. apply Q.max_le_compat_l.
    rewrite !capBitrate_known by lra.
    apply Q.min_le_compat_l. now apply inputBitrateWithMargin_le.
Qed.

End BitrateOrder.

(* ===================================================================== *)
(** ** Scenarios *)
(* ===================================================================== *)

(** X6 on a listing of two entries released at the current second. *)
Lemma candidates_are_released_items_witness :
  exists urls,
    Wrapper.getInfoForListImport
      (Samples.wrapperEnv (Samples.listing (Some 1700000000)))
      Samples.videoWrapper (Some 10) = Return urls
    /\ (List.length urls <= 2)%nat.
Proof.
  destruct (candidates_are_released_items
              (Samples.wrapperEnv (Samples.listing (Some 1700000000)))
              Samples.videoWrapper (Some 10)
              [ {| CLI.webpage_url := Some "https://example.com/v1";
                   CLI.timestamp := None;
                   CLI.release_timestamp := Some 1700000000;
                   CLI.json := str "1" |};
                {| CLI.webpage_url := Some "https://example.com/v2";
                   CLI.timestamp := None;
                   CLI.release_timestamp := Some 1700000000;
                   CLI.json := str "2" |} ]
              eq_refl)
    as [_ [_ [urls [H1 [_ H3]]]]].
  exists urls. split; [exact H1|exact H3].
Defined.

(** X7 on a video with one format. *)
Lemma getInfoForDownload_outcomes_witness :
  exists info,
    Wrapper.getInfoForDownload
      (Samples.wrapperEnv MoreSamples.oneEntryListing)
      Samples.videoWrapper [] = Return info
    /\ InfoBuilder.webpageUrl info = Some "https://example.com/v1"
    /\ List.length (InfoBuilder.info_formats info) = 1%nat.
Proof.
  eexists. split.
  - rewrite (proj1 (proj2 (getInfoForDownload_outcomes
                             (Samples.wrapperEnv MoreSamples.oneEntryListing)
                             Samples.videoWrapper []))
               (CLI.Single
                  {| CLI.webpage_url := Some "https://example.com/v1";
                     CLI.timestamp := None;
                     CLI.release_timestamp := None;
                     CLI.json := str "1" |}));
      [reflexivity|reflexivity|reflexivity|discriminate].
  - split; reflexivity.
Defined.

(** X8 on [video.en.vtt]. *)
Lemma subtitle_language_of_filename_witness :
  WrapperFiles.matchLanguage (str "video.en.vtt") = Some (str "en").
Proof.
  refine (proj2 (proj2 (subtitle_language_of_filename (str "video.en.vtt")))
            (str "video") 101%N 110%N (str ".vtt") eq_refl _ _).
  - exists [], (str "vtt"). repeat split. now left. now left.
  - repeat constructor; discriminate.
Defined.

(** X10 on a download that left a [.mkv] file. *)
Lemma guessed_path_is_first_existing_witness :
  WrapperFiles.pathExists (MoreSamples.filesEnv [ "/tmp/v.mkv" ]) "/tmp/v.mkv"
  = true.
Proof.
  destruct (proj1 (proj2 (guessed_path_is_first_existing
                            (MoreSamples.filesEnv [ "/tmp/v.mkv" ])
                            "/tmp/v" ".mov"))
              "/tmp/v.mkv" eq_refl) as [_ [H _]].
  exact H.
Defined.

(** X15 on the fifteenth of January 2023. *)
Lemma upload_date_round_trip_witness :
  InfoBuilder.buildOriginallyPublishedAt Samples.builderEnv
    (InfoWords.uploadedOn (Some (str "20230115")))
  = Some (InfoBuilder.localMidnight Samples.builderEnv 2023 (1 - 1) 15).
Proof.
  apply (proj1 (upload_date_round_trip Samples.builderEnv
                  (InfoWords.uploadedOn (Some (str "20230115"))))
           2023 1 15); [lia|lia|lia|reflexivity].
Defined.

(** X19 on a pending session and a listing of two entries. *)
Lemma run_saves_only_stamped_sessions_witness :
  SyncWords.stampedFrom 1700000000000 7 []
    (snd (SyncChannel.synchronizeChannel
            (Samples.syncEnv (Samples.listing None) false)
            Samples.syncOptions Samples.withSession)).
Proof.
  exact (proj1 (proj1 (run_saves_only_stamped_sessions
                         Samples.withSession Samples.pendingSession eq_refl)
                  (Samples.syncEnv (Samples.listing None) false)
                  Samples.syncOptions)).
Defined.

(** X20 on the same listing, without a session. *)
Lemma run_without_session_never_saves_witness :
  SyncWords.unsaved []
    (snd (SyncChannel.synchronizeChannel
            (Samples.syncEnv (Samples.listing None) false)
            Samples.syncOptions Samples.withoutSession)).
Proof.
  exact (proj1 (proj1 (run_without_session_never_saves
                         Samples.withoutSession eq_refl)
                  (Samples.syncEnv (Samples.listing None) false)
                  Samples.syncOptions)).
Defined.

(** X21 on a pending session and a listing of two entries, neither
    imported yet. *)
Lemma run_queues_one_graph_for_kept_urls_witness :
  fst (SyncChannel.synchronizeChannel
         (Samples.syncEnv (Samples.listing None) false)
         Samples.syncOptions Samples.withSession) = Return tt
  /\ List.length
       (Sync.submissions
          (Sync.events
             (snd (SyncChannel.synchronizeChannel
                     (Samples.syncEnv (Samples.listing None) false)
                     Samples.syncOptions Samples.withSession)))) = 1%nat.
Proof.
  destruct (run_queues_one_graph_for_kept_urls
              (Samples.syncEnv (Samples.listing None) false)
              Samples.syncOptions Samples.withSession Samples.pendingSession
              {| Sync.user_id := 1 |}
              [ "https://example.com/v1"; "https://example.com/v2" ]
              (map (fun targetUrl =>
                      Sync.video_import
                        (SyncWords.importOptions {| Sync.user_id := 1 |}
                           Samples.channel
                           (Some (SyncWords.stamp 1700000000000
                                    Samples.pendingSession))
                           targetUrl))
                   [ "https://example.com/v1"; "https://example.com/v2" ]))
    as [H1 [_ [_ H4]]].
  - reflexivity.
  - reflexivity.
  - reflexivity.
  - reflexivity.
  - repeat constructor.
  - discriminate.
  - reflexivity.
  - split; [exact H1|]. rewrite H4. reflexivity.
Defined.

(** X25 on a pending session and a listing of two entries, both imported
    already, with a logger that has no method [warning]. *)
Lemma run_with_every_url_left_out_witness :
  Sync.submissions
    (Sync.events
       (snd (SyncChannel.synchronizeChannel
               (Samples.syncEnv (Samples.listing None) true)
               Samples.syncOptions Samples.withSession))) = []
  /\ Sync.session
       (snd (SyncChannel.synchronizeChannel
               (Samples.syncEnv (Samples.listing None) true)
               Samples.syncOptions Samples.withSession))
     = Some {| Sync.id := 7; Sync.state := Sync.FAILED;
               Sync.lastSyncAt := Some 1700000000000 |}.
Proof.
  destruct (run_with_every_url_left_out
              (Samples.syncEnv (Samples.listing None) true)
              Samples.syncOptions Samples.withSession Samples.pendingSession
              {| Sync.user_id := 1 |}
              [ "https://example.com/v1"; "https://example.com/v2" ])
    as [_ [H2 H3]].
  - reflexivity.
  - intros s'. reflexivity.
  - reflexivity.
  - reflexivity.
  - discriminate.
  - reflexivity.
  - split; [exact H2|]. exact (proj1 H3).
Defined.

(** X23 on a source at 500 kbit/s and one at 1 Mbit/s. *)
Lemma target_bitrate_grows_with_input_witness :
  (Transcode.getTargetBitrate Samples.averageBitrate Samples.minBitrate
     (Some 500000%Q) 1080%Q (16 # 9)%Q 30%Q
   <= Transcode.getTargetBitrate Samples.averageBitrate Samples.minBitrate
        (Some 1000000%Q) 1080%Q (16 # 9)%Q 30%Q)%Q.
Proof.
  apply (proj2 (target_bitrate_grows_with_input
                  Samples.averageBitrate Samples.minBitrate
                  1080%Q (16 # 9)%Q 30%Q)); [reflexivity|discriminate].
Defined.

Section EntriesImportFacts.
Import Sync SyncWords EntriesWords SyncFacts QuietFacts.
Local Open Scope sync_scope.

Variable env : SyncChannelEntries.Env.

Lemma entries_skipImport_verdict (channel : MChannel)
    (entry : SyncChannelEntries.Entry) (onlyAfter : option Z) (w : World) :
  fst (SyncChannelEntries.skipImport env channel
         (SyncChannelEntries.webpageUrl entry) onlyAfter w)
  = entryVerdict env channel onlyAfter entry.
Proof.
  unfold entryVerdict, SyncChannelEntries.skipImport, bind, tryCatch, lift,
    log, emit, ret, throw.
  destruct (SyncChannelEntries.urlAlreadyImported env _ _) as [[|]|e];
    try reflexivity.
  destruct (SyncChannelEntries.getInfoForDownload env _) as [videoInfo|e];
    [|reflexivity].
  cbn. destruct onlyAfter as [date|]; [|reflexivity].
  destruct (SyncChannelEntries.info_originallyPublishedAt videoInfo) as [p|];
    [|reflexivity].
  destruct (p <? SyncChannelEntries.withoutTime env date); reflexivity.
Qed.

(** The loop on the entries, when no verdict throws and the import builder
    accepts each entry that is kept. *)
Lemma buildChildren_outcome (user : MUser) (channel : MChannel)
    (onlyAfter : option Z) (entries : list SyncChannelEntries.Entry) :
  forall (children0 children : list CreateJobArgument) (w : World),
    Forall (fun entry =>
              isThrow (entryVerdict env channel onlyAfter entry) = false)
           entries ->
    Forall2 (fun entry job =>
               SyncChannelEntries.buildYoutubeDLImport env
                 (entryImportOptions user channel (session w) entry)
               = Return job)
            (keptEntries env channel onlyAfter entries) children ->
    let r := SyncChannelEntries.buildChildren env user channel onlyAfter
               entries children0 w in
    fst r = Return (children0 ++ children)
    /\ session (snd r) = session w
    /\ saves (events (snd r)) = saves (events w)
    /\ submissions (events (snd r)) = submissions (events w).
Proof.
  induction entries as [|entry rest IH];
    intros children0 children w Hok Hjobs.
  - inversion Hjobs. subst. cbn. rewrite app_nil_r. auto.
  - cbv zeta. cbn [SyncChannelEntries.buildChildren]. rewrite bind_unfold.
    pose proof (entries_skipImport_verdict channel entry onlyAfter w) as V.
    destruct (quiet_skipImport env channel
                (SyncChannelEntries.webpageUrl entry) onlyAfter w)
      as [G2 [G3 G4]].
    destruct (SyncChannelEntries.skipImport env channel
                (SyncChannelEntries.webpageUrl entry) onlyAfter w)
      as [r w1].
    cbn [fst snd] in V, G2, G3, G4. subst r.
    inversion Hok as [|e0 l0 Hentry Hrest]. subst.
    cbn [keptEntries filter] in Hjobs.
    fold (keptEntries env channel onlyAfter rest) in Hjobs.
    destruct (entryVerdict env channel onlyAfter entry) as [[|]|e];
      [| |discriminate].
    + rewrite <- G2 in Hjobs.
      destruct (IH children0 children w1 Hrest Hjobs) as [I1 [I2 [I3 I4]]].
      repeat split; congruence.
    + inversion Hjobs as [|u job kept jobs' Hjob Hkept]. subst.
      unfold entryImportOptions in Hjob.
      unfold bind, getSession, lift. cbn [fst snd]. rewrite G2, Hjob.
      rewrite <- G2 in Hkept.
      destruct (IH (children0 ++ [ job ]) jobs' w1 Hrest Hkept)
        as [I1 [I2 [I3 I4]]].
      rewrite <- app_assoc in I1. cbn [app] in I1.
      repeat split; congruence.
Qed.

(** X24.  A run of [synchronizeChannel] of the revision on entries that
    goes well.  With a session that the store saves, a listing that gives
    entries, verdicts of [skipImport] that do not throw, and an import
    builder and a queue that accept what they are given, the run returns
    and hands the queue exactly one job graph: the parent
    [after-video-channel-import] with the session's identifier, and one
    child for each entry on which [skipImport] answered [false], in the
    order of the listing, each with the entry's own publication date as
    override.  The parent is queued even when every entry was skipped.  An
    entry that is not imported yet and whose information cannot be fetched
    is skipped, not an error. *)
Theorem run_on_entries_queues_one_graph
    (options : SyncChannelEntries.Options) (w : World) (s : MChannelSync)
    (user : MUser) (entries : list SyncChannelEntries.Entry)
    (children : list CreateJobArgument) :
  let date := SyncChannelEntries.newDate env in
  let channel := SyncChannelEntries.opt_channel options in
  let onlyAfter := SyncChannelEntries.onlyAfter options in
  let parent := after_video_channel_import (Some (id s)) in
  session w = Some s ->
  SyncChannelEntries.save env (stamp date s) = Return tt ->
  SyncChannelEntries.loadByChannelActorId env (actorId channel)
    = Return user ->
  SyncChannelEntries.getInfoForListImport env
    (SyncChannelEntries.externalChannelUrl options)
    (SyncChannelEntries.videosCountLimit options) = Return entries ->
  entries <> [] ->
  Forall (fun entry =>
            isThrow (entryVerdict env channel onlyAfter entry) = false)
         entries ->
  Forall2 (fun entry job =>
             SyncChannelEntries.buildYoutubeDLImport env
               (entryImportOptions user channel (Some (stamp date s)) entry)
             = Return job)
          (keptEntries env channel onlyAfter entries) children ->
  SyncChannelEntries.createJobWithChildren_result env parent children
    = Return tt ->
  let r := SyncChannelEntries.synchronizeChannel env options w in
  (fst r = Return tt
   /\ session (snd r) = Some (stamp date s)
   /\ saves (events (snd r)) = saves (events w) ++ [ stamp date s ]
   /\ submissions (events (snd r))
      = submissions (events w) ++ [ (parent, children) ])
  /\ forall entry e,
       SyncChannelEntries.urlAlreadyImported env (channel_id channel)
         (SyncChannelEntries.webpageUrl entry) = Return false ->
       SyncChannelEntries.getInfoForDownload env
         (SyncChannelEntries.webpageUrl entry) = Throw e ->
       entryVerdict env channel onlyAfter entry = Return true.
Proof.
  intros date channel onlyAfter parent Hs Hsave Hload Hlist Hne Hok Hjobs
    Hqueue r.
  split.
  2:{ intros entry e Himported Hinfo.
      unfold entryVerdict, SyncChannelEntries.skipImport, bind, tryCatch,
        lift, log, emit, ret.
      now rewrite Himported, Hinfo. }
  set (w1 := {| session := Some (stamp date s);
                events := events w ++ [ Saved (stamp date s) ] |}).
  set (w2 := {| session := session w1;
                events := events w1
                          ++ [ Logged info
                                 "Fetched candidate URLs for sync channel" ] |}).
  destruct (buildChildren_outcome user channel onlyAfter entries [] children
              w2 Hok Hjobs) as [B1 [B2 [B3 B4]]].
  assert (Hr : r = createJobWithChildren
                     (SyncChannelEntries.createJobWithChildren_result env)
                     parent children
                     (snd (SyncChannelEntries.buildChildren env user channel
                             onlyAfter entries [] w2))).
  { unfold r, SyncChannelEntries.synchronizeChannel. unfold bind at 1.
    change (SyncChannelEntries.markProcessing env w)
      with ((channelSync <- getSession ;;
             match channelSync with
             | Some _ =>
                 setState PROCESSING ;;; setLastSyncAt date ;;;
                 saveSession (SyncChannelEntries.save env)
             | None => ret tt
             end) w).
    rewrite (mark_with_session _ _ _ _ Hs), Hsave. fold w1.
    unfold tryCatch, SyncChannelEntries.tryBlock.
    unfold bind at 1. unfold lift at 1.
    fold channel. rewrite Hload. unfold bind at 1. unfold lift at 1.
    rewrite Hlist. unfold SyncChannelEntries.importEntries.
    destruct entries as [|entry rest]; [contradiction|].
    cbn [List.length Nat.eqb]. unfold bind at 1.
    unfold log, emit. fold w2. unfold bind at 1. fold channel onlyAfter.
    destruct (SyncChannelEntries.buildChildren env user channel onlyAfter
                (entry :: rest) [] w2) as [rj w3] eqn:E.
    cbn [fst snd] in B1, B2. subst rj. cbn [app].
    unfold bind, getSession. rewrite B2.
    cbn [session w2 w1 option_map stamp id]. fold parent.
    unfold createJobWithChildren. rewrite Hqueue. reflexivity. }
  rewrite Hr. unfold createJobWithChildren. rewrite Hqueue.
  cbn [fst snd session events]. rewrite B2.
  rewrite saves_app, submissions_app, B3, B4.
  cbn [w2 w1 session events]. rewrite !saves_app, !submissions_app.
  cbn. rewrite !app_nil_r. auto.
Qed.

End EntriesImportFacts.

(** X24 on a pending session and two entries, neither imported yet. *)
Lemma run_on_entries_queues_one_graph_witness :
  fst (SyncChannelEntries.synchronizeChannel
         (Samples.entriesEnv (Return Samples.twoEntries) false)
         Samples.entriesOptions Samples.withSession) = Return tt
  /\ List.length
       (Sync.submissions
          (Sync.events
             (snd (SyncChannelEntries.synchronizeChannel
                     (Samples.entriesEnv (Return Samples.twoEntries) false)
                     Samples.entriesOptions Samples.withSession)))) = 1%nat.
Proof.
  destruct (run_on_entries_queues_one_graph
              (Samples.entriesEnv (Return Samples.twoEntries) false)
              Samples.entriesOptions Samples.withSession
              Samples.pendingSession {| Sync.user_id := 1 |}
              Samples.twoEntries
              (map (fun entry =>
                      Sync.video_import
                        (EntriesWords.entryImportOptions
                           {| Sync.user_id := 1 |} Samples.channel
                           (Some (SyncWords.stamp 1700000000000
                                    Samples.pendingSession))
                           entry))
                   Samples.twoEntries))
    as [[H1 [_ [_ H4]]] _].
  - reflexivity.
  - reflexivity.
  - reflexivity.
  - reflexivity.
  - discriminate.
  - repeat constructor.
  - repeat constructor.
  - reflexivity.
  - split; [exact H1|]. rewrite H4. reflexivity.
Defined.
